(** * junk-removal-scraper: the extraction and classification pipeline

    A shallow embedding of [src/scraper.js] (class [JunkRemovalScraper]):
    the in-page collector (card pass, tree walk, position sort), the
    grouper, the classifier, the section assembly and the entry point
    [scrapeWebsite] with its try / catch / finally.

    Conventions of the embedding.
    - A JavaScript string is a [string]: one character per UTF-16 code
      unit, code units below 256 (Latin-1).  [String.length] is the
      JavaScript [length].
    - Rounded page coordinates and sizes are [Z].
    - A DOM node is identified by its path from the root element, written
      leaf first: the [i]-th child node of the node at [p] is [i :: p].
    - [processedNodes] (a JavaScript [Set] keyed by node identity) is a
      [gset] of paths.
    - Code that can throw returns an [outcome]. *)

From Stdlib Require Import Strings.String Strings.Ascii ZArith List Bool Lia.
From Stdlib Require Import DecimalString Sorting.Sorted.
From Stdlib Require DecimalNat.
From stdpp Require Import base option list sets gmap strings sorting.

Local Open Scope string_scope.

(** ** JavaScript strings *)

Module Js.

Definition dquote : ascii := ascii_of_nat 34.

Definition is_empty (s : string) : bool :=
  match s with EmptyString => true | String _ _ => false end.

(** Truthiness of a string value: non-empty. *)
Definition truthy (s : string) : bool := negb (is_empty s).

(** [a || b] on strings. *)
Definition or_else (a b : string) : string := if truthy a then a else b.

(** The class [[ \t]] of [normalizeSpaces]. *)
Definition is_blank (c : ascii) : bool :=
  let n := nat_of_ascii c in (n =? 32)%nat || (n =? 9)%nat.

(** The regular-expression class [\s], which is also what [trim] strips:
    TAB, LF, VT, FF, CR, SPACE and NBSP among the code units below 256. *)
Definition is_ws (c : ascii) : bool :=
  let n := nat_of_ascii c in
  ((9 <=? n)%nat && (n <=? 13)%nat) || (n =? 32)%nat || (n =? 160)%nat.

Definition is_digit (c : ascii) : bool :=
  let n := nat_of_ascii c in (48 <=? n)%nat && (n <=? 57)%nat.

(** The class [\w]: ASCII letters, digits and underscore. *)
Definition is_word (c : ascii) : bool :=
  let n := nat_of_ascii c in
  ((48 <=? n)%nat && (n <=? 57)%nat) || ((65 <=? n)%nat && (n <=? 90)%nat)
  || ((97 <=? n)%nat && (n <=? 122)%nat) || (n =? 95)%nat.

Definition lower_char (c : ascii) : ascii :=
  let n := nat_of_ascii c in
  if ((65 <=? n)%nat && (n <=? 90)%nat)
     || ((192 <=? n)%nat && (n <=? 222)%nat && negb (n =? 215)%nat)
  then ascii_of_nat (n + 32) else c.

(** [s.toLowerCase()] *)
Fixpoint toLowerCase (s : string) : string :=
  match s with
  | EmptyString => EmptyString
  | String c s' => String (lower_char c) (toLowerCase s')
  end.

Fixpoint starts_with (p s : string) : bool :=
  match p, s with
  | EmptyString, _ => true
  | String a p', String b s' => Ascii.eqb a b && starts_with p' s'
  | String _ _, EmptyString => false
  end.

(** [s.includes(p)] *)
Fixpoint includes (s p : string) : bool :=
  starts_with p s ||
  match s with
  | EmptyString => false
  | String _ s' => includes s' p
  end.

(** [arr.join(sep)] *)
Fixpoint join (sep : string) (l : list string) : string :=
  match l with
  | [] => ""
  | [x] => x
  | x :: rest => x +:+ sep +:+ join sep rest
  end.

(** [text.replace(/[ \t]+/g, ' ')]: every maximal run of spaces and tabs
    becomes one space. *)
Fixpoint collapse_blanks (in_run : bool) (s : string) : string :=
  match s with
  | EmptyString => EmptyString
  | String c s' =>
      if is_blank c
      then (if in_run then collapse_blanks true s'
            else String " " (collapse_blanks true s'))
      else String c (collapse_blanks false s')
  end.

Fixpoint trim_start (s : string) : string :=
  match s with
  | EmptyString => EmptyString
  | String c s' => if is_ws c then trim_start s' else s
  end.

Fixpoint trim_end (s : string) : string :=
  match s with
  | EmptyString => EmptyString
  | String c s' =>
      let r := trim_end s' in
      if is_ws c && is_empty r then EmptyString else String c r
  end.

(** [s.trim()] *)
Definition trim (s : string) : string := trim_end (trim_start s).

(** [text.split(/\s+/)]: the pieces between the maximal whitespace runs,
    empty pieces at either end included. *)
Fixpoint split_ws_from (cur : string) (in_ws : bool) (s : string) : list string :=
  match s with
  | EmptyString => [cur]
  | String c s' =>
      if is_ws c
      then (if in_ws then split_ws_from cur true s'
            else cur :: split_ws_from "" true s')
      else split_ws_from (cur +:+ String c "") false s'
  end.

Definition split_ws (s : string) : list string := split_ws_from "" false s.

(** The template-literal rendering of a counter. *)
Definition decimal (n : nat) : string := NilEmpty.string_of_uint (Nat.to_uint n).

(** [/^h[1-6]$/.test(tag)] *)
Definition is_heading_tag (tag : string) : bool :=
  match tag with
  | String h (String d EmptyString) =>
      Ascii.eqb h "h"%char &&
      (let n := nat_of_ascii d in (49 <=? n)%nat && (n <=? 54)%nat)
  | _ => false
  end.

(** A run of exactly [n] digits at the head of [s]; the rest of [s]. *)
Fixpoint digits (n : nat) (s : string) : option string :=
  match n with
  | O => Some s
  | S n' =>
      match s with
      | String c s' => if is_digit c then digits n' s' else None
      | EmptyString => None
      end
  end.

(** [[-.]?]: the separator is consumed when present.  What follows the
    separator position in the pattern is a digit, so not consuming a
    separator that is there can never lead to a match. *)
Definition opt_sep (s : string) : string :=
  match s with
  | String c s' =>
      if Ascii.eqb c "-"%char || Ascii.eqb c "."%char then s' else s
  | EmptyString => s
  end.

(** The trailing [\b], which comes after a digit: end of input or a
    character outside [\w]. *)
Definition at_word_end (s : string) : bool :=
  match s with
  | EmptyString => true
  | String c _ => negb (is_word c)
  end.

(** [\d{3}[-.]?\d{3}[-.]?\d{4}\b] anchored at the head of [s]. *)
Definition phone_here (s : string) : bool :=
  match digits 3 s with
  | Some s1 =>
      match digits 3 (opt_sep s1) with
      | Some s2 =>
          match digits 4 (opt_sep s2) with
          | Some s3 => at_word_end s3
          | None => false
          end
      | None => false
      end
  | None => false
  end.

(** The scan for a match; [prev_word] tells whether the character before
    the head of [s] is in [\w] (the leading [\b] stands before a digit, so
    it needs a non-word character or the start of input before it). *)
Fixpoint phone_scan (prev_word : bool) (s : string) : bool :=
  (negb prev_word && phone_here s) ||
  match s with
  | EmptyString => false
  | String c s' => phone_scan (is_word c) s'
  end.

(** [text.match(/\b\d{3}[-.]?\d{3}[-.]?\d{4}\b/)] as a truth value. *)
Definition has_phone (s : string) : bool := phone_scan false s.

(** The quoted-span test of the testimonial rule (scraper.js 549): a
    double quote, at least 20 characters other than a double quote, and a
    double quote.  [since] is the number of characters read since the
    last double quote. *)
Fixpoint quoted_scan (since : option nat) (s : string) : bool :=
  match s with
  | EmptyString => false
  | String c s' =>
      if Ascii.eqb c dquote
      then match since with
           | Some n => (20 <=? n)%nat || quoted_scan (Some O) s'
           | None => quoted_scan (Some O) s'
           end
      else quoted_scan (option_map S since) s'
  end.

Definition has_quoted_span (s : string) : bool := quoted_scan None s.

End Js.

(** [normalizeSpaces] (scraper.js 99-104) *)
Definition normalizeSpaces (text : string) : string :=
  if Js.is_empty text then "" else Js.trim (Js.collapse_blanks false text).

(** [countWords] (scraper.js 107-109) *)
Definition countWords (text : string) : nat :=
  length (filter (fun word => (0 <? String.length word)%nat = true) (Js.split_ws text)).

(** ** The rendered document *)

(** Either a value or a thrown exception. *)
Inductive exn : Type :=
  | TypeError (message : string)
  | External (message stack : string).

Inductive outcome (A : Type) : Type :=
  | Ok (a : A)
  | Throw (e : exn).
Arguments Ok {A} a.
Arguments Throw {A} e.

#[global] Instance outcome_ret : MRet outcome := fun A a => Ok a.
#[global] Instance outcome_bind : MBind outcome := fun A B k m =>
  match m with
  | Ok a => k a
  | Throw e => Throw e
  end.

Definition path := list nat.

Module Pos.
(** The object built by [getElementPosition]. *)
Record t := mk
  { top : Z; left : Z; bottom : Z; right : Z; width : Z; height : Z }.
End Pos.

Module Dom.

(** What the pipeline reads of an element.  [position] is the value of
    [getElementPosition] (bounding box plus scroll offset, rounded) and
    [innerText] the rendered text; both are given by the rendering
    engine.  The [class] attribute is the space-joined [classList]: every
    pattern the program matches against it is free of white space, so only
    the tokens matter.  The properties are those of the element itself:
    the embedding is of documents in which no form control is named after
    one of them (a control named [id] inside a form makes [form.id] that
    control, not a string). *)
Record element := mk
  { tagName : string;
    id : string;
    classList : list string;
    role : option string;
    ariaHidden : option string;
    display : string;
    visibility : string;
    opacity : string;
    offsetWidth : Z;
    offsetHeight : Z;
    position : Pos.t;
    innerText : string }.

#[warnings="-register-all"]
Inductive node :=
  | TextNode (data : string)
  | CommentNode (data : string)
  | ElementNode (e : element) (childNodes : list node).

Definition childNodes (n : node) : list node :=
  match n with
  | ElementNode _ cs => cs
  | _ => []
  end.

Definition className (e : element) : string := Js.join " " (classList e).

(** An element together with where it is: what a JavaScript reference to
    a DOM element gives access to. *)
Record handle := at_
  { h_path : path; h_el : element; h_kids : list node }.

Definition as_handle (p : path) (n : node) : option handle :=
  match n with
  | ElementNode e cs => Some (at_ p e cs)
  | _ => None
  end.

(** The node at a path below [root]. *)
Fixpoint node_at (root : node) (p : path) : option node :=
  match p with
  | [] => Some root
  | i :: p' =>
      match node_at root p' with
      | Some n => childNodes n !! i
      | None => None
      end
  end.

Definition handle_at (root : node) (p : path) : option handle :=
  match node_at root p with
  | Some n => as_handle p n
  | None => None
  end.

(** [f i c] over the children [c] at index [i], [i+1], ... *)
Fixpoint flat_mapi {A B} (f : nat -> B -> list A) (i : nat) (l : list B) : list A :=
  match l with
  | [] => []
  | c :: l' => f i c ++ flat_mapi f (S i) l'
  end.

(** The element descendants of the node [n] at path [p], in document
    order: [n.querySelectorAll('*')]. *)
Fixpoint descendants (p : path) (n : node) : list handle :=
  match n with
  | ElementNode _ cs =>
      flat_mapi (fun i c =>
                   match c with
                   | ElementNode e k => at_ (i :: p) e k :: descendants (i :: p) c
                   | _ => []
                   end) 0 cs
  | _ => []
  end.

(** The part of [descendants p n] that comes from the child [c] of [n]
    at index [i]. *)
Definition block (p : path) (i : nat) (c : node) : list handle :=
  match c with
  | ElementNode e k => at_ (i :: p) e k :: descendants (i :: p) c
  | _ => []
  end.

Definition descendants_of (h : handle) : list handle :=
  descendants (h_path h) (ElementNode (h_el h) (h_kids h)).

(** All elements of the document whose root element is [root]. *)
Definition all_elements (root : node) : list handle :=
  match as_handle [] root with
  | Some h => h :: descendants [] root
  | None => []
  end.

(** [element.children] *)
Definition children (h : handle) : list handle :=
  flat_mapi (fun i c => match as_handle (i :: h_path h) c with
                        | Some k => [k]
                        | None => []
                        end) 0 (h_kids h).

(** [node.textContent] of an element: the text of its text-node
    descendants, in document order. *)
Fixpoint textContent_node (n : node) : string :=
  match n with
  | TextNode d => d
  | CommentNode _ => ""
  | ElementNode _ cs =>
      fold_right (fun c acc => textContent_node c +:+ acc) "" cs
  end.

Definition textContent (h : handle) : string :=
  textContent_node (ElementNode (h_el h) (h_kids h)).

(** [element.parentElement] *)
Definition parentElement (root : node) (h : handle) : option handle :=
  match h_path h with
  | [] => None
  | _ :: p' => handle_at root p'
  end.

(** The element siblings after [h], in order: the chain of
    [nextElementSibling]. *)
Definition nextElementSiblings (root : node) (h : handle) : list handle :=
  match h_path h with
  | [] => []
  | i :: p' =>
      match node_at root p' with
      | Some parent =>
          flat_mapi (fun j c => match as_handle (j :: p') c with
                                | Some k => [k]
                                | None => []
                                end) (S i) (drop (S i) (childNodes parent))
      | None => []
      end
  end.

(** [document.body]: the first [body] or [frameset] child of the root
    element. *)
Definition is_body_tag (h : handle) : bool :=
  let t := Js.toLowerCase (tagName (h_el h)) in
  String.eqb t "body" || String.eqb t "frameset".

Definition document_body (root : node) : option handle :=
  match as_handle [] root with
  | Some h => head (filter (fun k => is_body_tag k = true) (children h))
  | None => None
  end.

(** *** Selectors *)

Definition has_tag (name : string) (e : element) : bool :=
  String.eqb (Js.toLowerCase (tagName e)) name.

Definition has_class (tok : string) (e : element) : bool :=
  existsb (String.eqb tok) (classList e).

(** [[class*=pat]] *)
Definition class_contains (pat : string) (e : element) : bool :=
  Js.includes (className e) pat.

(** [h1, h2, h3, h4, h5, h6] *)
Definition sel_heading (e : element) : bool :=
  existsb (fun t => has_tag t e) ["h1"; "h2"; "h3"; "h4"; "h5"; "h6"].

(** [p, span, div] *)
Definition sel_text (e : element) : bool :=
  existsb (fun t => has_tag t e) ["p"; "span"; "div"].

(** [button, a.btn, a.button, [class*=btn], [class*=button]] *)
Definition sel_button (e : element) : bool :=
  has_tag "button" e
  || (has_tag "a" e && has_class "btn" e)
  || (has_tag "a" e && has_class "button" e)
  || class_contains "btn" e
  || class_contains "button" e.

(** [[class*=card], [class*=service-item], [class*=feature], .box] *)
Definition sel_card (e : element) : bool :=
  class_contains "card" e
  || class_contains "service-item" e
  || class_contains "feature" e
  || has_class "box" e.

(** [h.querySelector(sel)] *)
Definition querySelector (sel : element -> bool) (h : handle) : option handle :=
  head (filter (fun k => sel (h_el k) = true) (descendants_of h)).

(** [document.querySelectorAll(sel)] *)
Definition querySelectorAll (sel : element -> bool) (root : node) : list handle :=
  filter (fun k => sel (h_el k) = true) (all_elements root).

End Dom.

(** ** The in-page helpers (scraper.js 98-267) *)

Definition in_list (x : string) (l : list string) : bool :=
  existsb (String.eqb x) l.

(** [shouldSkipElement] (scraper.js 112-151) *)
Definition shouldSkipElement (element : Dom.element) : bool :=
  let tag := Js.toLowerCase (Dom.tagName element) in
  let classList := Js.toLowerCase (Js.join " " (Dom.classList element)) in
  let id := Js.toLowerCase (Dom.id element) in
  let role := Js.toLowerCase (default "" (Dom.role element)) in
  if String.eqb tag "nav" || String.eqb role "navigation"
     || Js.includes classList "nav" || Js.includes classList "menu"
     || Js.includes id "nav" || Js.includes id "menu"
  then true
  else if in_list tag ["input"; "select"; "textarea"; "label"; "option"; "fieldset"; "legend"]
  then true
  else if in_list tag ["script"; "style"; "noscript"; "meta"; "link"]
  then true
  else if String.eqb (Dom.display element) "none"
          || String.eqb (Dom.visibility element) "hidden"
          || String.eqb (Dom.opacity element) "0"
          || (Dom.offsetWidth element =? 0)%Z
          || (Dom.offsetHeight element =? 0)%Z
  then true
  else if bool_decide (Dom.ariaHidden element = Some "true")
  then true
  else false.

(** [getElementPosition] (scraper.js 154-167) *)
Definition getElementPosition (element : Dom.handle) : Pos.t :=
  Dom.position (Dom.h_el element).

Definition null_childNodes : exn :=
  TypeError "Cannot read properties of null (reading 'childNodes')".

Definition null_root : exn :=
  TypeError "Failed to execute 'createTreeWalker' on 'Document': parameter 1 is not of type 'Node'.".

(** [sibling.nodeType === 1 && sibling.tagName === element.tagName] *)
Definition same_tag (tag : string) (sibling : Dom.node) : bool :=
  match sibling with
  | Dom.ElementNode e _ => String.eqb (Dom.tagName e) tag
  | _ => false
  end.

(** The number of element nodes with tag name [tag] in [siblings]: the
    value of [ix] when the loop of [getXPath] reaches the element. *)
Definition same_tag_before (tag : string) (siblings : list Dom.node) : nat :=
  length (filter (fun sibling => same_tag tag sibling = true) siblings).

(** [getXPath] (scraper.js 170-185) at the element with path [p].  The
    recursive call is on the parent.  The parent of the root element is
    the document, which has no [id], is not the body and has no parent:
    there [element.parentNode.childNodes] reads a property of [null].
    [body] is the path of [document.body].  Paths taken from elements of
    the document always name an element; for any other path the function
    is given the same outcome as for a node without a parent. *)
Fixpoint getXPath (root : Dom.node) (body : option path) (p : path) : outcome string :=
  match Dom.handle_at root p with
  | None => Throw null_childNodes
  | Some element =>
      let e := Dom.h_el element in
      if Js.truthy (Dom.id e)
      then Ok ("//*[@id=" +:+ String Js.dquote (Dom.id e) +:+ String Js.dquote "]")
      else if bool_decide (body = Some p) then Ok "/html/body"
      else
        match p with
        | [] => Throw null_childNodes
        | i :: parent =>
            let siblings := from_option Dom.childNodes [] (Dom.node_at root parent) in
            let ix := same_tag_before (Dom.tagName e) (take i siblings) in
            up ← getXPath root body parent;
            Ok (up +:+ "/" +:+ Js.toLowerCase (Dom.tagName e)
                   +:+ "[" +:+ Js.decimal (ix + 1) +:+ "]")
        end
  end.

(** [isCardContainer] (scraper.js 188-202) *)
Definition isCardContainer (element : Dom.handle) : bool :=
  let classList := Js.toLowerCase (Js.join " " (Dom.classList (Dom.h_el element))) in
  let hasCardClass :=
    Js.includes classList "card" || Js.includes classList "service"
    || Js.includes classList "feature" || Js.includes classList "item"
    || Js.includes classList "box" in
  let hasHeading := Dom.querySelector Dom.sel_heading element in
  let hasText := Dom.querySelector Dom.sel_text element in
  let hasMultipleElements := (2 <=? length (Dom.children element))%nat in
  hasCardClass && bool_decide (is_Some hasHeading)
  && bool_decide (is_Some hasText) && hasMultipleElements.

(** [getExactVisibleText] (scraper.js 205-225) *)
Definition getExactVisibleText (element : Dom.handle) : string :=
  let e := Dom.h_el element in
  if String.eqb (Dom.tagName e) "BUTTON" || String.eqb (Dom.tagName e) "A"
  then normalizeSpaces (Js.or_else (Dom.textContent element) "")
  else
    let hasOnlyTextNodes :=
      forallb (fun node =>
                 match node with
                 | Dom.TextNode _ => true
                 | Dom.ElementNode c _ => shouldSkipElement c
                 | Dom.CommentNode _ => false
                 end) (Dom.h_kids element) in
    if hasOnlyTextNodes
    then normalizeSpaces (Js.or_else (Dom.innerText e) "")
    else "".

Module Btn.
(** The record returned by [findAssociatedButton]. *)
Record t := mk
  { hasButton : bool; buttonText : option string; buttonElement : option path }.
End Btn.

(** The sibling test of [findAssociatedButton] (scraper.js 243-244). *)
Definition is_button_sibling (sibling : Dom.handle) : bool :=
  let e := Dom.h_el sibling in
  String.eqb (Dom.tagName e) "BUTTON"
  || (String.eqb (Dom.tagName e) "A"
      && (Js.includes (Dom.className e) "btn" || Js.includes (Dom.className e) "button")).

(** The three searches of [findAssociatedButton] (scraper.js 230-251):
    inside the element, inside its parent, then the next three element
    siblings. *)
Definition find_button (root : Dom.node) (element : Dom.handle) : option Dom.handle :=
  match Dom.querySelector Dom.sel_button element with
  | Some button => Some button
  | None =>
      let in_parent :=
        match Dom.parentElement root element with
        | Some parent => Dom.querySelector Dom.sel_button parent
        | None => None
        end in
      match in_parent with
      | Some button => Some button
      | None =>
          head (filter (fun sibling => is_button_sibling sibling = true)
                       (take 3 (Dom.nextElementSiblings root element)))
      end
  end.

(** [findAssociatedButton] (scraper.js 228-267) *)
Definition findAssociatedButton (root : Dom.node) (processedNodes : gset path)
    (element : Dom.handle) : Btn.t :=
  match find_button root element with
  | Some button =>
      if bool_decide (Dom.h_path button ∈ processedNodes)
      then Btn.mk false None None
      else
        let buttonText :=
          normalizeSpaces
            (Js.or_else (Dom.innerText (Dom.h_el button))
                        (Js.or_else (Dom.textContent button) "")) in
        Btn.mk true
               (if Js.truthy buttonText then Some buttonText else None)
               (Some (Dom.h_path button))
  | None => Btn.mk false None None
  end.

(** ** The collector (scraper.js 94-372) *)

Module Cand.
(** An entry of [elements].  [element] is the reference to the DOM
    element it was taken from. *)
Record t := mk
  { element : Dom.handle;
    tag : string;
    text : string;
    wordCount : nat;
    isHeading : bool;
    position : Pos.t;
    xpath : string;
    buttonInfo : Btn.t;
    classList : list string;
    id : option string;
    isCard : bool }.
End Cand.

(** The two variables the in-page function mutates. *)
Record collector := mkCollector
  { elements : list Cand.t; processedNodes : gset path }.

Definition id_or_null (s : string) : option string :=
  if Js.truthy s then Some s else None.

Definition button_node (b : Btn.t) : gset path :=
  match Btn.buttonElement b with
  | Some q => {[ q ]}
  | None => ∅
  end.

Definition subtree_paths (h : Dom.handle) : gset path :=
  list_to_set (Dom.h_path <$> Dom.descendants_of h).

(** The body of [cardContainers.forEach] (scraper.js 272-309). *)
Definition card_step (root : Dom.node) (body : option path)
    (st : collector) (card : Dom.handle) : outcome collector :=
  if shouldSkipElement (Dom.h_el card)
     || bool_decide (Dom.h_path card ∈ processedNodes st)
  then Ok st
  else if isCardContainer card then
    let position := getElementPosition card in
    let buttonInfo := findAssociatedButton root (processedNodes st) card in
    let cardText := normalizeSpaces (Js.or_else (Dom.innerText (Dom.h_el card)) "") in
    let wordCount := countWords cardText in
    if (4 <=? wordCount)%nat then
      xpath ← getXPath root body (Dom.h_path card);
      Ok {| elements :=
              elements st ++
              [ {| Cand.element := card;
                   Cand.tag := "card";
                   Cand.text := cardText;
                   Cand.wordCount := wordCount;
                   Cand.isHeading := false;
                   Cand.position := position;
                   Cand.xpath := xpath;
                   Cand.buttonInfo := buttonInfo;
                   Cand.classList := Dom.classList (Dom.h_el card);
                   Cand.id := id_or_null (Dom.id (Dom.h_el card));
                   Cand.isCard := true |} ];
            processedNodes :=
              processedNodes st ∪ subtree_paths card ∪ {[ Dom.h_path card ]}
              ∪ button_node buttonInfo |}
    else Ok st
  else Ok st.

(** [forEach] with a callback that can throw. *)
Fixpoint for_each {A St} (f : St -> A -> outcome St) (l : list A) (st : St) : outcome St :=
  match l with
  | [] => Ok st
  | x :: l' => st' ← f st x; for_each f l' st'
  end.

(** The body of the walker loop (scraper.js 327-358) for a node the
    filter accepted. *)
Definition visit (root : Dom.node) (body : option path)
    (st : collector) (node : Dom.handle) : outcome collector :=
  if bool_decide (Dom.h_path node ∈ processedNodes st) then Ok st
  else
    let tag := Js.toLowerCase (Dom.tagName (Dom.h_el node)) in
    let text := getExactVisibleText node in
    let wordCount := countWords text in
    let isHeading := Js.is_heading_tag tag in
    if (isHeading && Js.truthy text) || (4 <=? wordCount)%nat then
      let position := getElementPosition node in
      let buttonInfo := findAssociatedButton root (processedNodes st) node in
      xpath ← getXPath root body (Dom.h_path node);
      Ok {| elements :=
              elements st ++
              [ {| Cand.element := node;
                   Cand.tag := tag;
                   Cand.text := text;
                   Cand.wordCount := wordCount;
                   Cand.isHeading := isHeading;
                   Cand.position := position;
                   Cand.xpath := xpath;
                   Cand.buttonInfo := buttonInfo;
                   Cand.classList := Dom.classList (Dom.h_el node);
                   Cand.id := id_or_null (Dom.id (Dom.h_el node));
                   Cand.isCard := false |} ];
            processedNodes :=
              processedNodes st ∪ {[ Dom.h_path node ]} ∪ button_node buttonInfo |}
    else Ok st.

(** [acceptNode] (scraper.js 316-321): [true] is [FILTER_ACCEPT], [false]
    is [FILTER_REJECT]. *)
Definition acceptNode (st : collector) (node : Dom.handle) : bool :=
  negb (shouldSkipElement (Dom.h_el node)
        || bool_decide (Dom.h_path node ∈ processedNodes st)).

(** The children [cs] of a node, from index [i] on, each handled by [f]
    in turn with the state threaded through. *)
Fixpoint each_child {St} (f : nat -> Dom.node -> St -> outcome St)
    (i : nat) (cs : list Dom.node) (st : St) : outcome St :=
  match cs with
  | [] => Ok st
  | c :: cs' => st' ← f i c st; each_child f (S i) cs' st'
  end.

(** The [while (node = walker.nextNode())] loop (scraper.js 326-359)
    below the node [n] at path [p].  [nextNode] goes through the tree in
    document order; it applies the filter to a node when it first reaches
    it, does not enter a rejected node, and skips text and comment nodes
    ([SHOW_ELEMENT]).  So each child is filtered with the collector as it
    is when the walk arrives there, visited when accepted, and walked. *)
Fixpoint walk (root : Dom.node) (body : option path) (p : path) (n : Dom.node)
    (st : collector) : outcome collector :=
  match n with
  | Dom.ElementNode _ cs =>
      each_child
        (fun i c st =>
           match c with
           | Dom.ElementNode e k =>
               let node := Dom.at_ (i :: p) e k in
               if acceptNode st node
               then st' ← visit root body st node; walk root body (i :: p) c st'
               else Ok st
           | _ => Ok st
           end) 0 cs st
  | _ => Ok st
  end.

(** The comparator of [elements.sort] (scraper.js 362-369): negative
    when [a] goes before [b]. *)
Definition compare_position (a b : Cand.t) : Z :=
  let rowThreshold := 50%Z in
  if (Z.abs (Pos.top (Cand.position a) - Pos.top (Cand.position b)) <? rowThreshold)%Z
  then (Pos.left (Cand.position a) - Pos.left (Cand.position b))%Z
  else (Pos.top (Cand.position a) - Pos.top (Cand.position b))%Z.

(** [Array.prototype.sort] is the engine's.  For a comparator that
    orders the elements of the array consistently the language fixes the
    result: the array sorted, elements that compare equal in their
    former order.  For any other comparator the order is the engine's
    own.  The embedding is the procedure V8 runs on an array of fewer
    than 64 elements: the initial run is found (a strictly descending one
    is reversed), then every later element is placed into the sorted
    front by binary search.  From 64 elements on V8 sorts runs of the
    array in this way and merges them, which is not embedded: what is
    stated about the order given by a comparator that is not consistent
    is stated for arrays below that length. *)
Section ArraySort.
Context {A : Type} (compare : A -> A -> Z).

(** How far the run that ends in [prev] goes on into [l]. *)
Fixpoint extend_run (descending : bool) (prev : A) (l : list A) : list A * list A :=
  match l with
  | [] => ([], [])
  | current :: l' =>
      let order := compare current prev in
      if (if descending then (0 <=? order)%Z else (order <? 0)%Z)
      then ([], l)
      else let '(run, rest) := extend_run descending current l' in
           (current :: run, rest)
  end.

(** The initial run, put in ascending order, and what follows it. *)
Definition make_run (l : list A) : list A * list A :=
  match l with
  | [] => ([], [])
  | [x] => ([x], [])
  | x :: y :: l' =>
      let descending := (compare y x <? 0)%Z in
      let '(run, rest) := extend_run descending y l' in
      (if descending then reverse (x :: y :: run) else x :: y :: run, rest)
  end.

(** [pivot] placed into [window] by binary search: compared with the
    middle element, it goes into the left half when it orders before
    it and into the right half otherwise. *)
Fixpoint binary_insert (fuel : nat) (pivot : A) (window : list A) : list A :=
  match fuel with
  | O => pivot :: window
  | S fuel' =>
      let mid := (length window / 2)%nat in
      match window !! mid with
      | None => pivot :: window
      | Some m =>
          if (compare pivot m <? 0)%Z
          then binary_insert fuel' pivot (take mid window) ++ drop mid window
          else take (S mid) window ++ binary_insert fuel' pivot (drop (S mid) window)
      end
  end.

Definition insert_sorted (sorted : list A) (pivot : A) : list A :=
  binary_insert (length sorted) pivot sorted.

Definition array_sort (l : list A) : list A :=
  let '(run, rest) := make_run l in
  fold_left insert_sorted rest run.
End ArraySort.

(** The two passes that fill [elements] (scraper.js 269-359): the card
    containers, then the walk below [document.body]. *)
Definition collect (root : Dom.node) : outcome collector :=
  let body := Dom.h_path <$> Dom.document_body root in
  let cardContainers := Dom.querySelectorAll Dom.sel_card root in
  st ← for_each (card_step root body) cardContainers (mkCollector [] ∅);
  match Dom.document_body root with
  | Some b =>
      walk root body (Dom.h_path b)
           (Dom.ElementNode (Dom.h_el b) (Dom.h_kids b)) st
  | None => Throw null_root
  end.

(** The function evaluated in the page (scraper.js 94-372). *)
Definition page_function (root : Dom.node) : outcome (list Cand.t) :=
  st ← collect root;
  Ok (array_sort compare_position (elements st)).

(** ** The grouper (scraper.js 449-505) *)

Module Group.
Record t := mk
  { primaryElement : Cand.t;
    elements : list Cand.t;
    combinedText : string;
    hasButton : bool;
    buttonText : option string }.
End Group.

(** The body of the inner loop once [next] is taken in (scraper.js
    477-487). *)
Definition add_member (group : Group.t) (next : Cand.t) : Group.t :=
  let has := Btn.hasButton (Cand.buttonInfo next) in
  {| Group.primaryElement := Group.primaryElement group;
     Group.elements := Group.elements group ++ [next];
     Group.combinedText :=
       if Js.truthy (Group.combinedText group) && Js.truthy (Cand.text next)
       then Group.combinedText group +:+ " " +:+ Cand.text next
       else Group.combinedText group;
     Group.hasButton := if has then true else Group.hasButton group;
     Group.buttonText :=
       if has then Btn.buttonText (Cand.buttonInfo next)
       else Group.buttonText group |}.

(** The inner loop (scraper.js 468-490): [rest] is [elements] from index
    [j] on and [prev] is [elements[j-1]].  It returns the group and
    [elements] from the final [j] on. *)
Fixpoint absorb (prev : Cand.t) (group : Group.t) (rest : list Cand.t)
    : Group.t * list Cand.t :=
  match rest with
  | [] => (group, [])
  | next :: rest' =>
      if Cand.isHeading next || Cand.isCard next then (group, rest)
      else if (Pos.top (Cand.position next) - Pos.bottom (Cand.position prev) >? 150)%Z
      then (group, rest)
      else absorb next (add_member group next) rest'
  end.

(** [group.combinedText && group.combinedText.trim()] *)
Definition has_content (group : Group.t) : bool :=
  Js.truthy (Group.combinedText group) && Js.truthy (Js.trim (Group.combinedText group)).

Definition open_group (current : Cand.t) : Group.t :=
  {| Group.primaryElement := current;
     Group.elements := [current];
     Group.combinedText := Cand.text current;
     Group.hasButton := Btn.hasButton (Cand.buttonInfo current);
     Group.buttonText := Btn.buttonText (Cand.buttonInfo current) |}.

(** [if (...) groups.push(group)] *)
Definition push_group (group : Group.t) : list Group.t :=
  if has_content group then [group] else [].

(** The outer loop: [elements] is the array from index [i] on.  Every
    iteration moves [i] forward, so one unit of [fuel] per remaining
    element is enough. *)
Fixpoint group_loop (fuel : nat) (elements : list Cand.t) : list Group.t :=
  match fuel with
  | O => []
  | S fuel' =>
      match elements with
      | [] => []
      | current :: rest =>
          let '(group, rest') :=
            if Cand.isHeading current && negb (Cand.isCard current)
            then absorb current (open_group current) rest
            else (open_group current, rest) in
          push_group group ++ group_loop fuel' rest'
      end
  end.

Definition groupRelatedContent (elements : list Cand.t) : list Group.t :=
  group_loop (length elements) elements.

(** ** The classifier (scraper.js 507-605) *)

Inductive SectionType :=
  | Hero | Cta | Service | Testimonial | Faq | Benefit | Process | About
  | Footer | Other.

#[global] Instance SectionType_eq_dec : EqDecision SectionType.
Proof. solve_decision. Defined.

(** The string the source returns for a category. *)
Definition type_name (t : SectionType) : string :=
  match t with
  | Hero => "hero" | Cta => "cta" | Service => "service"
  | Testimonial => "testimonial" | Faq => "faq" | Benefit => "benefit"
  | Process => "process" | About => "about" | Footer => "footer"
  | Other => "other"
  end.

Definition determineSectionType (group : Group.t) : SectionType :=
  let text := Js.toLowerCase (Group.combinedText group) in
  let primaryTag := Cand.tag (Group.primaryElement group) in
  let classList :=
    Js.toLowerCase (Js.join " " (Cand.classList (Group.primaryElement group))) in
  let id := Js.toLowerCase (default "" (Cand.id (Group.primaryElement group))) in
  let top := Pos.top (Cand.position (Group.primaryElement group)) in
  if (String.eqb primaryTag "h1" && (top <? 800)%Z)
     || Js.includes classList "hero"
     || Js.includes id "hero"
  then Hero
  else if Group.hasButton group
          && (Js.includes text "call now"
              || Js.includes text "get quote"
              || Js.includes text "free estimate"
              || Js.includes text "contact"
              || Js.has_phone text)
  then Cta
  else if Js.includes text "service"
          || Js.includes text "residential"
          || Js.includes text "commercial"
          || Js.includes text "construction"
          || Js.includes text "estate"
          || Js.includes text "hoarding"
          || Js.includes text "appliance"
          || Js.includes text "furniture"
          || Js.includes classList "service"
          || Cand.isCard (Group.primaryElement group)
  then Service
  else if Js.includes text "testimonial"
          || Js.includes text "review"
          || Js.includes text "customer"
          || Js.includes text "client"
          || Js.has_quoted_span text
          || Js.includes classList "testimonial"
          || Js.includes classList "review"
  then Testimonial
  else if Js.includes text "faq"
          || Js.includes text "frequently asked"
          || Js.includes text "question"
          || Js.includes text "answer"
          || Js.includes classList "faq"
          || Js.includes classList "accordion"
  then Faq
  else if Js.includes text "why choose"
          || Js.includes text "benefit"
          || Js.includes text "advantage"
          || Js.includes text "licensed"
          || Js.includes text "insured"
          || Js.includes text "eco-friendly"
          || Js.includes classList "benefit"
          || Js.includes classList "feature"
  then Benefit
  else if Js.includes text "how it works"
          || Js.includes text "process"
          || Js.includes text "step"
          || Js.includes text "simple"
          || Js.includes classList "process"
          || Js.includes classList "steps"
  then Process
  else if Js.includes text "about"
          || Js.includes text "our company"
          || Js.includes text "who we are"
          || Js.includes text "our mission"
          || Js.includes classList "about"
  then About
  else if (3000 <? top)%Z
          || Js.includes classList "footer"
          || Js.includes text "copyright"
          || Js.includes text "all rights reserved"
  then Footer
  else Other.

(** [getParentContainer] (scraper.js 607-621) *)
Definition getParentContainer (element : Cand.t) : string :=
  let classList := Cand.classList element in
  let some pat := existsb (fun c => Js.includes c pat) classList in
  if some "header" then "header"
  else if some "hero" then "hero-section"
  else if some "service" then "services-section"
  else if some "testimonial" then "testimonials-section"
  else if some "footer" then "footer"
  else if some "main" then "main"
  else if some "content" then "content"
  else if some "container" then "container"
  else "section".

(** ** Section assembly and the entry point (scraper.js 8-24, 49-64, 381-417) *)

(** [this.sectionCounter] *)
Record Counter := mkCounter
  { c_hero : nat; c_about : nat; c_service : nat; c_cta : nat;
    c_testimonial : nat; c_faq : nat; c_benefit : nat; c_process : nat;
    c_footer : nat; c_other : nat }.

(** [this.sectionCounter[sectionType]] *)
Definition counter_get (c : Counter) (t : SectionType) : nat :=
  match t with
  | Hero => c_hero c | Cta => c_cta c | Service => c_service c
  | Testimonial => c_testimonial c | Faq => c_faq c | Benefit => c_benefit c
  | Process => c_process c | About => c_about c | Footer => c_footer c
  | Other => c_other c
  end.

(** [this.sectionCounter[sectionType]++] *)
Definition counter_incr (c : Counter) (t : SectionType) : Counter :=
  let '(mkCounter h a s ct te fq be pr fo ot) := c in
  match t with
  | Hero => mkCounter (S h) a s ct te fq be pr fo ot
  | About => mkCounter h (S a) s ct te fq be pr fo ot
  | Service => mkCounter h a (S s) ct te fq be pr fo ot
  | Cta => mkCounter h a s (S ct) te fq be pr fo ot
  | Testimonial => mkCounter h a s ct (S te) fq be pr fo ot
  | Faq => mkCounter h a s ct te (S fq) be pr fo ot
  | Benefit => mkCounter h a s ct te fq (S be) pr fo ot
  | Process => mkCounter h a s ct te fq be (S pr) fo ot
  | Footer => mkCounter h a s ct te fq be pr (S fo) ot
  | Other => mkCounter h a s ct te fq be pr fo (S ot)
  end.

(** [resetCounters] (scraper.js 49-53) *)
Definition resetCounters (c : Counter) : Counter :=
  mkCounter 0 0 0 0 0 0 0 0 0 0.

Module Sec.
(** A section of the output. *)
Record t := mk
  { sectionId : string;
    sectionType : SectionType;
    element : string;
    text : string;
    charCount : nat;
    parentContainer : string;
    xpath : string;
    order : nat;
    keywords : list string;
    hasButton : bool;
    buttonText : option string }.
End Sec.

(** The callback of [groupedSections.map] (scraper.js 381-402). *)
Definition make_section (group : Group.t) (index : nat) (counter : Counter)
    : Sec.t * Counter :=
  let sectionType := determineSectionType group in
  let counter := counter_incr counter sectionType in
  ({| Sec.sectionId :=
        type_name sectionType +:+ "-" +:+ Js.decimal (counter_get counter sectionType);
      Sec.sectionType := sectionType;
      Sec.element := Cand.tag (Group.primaryElement group);
      Sec.text := Group.combinedText group;
      Sec.charCount := String.length (Group.combinedText group);
      Sec.parentContainer := getParentContainer (Group.primaryElement group);
      Sec.xpath := Cand.xpath (Group.primaryElement group);
      Sec.order := index + 1;
      Sec.keywords := [];
      Sec.hasButton := Group.hasButton group;
      Sec.buttonText := Group.buttonText group |},
   counter).

(** [groupedSections.map(...)], from index [index] on. *)
Fixpoint assemble (groups : list Group.t) (index : nat) (counter : Counter)
    : list Sec.t * Counter :=
  match groups with
  | [] => ([], counter)
  | group :: groups' =>
      let '(section, counter) := make_section group index counter in
      let '(sections, counter) := assemble groups' (S index) counter in
      (section :: sections, counter)
  end.

Record ErrorRecord := mkError { message : string; stack : string }.

(** The object pushed onto [results.errors] (scraper.js 408-411): the
    message and the stack of the error caught.  Of the stack of a
    [TypeError] the first line is given; the lines below it name frames
    and files of the installation. *)
Definition error_record (e : exn) : ErrorRecord :=
  match e with
  | TypeError m => mkError m ("TypeError: " +:+ m)
  | External m st => mkError m st
  end.

Module Res.
(** The object [results] returned by [scrapeWebsite]. *)
Record t := mk
  { url : string;
    title : string;
    scrapedAt : string;
    sections : list Sec.t;
    errors : list ErrorRecord }.
End Res.

(** What the browser does for one call of [scrapeWebsite]: the outcome of
    each awaited call, the rendered document the in-page function runs
    on, and the clock.  [page.evaluate] (scraper.js 94-372) runs the
    function in the page and hands its outcome over to the caller:
    - an exception raised in the page is reported by an error that
      Puppeteer builds from the engine's description of the exception
      ([evaluation_error]), whose message can carry lines of the
      page-side stack;
    - the array is returned by value, and [returnable] says of the
      element at a path whether a reference to it can be copied: it
      cannot when the node carries properties of its own that do not
      serialize, as the nodes that a rendering framework manages do. *)
Record Browser := mkBrowser
  { newPage : outcome unit;
    navigate : outcome unit;
    pageTitle : outcome string;
    autoScroll : outcome unit;
    document : outcome Dom.node;
    evaluation_error : exn -> exn;
    returnable : path -> bool;
    closePage : outcome unit;
    now : string }.

(** The value of [await page.evaluate(...)] when the in-page function
    returned [elements] (scraper.js 94, 372).  Every candidate holds a
    reference to its element ([element], 285 and 342) and to its button
    ([buttonInfo.buttonElement], 258).  When all of them can be copied,
    the caller gets a copy of the array in which an object without
    fields stands for each reference; nothing outside the page reads
    those fields, and the candidates stand for their copies.  Otherwise
    the call resolves to [undefined]: [None]. *)
Definition by_value (returnable : path -> bool) (elements : list Cand.t)
    : option (list Cand.t) :=
  if forallb (fun c =>
                returnable (Dom.h_path (Cand.element c))
                && from_option returnable true
                     (Btn.buttonElement (Cand.buttonInfo c)))
             elements
  then Some elements
  else None.

(** [rawElements.length] (scraper.js 374) when [rawElements] is
    [undefined]. *)
Definition undefined_length : exn :=
  TypeError "Cannot read properties of undefined (reading 'length')".

(** The [try] block (scraper.js 66-404) on [results] and
    [this.sectionCounter]: what it leaves in both, and whether it
    completed. *)
Definition try_block (browser : Browser) (results : Res.t) (counter : Counter)
    : outcome unit * Res.t * Counter :=
  match navigate browser with
  | Throw e => (Throw e, results, counter)
  | Ok _ =>
  match pageTitle browser with
  | Throw e => (Throw e, results, counter)
  | Ok t =>
  let results := Res.mk (Res.url results) t (Res.scrapedAt results)
                        (Res.sections results) (Res.errors results) in
  match autoScroll browser with
  | Throw e => (Throw e, results, counter)
  | Ok _ =>
  match document browser with
  | Throw e => (Throw e, results, counter)
  | Ok root =>
  match page_function root with
  | Throw e => (Throw (evaluation_error browser e), results, counter)
  | Ok elements =>
  match by_value (returnable browser) elements with
  | None => (Throw undefined_length, results, counter)
  | Some rawElements =>
      let groupedSections := groupRelatedContent rawElements in
      let '(sections, counter) := assemble groupedSections 0 counter in
      (Ok tt,
       Res.mk (Res.url results) (Res.title results) (Res.scrapedAt results)
              sections (Res.errors results),
       counter)
  end end end end end end.

(** [scrapeWebsite] (scraper.js 55-417): the value returned or the
    exception that leaves the method, and [this.sectionCounter]
    afterwards, for a call during which no other call on the same
    instance runs.  The method is async: the calls that overlap on one
    instance are [overlapping_calls] below. *)
Definition scrapeWebsite (browser : Browser) (url : string) (counter : Counter)
    : outcome Res.t * Counter :=
  match newPage browser with
  | Throw e => (Throw e, counter)
  | Ok _ =>
      let counter := resetCounters counter in
      let results := Res.mk url "" (now browser) [] [] in
      let '(completed, results, counter) := try_block browser results counter in
      let results :=
        match completed with
        | Ok _ => results
        | Throw error =>
            Res.mk (Res.url results) (Res.title results) (Res.scrapedAt results)
                   (Res.sections results)
                   (Res.errors results ++ [error_record error])
        end in
      match closePage browser with
      | Throw e => (Throw e, counter)
      | Ok _ => (Ok results, counter)
      end
  end.

(** *** Calls that overlap on one instance

    An async method runs until it awaits and goes on when the awaited
    call has settled; while it waits, other calls run.  [scrapeWebsite]
    touches [this.sectionCounter] in two stretches without an await:
    [resetCounters] once [newPage] has resolved (scraper.js 56-57), and
    the section map once [page.evaluate] has resolved (374-404).  The
    awaits of the [try] block lie between the two (67-94). *)

(** The call up to the first await of the [try] block (scraper.js
    56-68): the result object it has made, and the counters reset. *)
Definition scrape_begin (browser : Browser) (url : string) (counter : Counter)
    : outcome Res.t * Counter :=
  match newPage browser with
  | Throw e => (Throw e, counter)
  | Ok _ => (Ok (Res.mk url "" (now browser) [] []), resetCounters counter)
  end.

(** The rest of the call (scraper.js 68-416) on the counters as they are
    when [page.evaluate] has resolved: the awaits of the [try] block do
    not touch them. *)
Definition scrape_finish (browser : Browser) (results : Res.t) (counter : Counter)
    : outcome Res.t * Counter :=
  let '(completed, results, counter) := try_block browser results counter in
  let results :=
    match completed with
    | Ok _ => results
    | Throw error =>
        Res.mk (Res.url results) (Res.title results) (Res.scrapedAt results)
               (Res.sections results)
               (Res.errors results ++ [error_record error])
    end in
  match closePage browser with
  | Throw e => (Throw e, counter)
  | Ok _ => (Ok results, counter)
  end.

(** Two calls on one instance, the second made while the first awaits
    its page, and whose page takes longer: the first call begins, the
    second begins, the first goes on to its end, then the second.  The
    outcomes of both calls and the counters afterwards. *)
Definition overlapping_calls (first second : Browser) (url1 url2 : string)
    (counter : Counter) : (outcome Res.t * outcome Res.t) * Counter :=
  let '(begun1, counter) := scrape_begin first url1 counter in
  let '(begun2, counter) := scrape_begin second url2 counter in
  let '(outcome1, counter) :=
    match begun1 with
    | Ok results => scrape_finish first results counter
    | Throw e => (Throw e, counter)
    end in
  let '(outcome2, counter) :=
    match begun2 with
    | Ok results => scrape_finish second results counter
    | Throw e => (Throw e, counter)
    end in
  ((outcome1, outcome2), counter).

(** ** Documents used in the examples *)

(** A visible element: displayed, 100 by 20 pixels at [(left, top)]. *)
Definition shown (tag id : string) (classes : list string) (top left : Z)
    (innerText : string) : Dom.element :=
  {| Dom.tagName := tag; Dom.id := id; Dom.classList := classes;
     Dom.role := None; Dom.ariaHidden := None;
     Dom.display := "block"; Dom.visibility := "visible"; Dom.opacity := "1";
     Dom.offsetWidth := 100; Dom.offsetHeight := 20;
     Dom.position := Pos.mk top left (top + 20) (left + 100) 100 20;
     Dom.innerText := innerText |}.

(** The [head] element: not rendered. *)
Definition head_element : Dom.node :=
  Dom.ElementNode
    {| Dom.tagName := "HEAD"; Dom.id := ""; Dom.classList := [];
       Dom.role := None; Dom.ariaHidden := None;
       Dom.display := "none"; Dom.visibility := "visible"; Dom.opacity := "1";
       Dom.offsetWidth := 0; Dom.offsetHeight := 0;
       Dom.position := Pos.mk 0 0 0 0 0 0;
       Dom.innerText := "" |} [].

(** [<html><head></head><body>kids</body></html>] *)
Definition page (body_text : string) (kids : list Dom.node) : Dom.node :=
  Dom.ElementNode (shown "HTML" "" [] 0 0 body_text)
    [ head_element; Dom.ElementNode (shown "BODY" "" [] 0 0 body_text) kids ].

(** [<tag>text</tag>] *)
Definition leaf (tag : string) (classes : list string) (top left : Z)
    (text : string) : Dom.node :=
  Dom.ElementNode (shown tag "" classes top left text) [Dom.TextNode text].

(** A browser in which every call succeeds, showing [root]. *)
Definition showing (root : Dom.node) : Browser :=
  {| newPage := Ok tt; navigate := Ok tt; pageTitle := Ok "Junk Removal";
     autoScroll := Ok tt; document := Ok root;
     evaluation_error := fun e => e; returnable := fun _ => true;
     closePage := Ok tt;
     now := "2025-01-01T00:00:00.000Z" |}.

Definition fresh_counter : Counter := mkCounter 0 0 0 0 0 0 0 0 0 0.

(** Two paragraphs with the same words. *)
Definition page_twice : Dom.node :=
  page "We haul your junk away We haul your junk away"
    [ leaf "P" [] 100 0 "We haul your junk away";
      leaf "P" [] 400 0 "We haul your junk away" ].

(** One link with a [span] inside: the text is rendered once. *)
Definition page_link : Dom.node :=
  page "Get your free quote today"
    [ Dom.ElementNode (shown "A" "" [] 100 0 "Get your free quote today")
        [ leaf "SPAN" [] 100 0 "Get your free quote today" ] ].

(** The root element carries a card class and no [id]. *)
Definition page_root_card : Dom.node :=
  Dom.ElementNode
    (shown "HTML" "" ["card-layout"] 0 0 "Our Work We haul your junk away")
    [ head_element;
      Dom.ElementNode (shown "BODY" "" [] 0 0 "Our Work We haul your junk away")
        [ leaf "H2" [] 100 0 "Our Work";
          leaf "P" [] 140 0 "We haul your junk away" ] ].

(** A browser that shows [root] and then fails to close the page. *)
Definition failing_to_close (root : Dom.node) : Browser :=
  {| newPage := Ok tt; navigate := Ok tt; pageTitle := Ok "Junk Removal";
     autoScroll := Ok tt; document := Ok root;
     evaluation_error := fun e => e; returnable := fun _ => true;
     closePage := Throw (External "Protocol error: Target closed" "");
     now := "2025-01-01T00:00:00.000Z" |}.

(** A browser that shows [root] as a framework renders it: no reference
    to a node can be returned by value. *)
Definition rendering (root : Dom.node) : Browser :=
  {| newPage := Ok tt; navigate := Ok tt; pageTitle := Ok "Junk Removal";
     autoScroll := Ok tt; document := Ok root;
     evaluation_error := fun e => e; returnable := fun _ => false;
     closePage := Ok tt;
     now := "2025-01-01T00:00:00.000Z" |}.

(** The value a call returned; an empty result when it threw. *)
Definition returned (r : outcome Res.t * Counter) : Res.t :=
  match r.1 with
  | Ok results => results
  | Throw _ => Res.mk "" "" "" [] []
  end.

(** Two requests for a page with two paragraphs, served by one instance;
    the second arrives while the first awaits its page. *)
Definition two_requests : (outcome Res.t * outcome Res.t) * Counter :=
  overlapping_calls (showing page_twice) (showing page_twice)
    "https://example.org/a" "https://example.org/b" fresh_counter.

(** Three service paragraphs between two others. *)
Definition page_services : Dom.node :=
  page "..."
    [ leaf "P" [] 100 0 "We are open every day";
      leaf "P" [] 300 0 "Residential junk removal for homes";
      leaf "P" [] 500 0 "Commercial junk removal for offices";
      leaf "P" [] 700 0 "Same day pickup all week";
      leaf "P" [] 900 0 "Estate cleanouts done with care" ].

(** A top heading with a phone number and a button after it. *)
Definition page_h1_phone : Dom.node :=
  page "Call 612-555-0100 Today Call"
    [ leaf "H1" [] 100 0 "Call 612-555-0100 Today";
      leaf "BUTTON" [] 140 0 "Call" ].

(** A paragraph with a phone number and a button after it. *)
Definition page_p_phone : Dom.node :=
  page "Call 612-555-0100 Today for service Call"
    [ leaf "P" [] 1000 0 "Call 612-555-0100 Today for service";
      leaf "BUTTON" [] 1040 0 "Call" ].

(** A heading, a paragraph close below it and a paragraph far below. *)
Definition page_gap : Dom.node :=
  page "..."
    [ leaf "H2" [] 0 0 "Why choose us";
      leaf "P" [] 100 0 "Licensed and insured crews";
      leaf "P" [] 640 0 "Call us any time today" ].



(** A card with a card inside. *)
Definition page_nested : Dom.node :=
  page "Residential Details We haul your junk away"
    [ Dom.ElementNode
        (shown "DIV" "" ["card"] 100 0 "Residential Details We haul your junk away")
        [ leaf "H3" [] 100 0 "Residential";
          Dom.ElementNode
            (shown "DIV" "" ["card-body"] 140 0 "Details We haul your junk away")
            [ leaf "H4" [] 140 0 "Details";
              leaf "P" [] 180 0 "We haul your junk away" ] ] ].

(** A paragraph and a button without a label. *)
Definition page_empty_button : Dom.node :=
  page "We haul your junk away"
    [ leaf "P" [] 100 0 "We haul your junk away";
      Dom.ElementNode (shown "BUTTON" "" ["icon"] 140 0 "") [] ].

(** The candidates the in-page function returns; none when it throws. *)
Definition elements_of (root : Dom.node) : list Cand.t :=
  match page_function root with
  | Ok rawElements => rawElements
  | Throw _ => []
  end.


(** A candidate at [(left, top)]; the other fields do not matter to the
    comparator. *)
Definition placed (top left : Z) : Cand.t :=
  {| Cand.element := Dom.at_ [] (shown "P" "" [] top left "") [];
     Cand.tag := "p"; Cand.text := ""; Cand.wordCount := 0;
     Cand.isHeading := false;
     Cand.position := Pos.mk top left (top + 20) (left + 100) 100 20;
     Cand.xpath := ""; Cand.buttonInfo := Btn.mk false None None;
     Cand.classList := []; Cand.id := None; Cand.isCard := false |}.

(** ** Notions used to state the properties *)

(** The first exception raised inside the [try] block, if any. *)
Definition first_fault (browser : Browser) : option exn :=
  match navigate browser with
  | Throw e => Some e
  | Ok _ =>
  match pageTitle browser with
  | Throw e => Some e
  | Ok _ =>
  match autoScroll browser with
  | Throw e => Some e
  | Ok _ =>
  match document browser with
  | Throw e => Some e
  | Ok root =>
  match page_function root with
  | Throw e => Some (evaluation_error browser e)
  | Ok elements =>
  match by_value (returnable browser) elements with
  | None => Some undefined_length
  | Some _ => None
  end end end end end end.

(** The sections a run assembles from the candidates [rawElements]. *)
Definition sections_of (rawElements : list Cand.t) : list Sec.t :=
  (assemble (groupRelatedContent rawElements) 0 fresh_counter).1.

(** The identifier [category-k]. *)
Definition section_id (t : SectionType) (k : nat) : string :=
  type_name t +:+ "-" +:+ Js.decimal k.

(** The sections of category [t], in output order. *)
Definition of_type (t : SectionType) (l : list Sec.t) : list Sec.t :=
  filter (fun s => Sec.sectionType s = t) l.

(** The rule set of the classifier as the specification lists it: each
    category with its cue, in priority order. *)
Module Rules.

Definition text (g : Group.t) : string := Js.toLowerCase (Group.combinedText g).
Definition class (g : Group.t) : string :=
  Js.toLowerCase (Js.join " " (Cand.classList (Group.primaryElement g))).
Definition ident (g : Group.t) : string :=
  Js.toLowerCase (default "" (Cand.id (Group.primaryElement g))).
Definition top (g : Group.t) : Z := Pos.top (Cand.position (Group.primaryElement g)).

Definition mentions (s : string) (terms : list string) : bool :=
  existsb (Js.includes s) terms.

Definition hero g :=
  (String.eqb (Cand.tag (Group.primaryElement g)) "h1" && (top g <? 800)%Z)
  || mentions (class g) ["hero"] || mentions (ident g) ["hero"].

Definition cta g :=
  Group.hasButton g
  && (mentions (text g) ["call now"; "get quote"; "free estimate"; "contact"]
      || Js.has_phone (text g)).

Definition service g :=
  mentions (text g)
    ["service"; "residential"; "commercial"; "construction"; "estate";
     "hoarding"; "appliance"; "furniture"]
  || mentions (class g) ["service"]
  || Cand.isCard (Group.primaryElement g).

Definition testimonial g :=
  mentions (text g) ["testimonial"; "review"; "customer"; "client"]
  || Js.has_quoted_span (text g)
  || mentions (class g) ["testimonial"; "review"].

Definition faq g :=
  mentions (text g) ["faq"; "frequently asked"; "question"; "answer"]
  || mentions (class g) ["faq"; "accordion"].

Definition benefit g :=
  mentions (text g)
    ["why choose"; "benefit"; "advantage"; "licensed"; "insured"; "eco-friendly"]
  || mentions (class g) ["benefit"; "feature"].

Definition process g :=
  mentions (text g) ["how it works"; "process"; "step"; "simple"]
  || mentions (class g) ["process"; "steps"].

Definition about g :=
  mentions (text g) ["about"; "our company"; "who we are"; "our mission"]
  || mentions (class g) ["about"].

Definition footer g :=
  (3000 <? top g)%Z || mentions (class g) ["footer"]
  || mentions (text g) ["copyright"; "all rights reserved"].

Definition ordered : list (SectionType * (Group.t -> bool)) :=
  [ (Hero, hero); (Cta, cta); (Service, service); (Testimonial, testimonial);
    (Faq, faq); (Benefit, benefit); (Process, process); (About, about);
    (Footer, footer) ].

(** The category of the first rule that matches, [Other] when none does. *)
Fixpoint first_match (rules : list (SectionType * (Group.t -> bool))) (g : Group.t)
    : SectionType :=
  match rules with
  | [] => Other
  | (t, rule) :: rules' => if rule g then t else first_match rules' g
  end.

End Rules.

(** What the specification says a heading takes in: the candidates
    after [prev], up to the first one that is a heading or a card or that
    starts more than 150 pixels below the bottom of the one before it. *)
Fixpoint absorbed (prev : Cand.t) (rest : list Cand.t) : list Cand.t :=
  match rest with
  | [] => []
  | next :: rest' =>
      if Cand.isHeading next || Cand.isCard next
         || (150 <? Pos.top (Cand.position next) - Pos.bottom (Cand.position prev))%Z
      then []
      else next :: absorbed next rest'
  end.

(** The group of a heading and the members it took in. *)
Definition heading_group (heading : Cand.t) (members : list Cand.t) : Group.t :=
  fold_left add_member members (open_group heading).

(** [a] occurs before [b] in [l]. *)
Definition before {A} (l : list A) (a b : A) : Prop :=
  exists l1 l2 l3, l = (l1 ++ a :: l2 ++ b :: l3)%list.

(** Two neighbours of the output of a sort, with respect to the array
    [input] that was sorted: the comparator does not put the second
    before the first, and when it cannot tell them apart they are in
    input order. *)
Definition settled {A} (compare : A -> A -> Z) (input : list A) (a b : A) : Prop :=
  (compare a b <= 0)%Z ∧ ((compare a b = 0)%Z -> before input a b).





(** The element the candidate [c] was taken from, as a path. *)
Definition node_of (c : Cand.t) : path := Dom.h_path (Cand.element c).

(** What the acceptance of [c] marked consumed: its element, the whole
    subtree when it is a card, and the associated button. *)
Definition claimed (c : Cand.t) : gset path :=
  {[ node_of c ]}
  ∪ (if Cand.isCard c then subtree_paths (Cand.element c) else ∅)
  ∪ button_node (Cand.buttonInfo c).

(** The text [card_step] counts the words of. *)
Definition card_text (card : Dom.handle) : string :=
  normalizeSpaces (Js.or_else (Dom.innerText (Dom.h_el card)) "").

(** The conditions the specification puts on a card container. *)
Definition card_conditions (card : Dom.handle) : bool :=
  Dom.sel_card (Dom.h_el card)
  && negb (shouldSkipElement (Dom.h_el card))
  && bool_decide (is_Some (Dom.querySelector Dom.sel_heading card))
  && bool_decide (is_Some (Dom.querySelector Dom.sel_text card))
  && (2 <=? length (Dom.children card))%nat
  && (4 <=? countWords (card_text card))%nat.

(** [c] is the candidate of the promoted card [card]. *)
Definition promotes (c : Cand.t) (card : Dom.handle) : Prop :=
  Cand.isCard c = true ∧ Cand.element c = card.

(** The later element [h2] is neither [h1] nor an ancestor of it. *)
Definition not_above (h1 h2 : Dom.handle) : Prop :=
  ¬ Dom.h_path h2 `suffix_of` Dom.h_path h1.

(** The bookkeeping of the two passes agrees with the candidates:
    [processedNodes] holds exactly what the candidates claimed, no node
    gave two candidates, no candidate lies inside a promoted card, the
    button of a candidate is no other candidate, and the promoted cards
    are as the specification describes them. *)
Record consistent (st : collector) : Prop := mkConsistent
  { cover : forall p,
      p ∈ processedNodes st <-> exists c, c ∈ elements st ∧ p ∈ claimed c;
    distinct : NoDup (node_of <$> elements st);
    atomic : forall c c',
      c ∈ elements st -> c' ∈ elements st -> Cand.isCard c = true ->
      node_of c' ∉ subtree_paths (Cand.element c);
    own_button : forall c c' q,
      c ∈ elements st -> c' ∈ elements st ->
      Btn.buttonElement (Cand.buttonInfo c) = Some q ->
      node_of c' = q -> c' = c;
    card_shape : forall c,
      c ∈ elements st -> Cand.isCard c = true ->
      Cand.tag c = "card" ∧ card_conditions (Cand.element c) = true }.

(** The class test of [isCardContainer]. *)
Definition hasCardClass (e : Dom.element) : bool :=
  let classList := Js.toLowerCase (Js.join " " (Dom.classList e)) in
  Js.includes classList "card" || Js.includes classList "service"
  || Js.includes classList "feature" || Js.includes classList "item"
  || Js.includes classList "box".

(** One child of the walk: the function [walk] hands to [each_child]. *)
Definition walk_child (root : Dom.node) (body : option path) (p : path)
    (i : nat) (c : Dom.node) (st : collector) : outcome collector :=
  match c with
  | Dom.ElementNode e k =>
      let node := Dom.at_ (i :: p) e k in
      if acceptNode st node
      then st' ← visit root body st node; walk root body (i :: p) c st'
      else Ok st
  | _ => Ok st
  end.

(** The later state has the candidates of the earlier one, and only
    candidates that are not cards besides. *)
Definition extends (st st' : collector) : Prop :=
  (forall c, c ∈ elements st -> c ∈ elements st')
  ∧ (forall c, c ∈ elements st' -> c ∈ elements st ∨ Cand.isCard c = false).

(** [card] was promoted: one of the candidates is its card candidate. *)
Definition promoted (l : list Cand.t) (card : Dom.handle) : Prop :=
  exists c, c ∈ l ∧ promotes c card.

(** [card] was consumed by the promotion of another card: it lies in that
    card's subtree or is its associated button. *)
Definition consumed_by_another (l : list Cand.t) (card : Dom.handle) : Prop :=
  exists c, c ∈ l ∧ Cand.isCard c = true
            ∧ node_of c ≠ Dom.h_path card ∧ Dom.h_path card ∈ claimed c.

(** The element at [p] is at the edge of the document: neither it nor
    any element above it has an [id] or is the body, so that the parent
    chain runs into the document node. *)
Fixpoint root_edge (root : Dom.node) (body : option path) (p : path) : bool :=
  match Dom.handle_at root p with
  | Some element =>
      Js.is_empty (Dom.id (Dom.h_el element))
      && negb (bool_decide (body = Some p))
      && match p with
         | [] => true
         | _ :: parent => root_edge root body parent
         end
  | None => false
  end.

(** ** Notions for the further properties *)

(** [s] has a character that is not white space. *)
Fixpoint has_nonws (s : string) : bool :=
  match s with
  | EmptyString => false
  | String c s' => negb (Js.is_ws c) || has_nonws s'
  end.

(** [s] has no tab and no space or tab right after a space or tab;
    [after_blank] tells whether the character before [s] is one. *)
Fixpoint tidy (after_blank : bool) (s : string) : bool :=
  match s with
  | EmptyString => true
  | String c s' =>
      if Js.is_blank c
      then negb after_blank && Ascii.eqb c " "%char && tidy true s'
      else tidy false s'
  end.

(** The number of places in [s] where a word starts: a character that is
    not white space, at the start or after white space. *)
Fixpoint word_starts (after_ws : bool) (s : string) : nat :=
  match s with
  | EmptyString => 0
  | String c s' =>
      if Js.is_ws c then word_starts true s'
      else ((if after_ws then 1 else 0) + word_starts false s')%nat
  end.

(** The characters of [s] that are not white space, in order. *)
Fixpoint non_ws (s : string) : string :=
  match s with
  | EmptyString => EmptyString
  | String c s' => if Js.is_ws c then non_ws s' else String c (non_ws s')
  end.

(** The test of scraper.js 475 along a run of candidates: none starts
    more than 150 pixels below the bottom of the one before it. *)
Fixpoint within_gap (prev : Cand.t) (members : list Cand.t) : bool :=
  match members with
  | [] => true
  | next :: members' =>
      negb (Pos.top (Cand.position next) - Pos.bottom (Cand.position prev) >? 150)%Z
      && within_gap next members'
  end.

(** [c.buttonInfo.hasButton] *)
Definition with_button (c : Cand.t) : bool := Btn.hasButton (Cand.buttonInfo c).

(** [c.buttonInfo.element], as a path. *)
Definition button_of (c : Cand.t) : option path :=
  Btn.buttonElement (Cand.buttonInfo c).

(** The walker gets to the element at [p]: it is the body, at [b], or it
    is an element the filter does not skip whose parent the walker gets
    to. *)
Fixpoint walkable (root : Dom.node) (b : path) (p : path) : bool :=
  bool_decide (p = b)
  || match p with
     | [] => false
     | _ :: parent =>
         match Dom.handle_at root p with
         | Some h => negb (shouldSkipElement (Dom.h_el h)) && walkable root b parent
         | None => false
         end
     end.

(** What a candidate says about the element it was taken from, in the
    document [root] whose body is at [b]. *)
Record described (root : Dom.node) (b : path) (c : Cand.t) : Prop := mkDescribed
  { d_document : Dom.handle_at root (node_of c) = Some (Cand.element c);
    d_filter : shouldSkipElement (Dom.h_el (Cand.element c)) = false;
    d_count : Cand.wordCount c = countWords (Cand.text c);
    d_xpath : getXPath root (Some b) (node_of c) = Ok (Cand.xpath c);
    d_position : Cand.position c = getElementPosition (Cand.element c);
    d_button : exists processedNodes,
      Cand.buttonInfo c = findAssociatedButton root processedNodes (Cand.element c);
    d_card : Cand.isCard c = true ->
      Cand.tag c = "card" ∧ Cand.isHeading c = false
      ∧ Cand.text c = card_text (Cand.element c)
      ∧ 4 <= Cand.wordCount c;
    d_walked : Cand.isCard c = false ->
      Cand.tag c = Js.toLowerCase (Dom.tagName (Dom.h_el (Cand.element c)))
      ∧ Cand.isHeading c = Js.is_heading_tag (Cand.tag c)
      ∧ Cand.text c = getExactVisibleText (Cand.element c)
      ∧ (Cand.isHeading c && Js.truthy (Cand.text c)
         || (4 <=? Cand.wordCount c)%nat) = true
      ∧ walkable root b (node_of c) = true }.

(** The collector's state is sound: every candidate is described, every
    button a candidate took is marked processed, and no button was taken
    twice. *)
Record sound (root : Dom.node) (b : path) (st : collector) : Prop := mkSound
  { s_described : Forall (described root b) (elements st);
    s_marked : forall c q,
      c ∈ elements st -> button_of c = Some q -> q ∈ processedNodes st;
    s_once : NoDup (omap button_of (elements st)) }.

(** A locator that starts at the body or at an element with an [id]. *)
Definition anchored (xpath : string) : bool :=
  Js.starts_with "/html/body" xpath || Js.starts_with "//*[@id=" xpath.

(** ** The command line and the HTTP handlers
    (scraper.js 9-40, 625-784; server.js 39-47, 91-160) *)

(** [counts[key] = (counts[key] || 0) + 1] on an object.  [Object.entries]
    lists the keys in the order in which they were first set. *)
Fixpoint tally_incr (key : string) (counts : list (string * nat))
    : list (string * nat) :=
  match counts with
  | [] => [(key, 1)]
  | (k, n) :: counts' =>
      if String.eqb k key then (k, n + 1) :: counts'
      else (k, n) :: tally_incr key counts'
  end.

(** The tally of [runCLI] (scraper.js 676-680); cli.js and the example
    script hold the same loop. *)
Definition sectionCounts (sections : list Sec.t) : list (string * nat) :=
  fold_left (fun counts section =>
               tally_incr (type_name (Sec.sectionType section)) counts)
            sections [].

(** [set.add(x)] on a [Set], which iterates in insertion order. *)
Definition set_add (x : string) (set : list string) : list string :=
  if in_list x set then set else set ++ [x].

(** [[...new Set(result.sections.map(s => s.sectionType))]] (server.js 135) *)
Definition sectionTypes (sections : list Sec.t) : list string :=
  fold_left (fun set x => set_add x set)
            (map (fun s => type_name (Sec.sectionType s)) sections) [].

(** An instance of [JunkRemovalScraper]: whether [initialize] has set
    [this.browser], and [this.sectionCounter]. *)
Record Scraper := mkScraper { launched : bool; sectionCounter : Counter }.

(** [new JunkRemovalScraper(...)] (scraper.js 9-24) *)
Definition new_scraper : Scraper := mkScraper false (mkCounter 0 0 0 0 0 0 0 0 0 0).

(** [initialize] (scraper.js 33-40); [launch] is the outcome of
    [puppeteer.launch]. *)
Definition initialize (launch : outcome unit) (s : Scraper) : outcome unit * Scraper :=
  match launch with
  | Ok _ => (Ok tt, mkScraper true (sectionCounter s))
  | Throw e => (Throw e, s)
  end.

Definition null_newPage : exn :=
  TypeError "Cannot read properties of null (reading 'newPage')".

Definition null_scrapeWebsite : exn :=
  TypeError "Cannot read properties of null (reading 'scrapeWebsite')".

(** [scraper.scrapeWebsite(url)] on an instance.  While [this.browser] is
    [null], [this.browser.newPage()] reads a property of [null]. *)
Definition scrape (browser : Browser) (url : string) (s : Scraper)
    : outcome Res.t * Scraper :=
  if launched s
  then let '(r, counter) := scrapeWebsite browser url (sectionCounter s) in
       (r, mkScraper true counter)
  else (Throw null_newPage, s).

(** [initScraper] (server.js 39-47) on the module variable [scraper]:
    the variable is assigned before [initialize] is awaited. *)
Definition initScraper (launch : outcome unit) (scraper : option Scraper)
    : outcome unit * option Scraper :=
  match scraper with
  | Some _ => (Ok tt, scraper)
  | None => let '(r, s) := initialize launch new_scraper in (r, Some s)
  end.

Module Reply.
(** [metadata] of server.js 132-137.  [scrapingDuration] and [timestamp]
    are readings of the clock and are not part of the embedding. *)
Record metadata := mkMeta { sectionsFound : nat; sectionTypes : list string }.

(** What a handler sends: a 400 reply, the result with status 200, or
    the reply of the [catch] block. *)
Inductive t :=
  | Bad (error message : string)
  | Scraped (result : Res.t) (meta : option metadata)
  | Failed (statusCode : nat) (error message url : string).

Definition status (r : t) : nat :=
  match r with
  | Bad _ _ => 400
  | Scraped _ _ => 200
  | Failed statusCode _ _ _ => statusCode
  end.
End Reply.

(** [error.message] *)
Definition message_of (e : exn) : string := message (error_record e).

(** The status code of the [catch] block of server.js (146-151). *)
Definition failure_status (msg : string) : nat :=
  if Js.includes msg "timeout" then 504
  else if Js.includes msg "navigation" then 502
  else 500.

(** The handler of [POST /api/scrape] (server.js 91-160).  [url] is
    [req.body.url], the empty string when it is missing; [valid_url]
    says whether [new URL(url)] succeeds with the protocol [http:] or
    [https:]; the second component is the module variable [scraper]
    afterwards. *)
Definition post_api_scrape (valid_url : string -> bool) (launch : outcome unit)
    (browser : Browser) (url : string) (scraper : option Scraper)
    : Reply.t * option Scraper :=
  if negb (Js.truthy url)
  then (Reply.Bad "Bad Request" "URL is required in request body", scraper)
  else if negb (valid_url url)
  then (Reply.Bad "Invalid URL" "Please provide a valid HTTP or HTTPS URL", scraper)
  else
    let '(ready, scraper) := initScraper launch scraper in
    let '(scraped, scraper) :=
      match ready with
      | Throw e => (Throw e, scraper)
      | Ok _ =>
          match scraper with
          | Some s => let '(r, s') := scrape browser url s in (r, Some s')
          | None => (Throw null_scrapeWebsite, None)
          end
      end in
    match scraped with
    | Ok result =>
        (Reply.Scraped result
           (Some {| Reply.sectionsFound := length (Res.sections result);
                    Reply.sectionTypes := sectionTypes (Res.sections result) |}),
         scraper)
    | Throw error =>
        (Reply.Failed (failure_status (message_of error)) "Scraping Failed"
           (message_of error) url,
         scraper)
    end.

(** The handler of [POST /scrape] of [createAPIServer] (scraper.js
    728-766) on its instance [s]; [parses_url] says whether [new URL(url)]
    succeeds. *)
Definition post_scrape (parses_url : string -> bool) (browser : Browser)
    (url : string) (s : Scraper) : Reply.t * Scraper :=
  if negb (Js.truthy url)
  then (Reply.Bad "URL is required" "Please provide a URL in the request body", s)
  else if negb (parses_url url)
  then (Reply.Bad "Invalid URL" "Please provide a valid URL", s)
  else
    let '(scraped, s') := scrape browser url s in
    match scraped with
    | Ok result => (Reply.Scraped result None, s')
    | Throw error =>
        (Reply.Failed 500 "Scraping failed" (message_of error) url, s')
    end.

(** The number of sections whose category is named [key]. *)
Definition sections_named (key : string) (sections : list Sec.t) : nat :=
  length (filter (fun s => type_name (Sec.sectionType s) = key) sections).

(** ** The checks of the general test suite
    (tests/test-scraper.js, [runGeneralTests]) *)

(** Test 3: the flag [charCountsValid] after the loop. *)
Definition charCountsValid (sections : list Sec.t) : bool :=
  fold_left (fun valid section =>
               if negb (String.length (Sec.text section) =? Sec.charCount section)%nat
               then false else valid)
            sections true.

(** Test 4: the texts pushed onto [duplicates] (994-1003), with
    [textSet] as it is on the way. *)
Fixpoint duplicates_from (textSet : list string) (sections : list Sec.t)
    : list string :=
  match sections with
  | [] => []
  | section :: sections' =>
      (if in_list (Sec.text section) textSet
       then [substring 0 50 (Sec.text section) +:+ "..."]
       else [])
      ++ duplicates_from (set_add (Sec.text section) textSet) sections'
  end.

(** [duplicates.length === 0] *)
Definition noDuplicateContent (sections : list Sec.t) : bool :=
  (length (duplicates_from [] sections) =? 0)%nat.

(** Test 5: the loop that leaves [orderingValid], from index [i] on. *)
Fixpoint orderingValid_from (i : nat) (sections : list Sec.t) : bool :=
  match sections with
  | [] => true
  | section :: sections' =>
      if negb (Sec.order section =? i + 1)%nat then false
      else orderingValid_from (S i) sections'
  end.

Definition orderingValid (sections : list Sec.t) : bool :=
  orderingValid_from 0 sections.

(** Test 7: [sectionsWithXPath.length === result.sections.length] *)
Definition xpathForAll (sections : list Sec.t) : bool :=
  let sectionsWithXPath :=
    filter (fun s => Js.truthy (Sec.xpath s)
                     && (0 <? String.length (Sec.xpath s))%nat = true) sections in
  (length sectionsWithXPath =? length sections)%nat.

(** Test 9: [emptyTextSections.length === 0] *)
Definition noEmptyText (sections : list Sec.t) : bool :=
  let emptyTextSections :=
    filter (fun s => negb (Js.truthy (Sec.text s))
                     || String.eqb (Js.trim (Sec.text s)) "" = true) sections in
  (length emptyTextSections =? 0)%nat.

(** ** Further examples *)

(** A paragraph inside a hero banner. *)
Definition page_hero : Dom.node :=
  page "Fast and friendly junk removal"
    [ leaf "P" ["hero-banner"] 100 0 "Fast and friendly junk removal" ].

(** A browser whose navigation fails. *)
Definition failing_to_navigate : Browser :=
  {| newPage := Ok tt;
     navigate := Throw (External "net::ERR_NAME_NOT_RESOLVED at https://example.invalid" "");
     pageTitle := Ok ""; autoScroll := Ok tt; document := Ok (page "" []);
     evaluation_error := fun e => e; returnable := fun _ => true;
     closePage := Ok tt;
     now := "2025-01-01T00:00:00.000Z" |}.

(** The first group made of the candidates of [root]; an empty group
    when there is none. *)
Definition first_group (root : Dom.node) : Group.t :=
  default (open_group (placed 0 0))
          (head (groupRelatedContent (elements_of root))).

(** The candidate at index [i] of the array returned for [root]. *)
Definition nth_candidate (root : Dom.node) (i : nat) : Cand.t :=
  default (placed 0 0) (elements_of root !! i).

(** What a call on [root] returns when every browser call succeeds. *)
Definition run_on (root : Dom.node) : outcome Res.t * Counter :=
  scrapeWebsite (showing root) "https://example.org" fresh_counter.

(** * Properties *)

(** ** Strings: the helpers on examples *)

Example normalizeSpaces_collapses :
  normalizeSpaces "  Call   612-555-0100 	 Today " = "Call 612-555-0100 Today".
Proof. reflexivity. Qed.

Example countWords_counts : countWords " We haul   junk away " = 4%nat.
Proof. vm_compute. reflexivity. Qed.

Example split_ws_keeps_empty_ends : Js.split_ws " a  b " = [""; "a"; "b"; ""].
Proof. reflexivity. Qed.

Example has_phone_plain : Js.has_phone "call 612-555-0100 today" = true.
Proof. reflexivity. Qed.

Example has_phone_needs_word_end : Js.has_phone "call 6125550100x" = false.
Proof. reflexivity. Qed.

Example has_phone_needs_word_start : Js.has_phone "id a612.555.0100" = false.
Proof. reflexivity. Qed.

Example has_quoted_span_long :
  Js.has_quoted_span
    (String Js.dquote "they took everything away" +:+ String Js.dquote "")
  = true.
Proof. reflexivity. Qed.

Example has_quoted_span_short :
  Js.has_quoted_span (String Js.dquote "great job" +:+ String Js.dquote "") = false.
Proof. reflexivity. Qed.

Example getXPath_below_body :
  getXPath page_gap (Dom.h_path <$> Dom.document_body page_gap) [2; 1]%nat
  = Ok "/html/body/p[2]".
Proof. vm_compute. reflexivity. Qed.

(** ** Section assembly *)

Lemma assemble_length groups index counter :
  length (assemble groups index counter).1 = length groups.
Proof.
  revert index counter.
  induction groups as [|g groups IH]; intros index counter; simpl; [done|].
  specialize (IH (S index) (counter_incr counter (determineSectionType g))).
  destruct (assemble groups (S index) _) as [ss c2]. simpl in *. lia.
Qed.

Lemma assemble_text groups index counter :
  Forall2 (fun g s => Sec.text s = Group.combinedText g
                      ∧ Sec.charCount s = String.length (Sec.text s))
          groups (assemble groups index counter).1.
Proof.
  revert index counter.
  induction groups as [|g groups IH]; intros index counter; simpl.
  - constructor.
  - specialize (IH (S index) (counter_incr counter (determineSectionType g))).
    destruct (assemble groups (S index) _) as [ss c2]. simpl in *.
    constructor; [split; reflexivity | exact IH].
Qed.

Lemma counter_get_incr c t t' :
  counter_get (counter_incr c t) t'
  = if decide (t = t') then S (counter_get c t') else counter_get c t'.
Proof. destruct c, t, t'; reflexivity. Qed.

(** The identifiers of one category count up from the counter's value,
    and the counter ends at the number of sections of the category. *)
Lemma assemble_ids t groups index counter :
  let '(ss, counter') := assemble groups index counter in
  map Sec.sectionId (of_type t ss)
  = map (section_id t) (seq (S (counter_get counter t)) (length (of_type t ss)))
  ∧ counter_get counter' t = (counter_get counter t + length (of_type t ss))%nat.
Proof.
  revert index counter.
  induction groups as [|g groups IH]; intros index counter; simpl.
  - split; [reflexivity | lia].
  - specialize (IH (S index) (counter_incr counter (determineSectionType g))).
    destruct (assemble groups (S index) _) as [ss c2].
    destruct IH as [IHids IHc]. unfold of_type in *.
    rewrite filter_cons. simpl.
    rewrite counter_get_incr in IHids, IHc.
    destruct (decide (determineSectionType g = t)) as [->|Hne].
    + simpl. rewrite counter_get_incr, decide_True by done.
      rewrite IHids, IHc. split; [reflexivity | lia].
    + rewrite IHids, IHc. split; [reflexivity | lia].
Qed.

(** ** The entry point *)

Lemma by_value_some returnable elements rawElements :
  by_value returnable elements = Some rawElements -> rawElements = elements.
Proof. unfold by_value. destruct (forallb _ _); [by intros [= <-]|done]. Qed.

(** Without a fault the candidates were collected and handed over. *)
Lemma first_fault_none browser :
  first_fault browser = None ->
  exists rawElements,
    (document browser ≫= page_function) = Ok rawElements
    ∧ by_value (returnable browser) rawElements = Some rawElements.
Proof.
  unfold first_fault.
  destruct (navigate browser); [|done].
  destruct (pageTitle browser); [|done].
  destruct (autoScroll browser); [|done].
  destruct (document browser) as [root|]; [|done].
  destruct (page_function root) as [elements|] eqn:Hpf; [|done].
  destruct (by_value _ elements) as [raw|] eqn:Hbv; [|done].
  intros _. exists elements. split; [exact Hpf|].
  by rewrite Hbv, (by_value_some _ _ _ Hbv).
Qed.

Lemma try_block_fault browser results counter e :
  first_fault browser = Some e ->
  exists t,
    try_block browser results counter
    = (Throw e,
       Res.mk (Res.url results) t (Res.scrapedAt results)
              (Res.sections results) (Res.errors results),
       counter).
Proof.
  unfold first_fault, try_block. intros H. destruct results as [u t0 sa ss es].
  destruct (navigate browser); [|inversion H; subst; eauto].
  destruct (pageTitle browser); [|inversion H; subst; eauto].
  destruct (autoScroll browser); [|inversion H; subst; eauto].
  destruct (document browser) as [root|]; [|inversion H; subst; eauto].
  destruct (page_function root); [|inversion H; subst; eauto].
  destruct (by_value _ _); [done|].
  inversion H; subst; eauto.
Qed.

Lemma try_block_complete browser results counter :
  first_fault browser = None ->
  exists t rawElements,
    (document browser ≫= page_function) = Ok rawElements
    ∧ pageTitle browser = Ok t
    ∧ try_block browser results counter
      = (Ok tt,
         Res.mk (Res.url results) t (Res.scrapedAt results)
                (assemble (groupRelatedContent rawElements) 0 counter).1
                (Res.errors results),
         (assemble (groupRelatedContent rawElements) 0 counter).2).
Proof.
  unfold first_fault, try_block. intros H.
  destruct (navigate browser); [|done].
  destruct (pageTitle browser) as [t|]; [|done].
  destruct (autoScroll browser); [|done].
  destruct (document browser) as [root|]; [|done].
  destruct (page_function root) as [elements|] eqn:Hpf; [|done].
  destruct (by_value _ elements) as [raw|] eqn:Hbv; [|done].
  apply by_value_some in Hbv. subst raw.
  exists t, elements. split; [exact Hpf|]. split; [done|].
  destruct (assemble (groupRelatedContent elements) 0 counter); reflexivity.
Qed.

(** What a call that returns has returned. *)
Lemma scrapeWebsite_returned browser url counter results counter' :
  scrapeWebsite browser url counter = (Ok results, counter') ->
  match first_fault browser with
  | Some e =>
      Res.sections results = [] ∧ Res.errors results = [error_record e]
      ∧ counter' = fresh_counter
  | None =>
      exists rawElements,
        (document browser ≫= page_function) = Ok rawElements
        ∧ Res.sections results = sections_of rawElements
        ∧ Res.errors results = []
        ∧ counter' = (assemble (groupRelatedContent rawElements) 0 fresh_counter).2
  end.
Proof.
  unfold scrapeWebsite. intros H.
  destruct (newPage browser); [|done].
  destruct (first_fault browser) as [e|] eqn:Hf.
  - destruct (try_block_fault browser (Res.mk url "" (now browser) [] [])
                (resetCounters counter) e Hf) as [t Ht].
    rewrite Ht in H. simpl in H.
    destruct (closePage browser); [|done].
    inversion H; subst. done.
  - destruct (try_block_complete browser (Res.mk url "" (now browser) [] [])
                (resetCounters counter) Hf) as (t & raw & Hraw & _ & Ht).
    rewrite Ht in H. simpl in H.
    destruct (closePage browser); [|done].
    inversion H; subst. exists raw. done.
Qed.

(** C1 (as amended): once the page has been opened, and provided closing
    it in the [finally] block does not itself fail, [scrapeWebsite]
    returns a result.  An exception raised inside the [try] block (while
    loading, running the in-page function, reading the array it handed
    over, grouping or classifying) is caught, and the result then carries
    no sections and exactly that one error record; without such an
    exception it carries no error and the sections assembled from the
    candidates that the in-page function returned and [page.evaluate]
    handed over. *)
Theorem C1_fails_closed browser url counter :
  newPage browser = Ok tt ->
  closePage browser = Ok tt ->
  exists results counter',
    scrapeWebsite browser url counter = (Ok results, counter')
    ∧ match first_fault browser with
      | Some e =>
          Res.sections results = [] ∧ Res.errors results = [error_record e]
      | None =>
          Res.errors results = []
          ∧ exists rawElements,
              (document browser ≫= page_function) = Ok rawElements
              ∧ by_value (returnable browser) rawElements = Some rawElements
              ∧ Res.sections results = sections_of rawElements
      end.
Proof.
  intros Hopen Hclose.
  destruct (scrapeWebsite browser url counter) as [[results|e] counter'] eqn:Hrun.
  - exists results, counter'. split; [reflexivity|].
    pose proof (scrapeWebsite_returned _ _ _ _ _ Hrun) as H.
    destruct (first_fault browser) eqn:Hfault.
    + tauto.
    + destruct H as (raw & Hraw & Hsections & Herrors & _).
      destruct (first_fault_none _ Hfault) as (raw' & Hraw' & Hvalue).
      assert (raw' = raw) as -> by congruence.
      split; [done|]. by exists raw.
  - exfalso. unfold scrapeWebsite in Hrun. rewrite Hopen, Hclose in Hrun.
    destruct (try_block _ _ _) as [[c r] k]. done.
Qed.

Lemma C1_fails_closed_witness :
  (exists results counter',
     scrapeWebsite (showing page_root_card) "https://example.org" fresh_counter
     = (Ok results, counter')
     ∧ Res.sections results = []
     ∧ Res.errors results = [error_record null_childNodes])
  ∧ (exists results counter',
       scrapeWebsite (rendering page_gap) "https://example.org" fresh_counter
       = (Ok results, counter')
       ∧ Res.sections results = []
       ∧ Res.errors results = [error_record undefined_length]).
Proof.
  split.
  - destruct (C1_fails_closed (showing page_root_card) "https://example.org"
                fresh_counter eq_refl eq_refl) as (results & counter' & Hrun & H).
    exists results, counter'. split; [exact Hrun|].
    vm_compute in H. exact H.
  - destruct (C1_fails_closed (rendering page_gap) "https://example.org"
                fresh_counter eq_refl eq_refl) as (results & counter' & Hrun & H).
    exists results, counter'. split; [exact Hrun|].
    vm_compute in H. exact H.
Defined.

(** C1, as stated, fails: the document [page_root_card] makes the walk
    raise an exception, which is caught; the page then fails to close and
    the exception of [page.close()] leaves [scrapeWebsite], which returns
    no result. *)
Lemma C1_counterexample :
  first_fault (failing_to_close page_root_card) = Some null_childNodes
  ∧ (scrapeWebsite (failing_to_close page_root_card) "https://example.org"
       fresh_counter).1
    = Throw (External "Protocol error: Target closed" "").
Proof. split; vm_compute; reflexivity. Qed.

(** A call during which no other call runs on the instance: the
    counters are reset when it starts, each category counts 1, 2, 3, ...
    on its own in output order, and neither the result nor the counters
    left behind depend on the counters an earlier call left. *)
Lemma counters_per_run_alone browser url counter results counter' :
  scrapeWebsite browser url counter = (Ok results, counter') ->
  (forall t,
      map Sec.sectionId (of_type t (Res.sections results))
      = map (section_id t) (seq 1 (length (of_type t (Res.sections results))))
      ∧ counter_get counter' t = length (of_type t (Res.sections results)))
  ∧ (forall previous,
        scrapeWebsite browser url previous = (Ok results, counter')).
Proof.
  intros Hrun. split.
  - intros t. pose proof (scrapeWebsite_returned _ _ _ _ _ Hrun) as H.
    destruct (first_fault browser).
    + destruct H as (-> & _ & ->). destruct t; done.
    + destruct H as (raw & _ & -> & _ & ->). unfold sections_of.
      pose proof (assemble_ids t (groupRelatedContent raw) 0 fresh_counter) as Hids.
      destruct (assemble _ 0 fresh_counter) as [ss c2]. simpl.
      destruct Hids as [Hids Hc]. split; [|rewrite Hc; by destruct t].
      rewrite Hids. by destruct t.
  - intros previous. unfold scrapeWebsite in *.
    destruct (newPage browser); [exact Hrun | done].
Qed.

(** [scrapeWebsite] is the call whose two stretches follow each other
    with the counters untouched in between. *)
Lemma scrapeWebsite_stretches browser url counter :
  scrapeWebsite browser url counter
  = match scrape_begin browser url counter with
    | (Ok results, counter) => scrape_finish browser results counter
    | (Throw e, counter) => (Throw e, counter)
    end.
Proof.
  unfold scrapeWebsite, scrape_begin, scrape_finish.
  by destruct (newPage browser).
Qed.

(** What the second stretch of a call that returns leaves, on the
    counters as it finds them. *)
Lemma scrape_finish_ids browser results counter returned_results counter' t :
  scrape_finish browser results counter = (Ok returned_results, counter') ->
  Res.sections results = [] ->
  map Sec.sectionId (of_type t (Res.sections returned_results))
  = map (section_id t)
        (seq (S (counter_get counter t))
             (length (of_type t (Res.sections returned_results))))
  ∧ counter_get counter' t
    = (counter_get counter t
       + length (of_type t (Res.sections returned_results)))%nat.
Proof.
  unfold scrape_finish.
  destruct (first_fault browser) as [e|] eqn:Hf.
  - destruct (try_block_fault browser results counter e Hf) as [title ->].
    destruct (closePage browser); [|done].
    intros [= <- <-] Hempty. simpl. rewrite Hempty. split; [done | simpl; lia].
  - destruct (try_block_complete browser results counter Hf)
      as (title & raw & _ & _ & ->).
    destruct (closePage browser); [|done].
    intros [= <- <-] _. cbn [Res.sections].
    pose proof (assemble_ids t (groupRelatedContent raw) 0 counter) as Hids.
    by destruct (assemble (groupRelatedContent raw) 0 counter) as [ss c2].
Qed.

(** C7, on the code: the counters belong to the instance, and a call on
    an instance on which another call is waiting for its page shares
    them with it.  When the second call begins while the first awaits
    and ends after it, the identifiers of the first call count from 1,
    and those of the second go on where the first call left the
    counters: they do not start at 1 unless the first call had no
    section of the category. *)
Theorem C7_overlapping_calls first second url1 url2 counter
    results1 results2 counter' :
  overlapping_calls first second url1 url2 counter
  = ((Ok results1, Ok results2), counter') ->
  forall t,
    map Sec.sectionId (of_type t (Res.sections results1))
    = map (section_id t)
          (seq 1 (length (of_type t (Res.sections results1))))
    ∧ map Sec.sectionId (of_type t (Res.sections results2))
      = map (section_id t)
            (seq (S (length (of_type t (Res.sections results1))))
                 (length (of_type t (Res.sections results2)))).
Proof.
  unfold overlapping_calls, scrape_begin. intros Hrun t.
  destruct (newPage first).
  2:{ destruct (newPage second); [|done].
      by destruct (scrape_finish second _ _). }
  destruct (newPage second).
  2:{ by destruct (scrape_finish first _ _). }
  destruct (scrape_finish first _ _) as [outcome1 counter1] eqn:H1.
  destruct (scrape_finish second _ _) as [outcome2 counter2] eqn:H2.
  injection Hrun as -> -> ->.
  destruct (scrape_finish_ids _ _ _ _ _ t H1 eq_refl) as [Hids1 Hc1].
  destruct (scrape_finish_ids _ _ _ _ _ t H2 eq_refl) as [Hids2 _].
  assert (Hzero : counter_get (resetCounters (resetCounters counter)) t = 0)
    by by destruct t.
  rewrite Hzero in Hids1, Hc1. rewrite Hc1 in Hids2. by split.
Qed.

(** C8: every section's [charCount] is the length of its [text], and the
    text is the combined text of its group, unchanged. *)
Theorem C8_charCount_is_text_length browser url counter results counter' :
  scrapeWebsite browser url counter = (Ok results, counter') ->
  Forall (fun s => Sec.charCount s = String.length (Sec.text s))
         (Res.sections results)
  ∧ (forall rawElements,
        (document browser ≫= page_function) = Ok rawElements ->
        first_fault browser = None ->
        Forall2 (fun g s => Sec.text s = Group.combinedText g)
                (groupRelatedContent rawElements) (Res.sections results)).
Proof.
  intros Hrun. pose proof (scrapeWebsite_returned _ _ _ _ _ Hrun) as H. split.
  - destruct (first_fault browser).
    + destruct H as (-> & _). constructor.
    + destruct H as (raw & _ & -> & _). unfold sections_of.
      pose proof (assemble_text (groupRelatedContent raw) 0 fresh_counter) as Ht.
      induction Ht as [|g s gs ss [_ Hc] _ IH]; constructor; assumption.
  - intros raw Hraw Hnone. rewrite Hnone in H.
    destruct H as (raw' & Hraw' & -> & _).
    rewrite Hraw in Hraw'. inversion Hraw'; subst raw'. unfold sections_of.
    eapply Forall2_impl; [apply assemble_text|]. intros g s [Ht _]. exact Ht.
Qed.

Lemma C7_overlapping_calls_witness :
  map Sec.sectionId (of_type Other (Res.sections (returned (two_requests.1.1, two_requests.2))))
  = ["other-1"; "other-2"]
  ∧ map Sec.sectionId (of_type Other (Res.sections (returned (two_requests.1.2, two_requests.2))))
    = ["other-3"; "other-4"].
Proof.
  assert (Hrun : two_requests
                 = ((Ok (returned (two_requests.1.1, two_requests.2)),
                     Ok (returned (two_requests.1.2, two_requests.2))),
                    two_requests.2)) by (vm_compute; reflexivity).
  destruct (C7_overlapping_calls _ _ _ _ _ _ _ _ Hrun Other) as [H1 H2].
  rewrite H1, H2. split; vm_compute; reflexivity.
Defined.

Lemma C8_charCount_is_text_length_witness :
  Forall (fun s => Sec.charCount s = String.length (Sec.text s))
         (Res.sections
            (returned (scrapeWebsite (showing page_services) "https://example.org"
                                     fresh_counter))).
Proof.
  set (run := scrapeWebsite (showing page_services) "https://example.org"
                            fresh_counter).
  assert (Hrun : run = (Ok (returned run), run.2)) by (vm_compute; reflexivity).
  exact (proj1 (C8_charCount_is_text_length _ _ _ _ _ Hrun)).
Defined.

(** ** The classifier *)

Lemma determineSectionType_first_match g :
  determineSectionType g = Rules.first_match Rules.ordered g.
Proof.
  unfold determineSectionType, Rules.ordered, Rules.first_match.
  unfold Rules.hero, Rules.cta, Rules.service, Rules.testimonial, Rules.faq,
    Rules.benefit, Rules.process, Rules.about, Rules.footer, Rules.mentions.
  cbn [existsb].
  fold (Rules.text g). fold (Rules.class g). fold (Rules.ident g). fold (Rules.top g).
  rewrite ?orb_false_r, ?orb_assoc. reflexivity.
Qed.

(** C3 (as amended): the classifier returns the category of the first
    rule that matches, the rules taken in the order hero, cta, service,
    testimonial, faq, benefit, process, about, footer, and [other] when
    none matches; so a group that the hero rule does not match, that has
    an associated button and whose text contains a 3-3-4 phone number is
    classified cta, whatever later rules match as well. *)
Theorem C3_first_rule_wins g :
  determineSectionType g = Rules.first_match Rules.ordered g
  ∧ (Rules.hero g = false ->
     Group.hasButton g = true ->
     Js.has_phone (Js.toLowerCase (Group.combinedText g)) = true ->
     determineSectionType g = Cta).
Proof.
  split; [apply determineSectionType_first_match|].
  intros Hhero Hbutton Hphone.
  rewrite determineSectionType_first_match. simpl.
  rewrite Hhero. unfold Rules.cta, Rules.text. rewrite Hbutton, Hphone.
  by rewrite orb_true_r.
Qed.

Lemma C3_first_rule_wins_witness :
  exists rawElements g,
    page_function page_p_phone = Ok rawElements
    ∧ groupRelatedContent rawElements = [g]
    ∧ Js.includes (Js.toLowerCase (Group.combinedText g)) "service" = true
    ∧ determineSectionType g = Cta.
Proof.
  eexists _, _. split; [vm_compute; reflexivity|].
  split; [vm_compute; reflexivity|].
  split; [vm_compute; reflexivity|].
  apply C3_first_rule_wins; vm_compute; reflexivity.
Defined.

(** C3, as stated, fails: this group has a button and a phone number in
    its text, and it is classified hero, not cta, because its primary
    candidate is an [h1] above 800 pixels and the hero rule comes first. *)
Lemma C3_counterexample :
  exists rawElements g,
    page_function page_h1_phone = Ok rawElements
    ∧ groupRelatedContent rawElements = [g]
    ∧ Group.hasButton g = true
    ∧ Js.has_phone (Js.toLowerCase (Group.combinedText g)) = true
    ∧ determineSectionType g = Hero.
Proof.
  eexists _, _. split; [vm_compute; reflexivity|].
  split; [vm_compute; reflexivity|].
  repeat split; vm_compute; reflexivity.
Qed.

(** ** The grouper *)

Lemma absorb_absorbed prev group rest :
  absorb prev group rest
  = (fold_left add_member (absorbed prev rest) group,
     drop (length (absorbed prev rest)) rest).
Proof.
  revert prev group.
  induction rest as [|next rest IH]; intros prev group; simpl; [done|].
  destruct (Cand.isHeading next || Cand.isCard next); simpl; [done|].
  rewrite Z.gtb_ltb.
  destruct (150 <? _)%Z; simpl; [done|]. apply IH.
Qed.

Lemma group_loop_fuel fuel1 fuel2 elements :
  length elements <= fuel1 -> length elements <= fuel2 ->
  group_loop fuel1 elements = group_loop fuel2 elements.
Proof.
  revert fuel2 elements.
  induction fuel1 as [|fuel1 IH]; intros fuel2 elements H1 H2.
  - destruct elements; [|simpl in H1; lia]. by destruct fuel2.
  - destruct elements as [|current rest]; [by destruct fuel2|].
    destruct fuel2 as [|fuel2]; [simpl in H2; lia|].
    simpl in *.
    destruct (Cand.isHeading current && negb (Cand.isCard current)).
    + rewrite absorb_absorbed. f_equal.
      apply IH; rewrite length_drop; lia.
    + f_equal. apply IH; lia.
Qed.

(** One turn of the outer loop. *)
Lemma groupRelatedContent_cons current rest :
  groupRelatedContent (current :: rest)
  = if Cand.isHeading current && negb (Cand.isCard current)
    then (push_group (heading_group current (absorbed current rest))
          ++ groupRelatedContent (drop (length (absorbed current rest)) rest))%list
    else (push_group (open_group current) ++ groupRelatedContent rest)%list.
Proof.
  unfold groupRelatedContent at 1. simpl.
  destruct (Cand.isHeading current && negb (Cand.isCard current)).
  - rewrite absorb_absorbed. f_equal.
    apply group_loop_fuel; rewrite ?length_drop; lia.
  - reflexivity.
Qed.

(** C5: a heading that is not a card opens a group and takes in the
    candidates that follow it up to the first that is a heading or a
    card or lies more than 150 pixels below the bottom of the candidate
    before it; the grouping goes on from that candidate.  So when [a] was
    taken in after the heading and [b], neither heading nor card, starts
    more than 150 pixels below the bottom of [a], the heading's group
    closes before [b] and [b] makes a group of its own; both groups are
    in the output when their texts are not empty. *)
Theorem C5_heading_group heading rest :
  Cand.isHeading heading = true ->
  Cand.isCard heading = false ->
  groupRelatedContent (heading :: rest)
  = (push_group (heading_group heading (absorbed heading rest))
     ++ groupRelatedContent (drop (length (absorbed heading rest)) rest))%list
  ∧ (forall a b rest',
        rest = a :: b :: rest' ->
        absorbed heading [a] = [a] ->
        Cand.isHeading b = false ->
        Cand.isCard b = false ->
        (Pos.top (Cand.position b) - Pos.bottom (Cand.position a) > 150)%Z ->
        groupRelatedContent (heading :: rest)
        = (push_group (heading_group heading [a])
           ++ push_group (open_group b) ++ groupRelatedContent rest')%list
        ∧ (has_content (heading_group heading [a]) = true ->
           has_content (open_group b) = true ->
           groupRelatedContent (heading :: rest)
           = heading_group heading [a] :: open_group b :: groupRelatedContent rest')).
Proof.
  intros Hh Hc.
  assert (Heq : groupRelatedContent (heading :: rest)
                = (push_group (heading_group heading (absorbed heading rest))
                   ++ groupRelatedContent (drop (length (absorbed heading rest)) rest))%list).
  { rewrite groupRelatedContent_cons, Hh, Hc. reflexivity. }
  split; [exact Heq|].
  intros a b rest' -> Ha Hhb Hcb Hgap.
  rewrite Heq.
  assert (Hab : absorbed heading (a :: b :: rest') = [a]).
  { simpl in *.
    destruct (Cand.isHeading a || Cand.isCard a
              || (150 <? Pos.top (Cand.position a) - Pos.bottom (Cand.position heading))%Z);
      [done|].
    rewrite Hhb, Hcb. simpl.
    destruct (Z.ltb_spec 150 (Pos.top (Cand.position b) - Pos.bottom (Cand.position a)));
      [done | lia]. }
  rewrite Hab. cbn [length drop].
  rewrite (groupRelatedContent_cons b rest'), Hhb. cbn [andb].
  split; [reflexivity|].
  intros Hha Hcb'. unfold push_group. rewrite Hha, Hcb'. reflexivity.
Qed.

(** ** The position sort *)

Section ArraySortFacts.
Context {A : Type} (compare : A -> A -> Z).
Hypothesis compare_flip : forall a b, compare b a = (- compare a b)%Z.


Lemma Sorted_mono (R R' : relation A) l :
  (forall a b, R a b -> R' a b) -> Sorted R l -> Sorted R' l.
Proof.
  intros Himp. induction 1 as [|x l Hs IH Hhd]; constructor; [exact IH|].
  destruct Hhd; constructor. by apply Himp.
Qed.

Lemma Sorted_insert (R : relation A) a pivot b :
  Sorted R (a ++ b) ->
  (forall x, last a = Some x -> R x pivot) ->
  (forall y, head b = Some y -> R pivot y) ->
  Sorted R (a ++ pivot :: b).
Proof.
  induction a as [|x a IH]; simpl; intros Hs Hl Hr.
  - constructor; [exact Hs|]. destruct b; constructor. by apply Hr.
  - inversion Hs as [|? ? Hs' Hhd]; subst.
    constructor.
    + apply IH; [exact Hs'| |exact Hr].
      intros z Hz. apply Hl. destruct a; [done|]. exact Hz.
    + destruct a as [|y a]; simpl in *.
      * constructor. by apply Hl.
      * inversion Hhd; subst. by constructor.
Qed.

Lemma binary_insert_place fuel pivot window :
  length window <= fuel ->
  exists a b,
    window = (a ++ b)%list
    ∧ binary_insert compare fuel pivot window = (a ++ pivot :: b)%list
    ∧ (forall x, last a = Some x -> (0 <= compare pivot x)%Z)
    ∧ (forall y, head b = Some y -> (compare pivot y < 0)%Z).
Proof.
  revert window.
  induction fuel as [|fuel IH]; intros window Hlen.
  - destruct window; [|simpl in Hlen; lia].
    exists [], []. simpl. repeat split; intros ? [=].
  - cbn [binary_insert].
    destruct (window !! (length window / 2)%nat) as [m|] eqn:Hm.
    2:{ apply lookup_ge_None in Hm.
        destruct window as [|w window].
        - exists [], []. simpl. repeat split; intros ? [=].
        - exfalso.
          pose proof (Nat.div_lt (length (w :: window)) 2) as Hd.
          cbn [length] in *. lia. }
    set (mid := (length window / 2)%nat) in *.
    assert (Hmid : mid < length window) by (by eapply lookup_lt_Some).
    pose proof (take_drop mid window) as Hsplit.
    pose proof (drop_S window m mid Hm) as Hdrop.
    destruct (Z.ltb_spec (compare pivot m) 0) as [Hlt|Hge].
    + destruct (IH (take mid window)) as (a & b & Hw & Hins & Hl & Hr).
      { rewrite length_take. lia. }
      exists a, (b ++ drop mid window)%list.
      rewrite Hins. rewrite <- Hsplit at 1. rewrite Hw.
      rewrite <- !app_assoc. simpl.
      repeat split; [exact Hl|].
      intros y Hy. destruct b as [|b0 b]; simpl in Hy.
      * rewrite Hdrop in Hy. simpl in Hy. by inversion Hy; subst.
      * apply Hr. exact Hy.
    + destruct (IH (drop (S mid) window)) as (a & b & Hw & Hins & Hl & Hr).
      { rewrite length_drop. lia. }
      exists (take (S mid) window ++ a)%list, b.
      rewrite Hins. rewrite <- (take_drop (S mid) window) at 1. rewrite Hw.
      rewrite <- !app_assoc.
      repeat split; [|exact Hr].
      intros x Hx. destruct a as [|a0 a] using rev_ind.
      * rewrite app_nil_r in Hx.
        rewrite (take_S_r window mid m Hm), last_snoc in Hx.
        by inversion Hx; subst.
      * apply Hl. rewrite app_assoc, !last_snoc in *. exact Hx.
Qed.

(** Placing the next element of the input keeps the front settled. *)
Lemma insert_sorted_settled input done todo sorted pivot :
  input = (done ++ pivot :: todo)%list ->
  sorted ≡ₚ done ->
  Sorted (settled compare input) sorted ->
  insert_sorted compare sorted pivot ≡ₚ (done ++ [pivot])%list
  ∧ Sorted (settled compare input) (insert_sorted compare sorted pivot).
Proof.
  intros Hin Hperm Hs. unfold insert_sorted.
  destruct (binary_insert_place (length sorted) pivot sorted (le_n _))
    as (a & b & Hw & Hins & Hl & Hr).
  rewrite Hins. split.
  - rewrite <- Hperm, Hw, <- Permutation_middle. apply Permutation_cons_append.
  - rewrite Hw in Hs. apply Sorted_insert; [exact Hs| |].
    + intros x Hx. specialize (Hl x Hx). split.
      * rewrite compare_flip in Hl. lia.
      * intros _.
        assert (Hxd : x ∈ done).
        { rewrite <- Hperm, Hw. apply elem_of_app. left.
          destruct a as [|a0 a] using rev_ind; [done|].
          rewrite last_snoc in Hx. inversion Hx; subst.
          apply elem_of_app. right. by left. }
        apply list_elem_of_split in Hxd as (d1 & d2 & ->).
        exists d1, d2, todo. rewrite Hin, <- app_assoc. reflexivity.
    + intros y Hy. specialize (Hr y Hy). split; lia.
Qed.

Lemma fold_insert_settled input todo done sorted :
  input = (done ++ todo)%list ->
  sorted ≡ₚ done ->
  Sorted (settled compare input) sorted ->
  fold_left (insert_sorted compare) todo sorted ≡ₚ input
  ∧ Sorted (settled compare input) (fold_left (insert_sorted compare) todo sorted).
Proof.
  revert done sorted.
  induction todo as [|pivot todo IH]; intros done sorted Hin Hperm Hs; simpl.
  - rewrite app_nil_r in Hin. subst. done.
  - destruct (insert_sorted_settled input done todo sorted pivot Hin Hperm Hs)
      as [Hp' Hs'].
    apply (IH (done ++ [pivot])%list); [|exact Hp'|exact Hs'].
    by rewrite <- app_assoc.
Qed.

(** The run found at the start, before a descending one is reversed:
    every element and the one before it, in the order the comparator
    was asked about them. *)
Lemma extend_run_spec (descending : bool) prev l run rest :
  extend_run compare descending prev l = (run, rest) ->
  l = (run ++ rest)%list
  ∧ Sorted (fun a b => if descending then (compare b a < 0)%Z
                       else (0 <= compare b a)%Z) (prev :: run).
Proof.
  revert prev run rest.
  induction l as [|current l IH]; intros prev run rest; simpl.
  - intros [= <- <-]. split; [done|]. repeat constructor.
  - destruct (if descending then (0 <=? compare current prev)%Z
              else (compare current prev <? 0)%Z) eqn:Hstop.
    + intros [= <- <-]. split; [done|]. repeat constructor.
    + destruct (extend_run compare descending current l) as [run' rest'] eqn:He.
      intros [= <- <-]. destruct (IH current run' rest' He) as [-> Hs].
      split; [done|]. constructor; [exact Hs|]. constructor.
      destruct descending; [apply Z.leb_gt in Hstop | apply Z.ltb_ge in Hstop];
        exact Hstop.
Qed.

Lemma Sorted_adjacent_before (R : relation A) (l tail : list A) :
  Sorted R l ->
  Sorted (fun a b => R a b ∧ before (l ++ tail) a b) l.
Proof.
  intros Hs.
  assert (H : forall pre, Sorted R l ->
              Sorted (fun a b => R a b ∧ before (pre ++ l ++ tail) a b) l).
  { clear Hs. induction l as [|x l IH]; intros pre Hs; [constructor|].
    inversion Hs as [|? ? Hs' Hhd]; subst. constructor.
    - specialize (IH (pre ++ [x])%list Hs').
      rewrite <- app_assoc in IH. exact IH.
    - destruct l as [|y l]; constructor. inversion Hhd; subst.
      split; [done|]. exists pre, [], (l ++ tail)%list. reflexivity. }
  exact (H [] Hs).
Qed.

Lemma make_run_settled l run rest :
  make_run compare l = (run, rest) ->
  exists done, l = (done ++ rest)%list ∧ run ≡ₚ done ∧ Sorted (settled compare l) run.
Proof.
  destruct l as [|x [|y l]]; simpl.
  - intros [= <- <-]. exists []. repeat split; constructor.
  - intros [= <- <-]. exists [x]. repeat split; [done|repeat constructor].
  - destruct (extend_run compare (compare y x <? 0)%Z y l) as [run' rest'] eqn:He.
    intros [= <- <-].
    destruct (extend_run_spec _ _ _ _ _ He) as [-> Hs].
    exists (x :: y :: run'). split; [done|].
    assert (Hfull : Sorted (fun a b => if (compare y x <? 0)%Z
                                       then (compare b a < 0)%Z
                                       else (0 <= compare b a)%Z)
                           (x :: y :: run')).
    { constructor; [exact Hs|]. constructor.
      destruct (Z.ltb_spec (compare y x) 0); lia. }
    destruct (compare y x <? 0)%Z.
    + split; [by rewrite reverse_Permutation|].
      apply Sorted_reverse. eapply Sorted_mono; [|exact Hfull].
      intros a b Hab. unfold flip, settled. simpl in *. split; lia.
    + split; [done|].
      apply (Sorted_adjacent_before _ _ rest') in Hfull.
      eapply Sorted_mono; [|exact Hfull].
      intros a b [Hab Hbef]. unfold settled. simpl in *.
      rewrite (compare_flip a b) in Hab. split; [lia|]. intros _. exact Hbef.
Qed.

Lemma array_sort_settled l :
  array_sort compare l ≡ₚ l ∧ Sorted (settled compare l) (array_sort compare l).
Proof.
  unfold array_sort.
  destruct (make_run compare l) as [run rest] eqn:Hrun.
  destruct (make_run_settled l run rest Hrun) as (done & Hl & Hperm & Hs).
  by apply (fold_insert_settled l rest done run).
Qed.







End ArraySortFacts.

Lemma compare_position_flip a b :
  compare_position b a = (- compare_position a b)%Z.
Proof.
  unfold compare_position.
  replace (Pos.top (Cand.position b) - Pos.top (Cand.position a))%Z
    with (- (Pos.top (Cand.position a) - Pos.top (Cand.position b)))%Z by lia.
  rewrite Z.abs_opp. destruct (_ <? _)%Z; lia.
Qed.

(** The comparator is not transitive: three candidates, each within 50
    pixels of the next but the first and last 80 pixels apart, go round
    in a circle. *)
Example compare_position_cycle :
  (compare_position (placed 40 1) (placed 0 2) < 0)%Z
  ∧ (compare_position (placed 80 0) (placed 40 1) < 0)%Z
  ∧ (compare_position (placed 0 2) (placed 80 0) < 0)%Z.
Proof. repeat split. Qed.



(** ** The document tree *)

Lemma node_induction (P : Dom.node -> Prop) :
  (forall d, P (Dom.TextNode d)) ->
  (forall d, P (Dom.CommentNode d)) ->
  (forall e cs, Forall P cs -> P (Dom.ElementNode e cs)) ->
  forall n, P n.
Proof.
  intros Ht Hc He. fix IH 1. intros [d|d|e cs]; [apply Ht|apply Hc|].
  apply He. induction cs as [|c cs IHcs]; constructor; [apply IH|exact IHcs].
Qed.

Lemma descendants_unfold p e cs :
  Dom.descendants p (Dom.ElementNode e cs) = Dom.flat_mapi (Dom.block p) 0 cs.
Proof. reflexivity. Qed.

Lemma flat_mapi_elem {A B} (f : nat -> B -> list A) i l x :
  x ∈ Dom.flat_mapi f i l <-> exists j c, l !! j = Some c ∧ x ∈ f (i + j)%nat c.
Proof.
  revert i. induction l as [|c l IH]; intros i; simpl.
  - split; [by intros ?%elem_of_nil | by intros (j & c & ? & _)].
  - rewrite elem_of_app, IH. split.
    + intros [Hx | (j & c' & Hj & Hx)].
      * exists 0%nat, c. by rewrite Nat.add_0_r.
      * exists (S j), c'. split; [done|]. by rewrite Nat.add_succ_r.
    + intros ([|j] & c' & Hj & Hx); simpl in Hj.
      * left. inversion Hj; subst. by rewrite Nat.add_0_r in Hx.
      * right. exists j, c'. split; [done|]. by rewrite Nat.add_succ_r in Hx.
Qed.

(** Every element of the block of child [i] lies at or below [i :: p]. *)
Lemma block_path n : forall p i h,
  h ∈ Dom.block p i n -> exists k, Dom.h_path h = (k ++ i :: p)%list.
Proof.
  induction n as [d|d|e cs IH] using node_induction; intros p i h;
    unfold Dom.block;
    [by intros ?%elem_of_nil | by intros ?%elem_of_nil |].
  rewrite elem_of_cons. intros [-> | Hh]; [by exists []|].
  rewrite descendants_unfold in Hh.
  apply flat_mapi_elem in Hh as (j & c & Hj & Hh).
  rewrite Forall_forall in IH.
  destruct (IH c (list_elem_of_lookup_2 _ _ _ Hj) _ _ _ Hh) as [k ->].
  exists (k ++ [(0 + j)%nat])%list. by rewrite <- app_assoc.
Qed.

(** Every descendant lies strictly below. *)
Lemma descendants_path n p h :
  h ∈ Dom.descendants p n -> exists k, Dom.h_path h = (k ++ p)%list ∧ k ≠ [].
Proof.
  destruct n as [d|d|e cs]; [by intros ?%elem_of_nil | by intros ?%elem_of_nil |].
  rewrite descendants_unfold. intros (j & c & _ & Hh)%flat_mapi_elem.
  destruct (block_path _ _ _ _ Hh) as [k ->].
  exists (k ++ [(0 + j)%nat])%list. rewrite <- app_assoc. split; [done|].
  by destruct k.
Qed.

Lemma not_suffix_sibling (k1 k2 : path) i j p :
  i ≠ j -> ¬ (k2 ++ j :: p)%list `suffix_of` (k1 ++ i :: p)%list.
Proof.
  intros Hij [m Hm]. rewrite app_assoc in Hm.
  apply app_inj_2 in Hm as [_ Hm]; [|done]. congruence.
Qed.

Lemma not_suffix_longer (k p : path) : k ≠ [] -> ¬ (k ++ p)%list `suffix_of` p.
Proof.
  intros Hk Hs%suffix_length. rewrite length_app in Hs.
  destruct k; [done|]. simpl in Hs. lia.
Qed.

(** Document order: an element comes before its descendants. *)
Lemma descendants_document_order n :
  forall p, StronglySorted not_above (Dom.descendants p n).
Proof.
  induction n as [d|d|e cs IH] using node_induction; intros p;
    [constructor | constructor |].
  rewrite descendants_unfold. generalize 0%nat.
  induction IH as [|c cs Hc _ IHcs]; intros i; simpl; [constructor|].
  apply StronglySorted_app_2; [| |apply IHcs].
  - intros h1 h2 H1 H2. unfold not_above.
    destruct (block_path _ _ _ _ H1) as [k1 ->].
    apply flat_mapi_elem in H2 as (j & c' & _ & H2).
    destruct (block_path _ _ _ _ H2) as [k2 ->].
    apply not_suffix_sibling. lia.
  - destruct c as [d|d|e' k]; unfold Dom.block; [constructor | constructor |].
    apply StronglySorted_cons. split; [|apply Hc].
    apply Forall_forall. intros h Hh. unfold not_above. cbn [Dom.h_path].
    destruct (descendants_path _ _ _ Hh) as (k' & -> & Hk').
    by apply not_suffix_longer.
Qed.

Lemma all_elements_document_order root :
  StronglySorted not_above (Dom.all_elements root).
Proof.
  unfold Dom.all_elements. destruct root as [d|d|e cs]; unfold Dom.as_handle;
    [constructor | constructor |].
  apply StronglySorted_cons. split; [|apply (descendants_document_order (Dom.ElementNode e cs))].
  apply Forall_forall. intros h Hh. unfold not_above. cbn [Dom.h_path].
  destruct (descendants_path _ _ _ Hh) as (k' & -> & Hk').
  by apply not_suffix_longer.
Qed.

Lemma StronglySorted_filter {A} (R : relation A) (P : A -> Prop)
    `{forall x, Decision (P x)} l :
  StronglySorted R l -> StronglySorted R (filter P l).
Proof.
  induction 1 as [|x l Hs IH Hall]; [constructor|].
  rewrite filter_cons. destruct (decide (P x)); [|exact IH].
  constructor; [exact IH|].
  apply Forall_forall. intros y [_ Hy]%list_elem_of_filter.
  rewrite Forall_forall in Hall. by apply Hall.
Qed.

Lemma querySelectorAll_document_order sel root :
  StronglySorted not_above (Dom.querySelectorAll sel root).
Proof. apply StronglySorted_filter, all_elements_document_order. Qed.

(** No descendant of a later element comes before it. *)
Lemma not_above_subtree h1 h2 :
  not_above h1 h2 -> Dom.h_path h1 ∉ subtree_paths h2.
Proof.
  unfold not_above, subtree_paths, Dom.descendants_of.
  intros Hn Hin. rewrite elem_of_list_to_set, list_elem_of_fmap in Hin.
  destruct Hin as (h & Heq & Hh).
  destruct (descendants_path _ _ _ Hh) as (k & Hk & _).
  apply Hn. exists k. by rewrite Heq, Hk.
Qed.

Lemma not_in_own_subtree h : Dom.h_path h ∉ subtree_paths h.
Proof.
  unfold subtree_paths, Dom.descendants_of.
  intros Hin. rewrite elem_of_list_to_set, list_elem_of_fmap in Hin.
  destruct Hin as (h' & Heq & Hh).
  destruct (descendants_path _ _ _ Hh) as (k & Hk & Hne).
  apply (not_suffix_longer k (Dom.h_path h) Hne). exists []. simpl.
  rewrite <- Hk. exact Heq.
Qed.

(** ** Strings *)

Lemma append_cons x (a b : string) : String x a +:+ b = String x (a +:+ b).
Proof. reflexivity. Qed.

Lemma append_assoc (a b c : string) : (a +:+ b) +:+ c = a +:+ (b +:+ c).
Proof. induction a as [|x a IH]; [done|]. by rewrite !append_cons, IH. Qed.

Lemma append_empty_r (a : string) : a +:+ "" = a.
Proof. induction a as [|x a IH]; [done|]. by rewrite append_cons, IH. Qed.

Lemma starts_with_spec p s :
  Js.starts_with p s = true <-> exists b, s = p +:+ b.
Proof.
  revert s. induction p as [|x p IH]; intros s; simpl.
  - split; [by exists s | done].
  - destruct s as [|y s]; [split; [done | by intros [b [=]]]|].
    rewrite andb_true_iff, IH. split.
    + intros [Hxy%Ascii.eqb_eq [b ->]]. subst. by exists b.
    + intros [b [= -> ->]]. split; [apply Ascii.eqb_refl | by exists b].
Qed.

Lemma includes_spec s p :
  Js.includes s p = true <-> exists a b, s = a +:+ p +:+ b.
Proof.
  induction s as [|x s IH]; simpl.
  - rewrite orb_false_r, starts_with_spec. split.
    + intros [b Hb]. by exists "", b.
    + intros (a & b & Hab). destruct a; [by exists b|done].
  - rewrite orb_true_iff, starts_with_spec, IH. split.
    + intros [[b Hb] | (a & b & ->)]; [by exists "", b|].
      by exists (String x a), b.
    + intros ([|y a] & b & Hab); [left; by exists b|].
      right. simpl in Hab. inversion Hab; subst. by exists a, b.
Qed.

Lemma toLowerCase_append a b :
  Js.toLowerCase (a +:+ b) = Js.toLowerCase a +:+ Js.toLowerCase b.
Proof.
  induction a as [|x a IH]; [done|].
  rewrite append_cons. simpl. by rewrite append_cons, IH.
Qed.

Lemma includes_toLowerCase s p :
  Js.toLowerCase p = p ->
  Js.includes s p = true -> Js.includes (Js.toLowerCase s) p = true.
Proof.
  intros Hp (a & b & ->)%includes_spec. apply includes_spec.
  exists (Js.toLowerCase a), (Js.toLowerCase b).
  by rewrite !toLowerCase_append, Hp.
Qed.

Lemma includes_shorter s p q :
  Js.includes s (p +:+ q) = true -> Js.includes s p = true.
Proof.
  intros (a & b & ->)%includes_spec. apply includes_spec.
  exists a, (q +:+ b). by rewrite append_assoc.
Qed.

Lemma includes_join sep l tok :
  tok ∈ l -> Js.includes (Js.join sep l) tok = true.
Proof.
  intros Hin. apply includes_spec.
  induction l as [|x l IH]; [by apply elem_of_nil in Hin|].
  apply elem_of_cons in Hin as [-> | Hin].
  - exists "". destruct l as [|y l]; simpl.
    + exists "". by rewrite append_empty_r.
    + by exists (sep +:+ Js.join sep (y :: l)).
  - destruct (IH Hin) as (a & b & Hab). destruct l as [|y l]; [by apply elem_of_nil in Hin|].
    exists (x +:+ sep +:+ a), b.
    change (Js.join sep (x :: y :: l)) with (x +:+ sep +:+ Js.join sep (y :: l)).
    by rewrite Hab, !append_assoc.
Qed.

(** Every element the card selector matches passes the class test of
    [isCardContainer]. *)
Lemma sel_card_hasCardClass e :
  Dom.sel_card e = true -> hasCardClass e = true.
Proof.
  unfold Dom.sel_card, Dom.class_contains, Dom.className, Dom.has_class, hasCardClass.
  rewrite !orb_true_iff. intros [[[H|H]|H]|H].
  - left; left; left; left. by apply includes_toLowerCase.
  - left; left; left; right. apply includes_toLowerCase; [done|].
    by apply (includes_shorter _ "service" "-item").
  - left; left; right. by apply includes_toLowerCase.
  - right. apply includes_toLowerCase; [done|]. apply includes_join.
    apply existsb_exists in H as (tok & Hin & Heq%String.eqb_eq). subst.
    by apply list_elem_of_In.
Qed.

(** ** The collector *)

Lemma button_unprocessed root pn element q :
  Btn.buttonElement (findAssociatedButton root pn element) = Some q -> q ∉ pn.
Proof.
  unfold findAssociatedButton. destruct (find_button root element) as [b|]; [|done].
  case_bool_decide; simpl; [done|]. by intros [= <-].
Qed.

Lemma consistent_empty : consistent (mkCollector [] ∅).
Proof.
  constructor; simpl.
  - intros p. split; [set_solver|]. intros (c & Hc & _). by apply elem_of_nil in Hc.
  - constructor.
  - intros c c' Hc. by apply elem_of_nil in Hc.
  - intros c c' q Hc. by apply elem_of_nil in Hc.
  - intros c Hc. by apply elem_of_nil in Hc.
Qed.

Lemma elem_of_claimed p c :
  p ∈ claimed c
  <-> p = node_of c
      ∨ (Cand.isCard c = true ∧ p ∈ subtree_paths (Cand.element c))
      ∨ Btn.buttonElement (Cand.buttonInfo c) = Some p.
Proof.
  unfold claimed, button_node.
  rewrite !elem_of_union, elem_of_singleton.
  destruct (Cand.isCard c), (Btn.buttonElement (Cand.buttonInfo c)) as [q|];
    rewrite ?elem_of_singleton, ?elem_of_empty; intuition congruence.
Qed.

(** Accepting a candidate whose element is not yet consumed. *)
Lemma consistent_add st x pn' :
  consistent st ->
  node_of x ∉ processedNodes st ->
  (forall p, p ∈ pn' <-> p ∈ processedNodes st ∨ p ∈ claimed x) ->
  (forall q, Btn.buttonElement (Cand.buttonInfo x) = Some q -> q ∉ processedNodes st) ->
  (Cand.isCard x = true ->
   Cand.tag x = "card" ∧ card_conditions (Cand.element x) = true
   ∧ forall c', c' ∈ elements st -> node_of c' ∉ subtree_paths (Cand.element x)) ->
  consistent (mkCollector (elements st ++ [x]) pn').
Proof.
  intros [Hcov Hnd Hat Hbt Hcs] Hfresh Hpn Hbutton Hcard.
  assert (Hself : forall c, c ∈ elements st -> node_of c ∈ processedNodes st).
  { intros c Hc. apply Hcov. exists c. split; [done|]. apply elem_of_claimed. by left. }
  constructor; simpl.
  - intros p. rewrite Hpn, Hcov. split.
    + intros [(c & Hc & Hp) | Hp]; [exists c | exists x];
        (split; [|done]); apply elem_of_app; [by left | right; by apply list_elem_of_singleton].
    + intros (c & [Hc | ->%list_elem_of_singleton]%elem_of_app & Hp); [left; eauto | by right].
  - rewrite fmap_app. apply NoDup_app. split; [done|]. split; [|apply NoDup_singleton].
    intros p (c & -> & Hc)%list_elem_of_fmap Hx%list_elem_of_singleton.
    apply Hfresh. rewrite <- Hx. by apply Hself.
  - intros c c' [Hc | ->%list_elem_of_singleton]%elem_of_app
      [Hc' | ->%list_elem_of_singleton]%elem_of_app Hic.
    + by apply Hat.
    + intros Hin. apply Hfresh, Hcov. exists c. split; [done|].
      apply elem_of_claimed. right; left. done.
    + by apply Hcard.
    + apply not_in_own_subtree.
  - intros c c' q [Hc | ->%list_elem_of_singleton]%elem_of_app
      [Hc' | ->%list_elem_of_singleton]%elem_of_app Hq Hn.
    + by eapply Hbt.
    + exfalso. apply Hfresh, Hcov. exists c. split; [done|].
      apply elem_of_claimed. right; right. by rewrite Hn.
    + exfalso. apply (Hbutton q Hq). rewrite <- Hn. by apply Hself.
    + done.
  - intros c [Hc | ->%list_elem_of_singleton]%elem_of_app Hic; [by apply Hcs|].
    destruct (Hcard Hic) as (? & ? & _). done.
Qed.

Lemma isCardContainer_eq card :
  isCardContainer card
  = hasCardClass (Dom.h_el card)
    && bool_decide (is_Some (Dom.querySelector Dom.sel_heading card))
    && bool_decide (is_Some (Dom.querySelector Dom.sel_text card))
    && (2 <=? length (Dom.children card))%nat.
Proof. reflexivity. Qed.

(** What one turn of the card loop does. *)
Lemma card_step_cases root body st card st' :
  Dom.sel_card (Dom.h_el card) = true ->
  card_step root body st card = Ok st' ->
  (st' = st ∧ (card_conditions card = false ∨ Dom.h_path card ∈ processedNodes st))
  ∨ (card_conditions card = true
     ∧ (Dom.h_path card ∉ processedNodes st)
     ∧ (exists x,
         promotes x card ∧ Cand.tag x = "card"
         ∧ Cand.buttonInfo x = findAssociatedButton root (processedNodes st) card
         ∧ elements st' = (elements st ++ [x])%list
         ∧ processedNodes st'
           = processedNodes st ∪ subtree_paths card ∪ {[ Dom.h_path card ]}
             ∪ button_node (Cand.buttonInfo x))).
Proof.
  intros Hsel. unfold card_step, card_conditions. rewrite isCardContainer_eq, Hsel.
  rewrite (sel_card_hasCardClass _ Hsel). fold (card_text card).
  generalize (2 <=? length (Dom.children card))%nat as multi.
  generalize (4 <=? countWords (card_text card))%nat as words.
  intros words multi. cbn [andb negb orb].
  destruct (shouldSkipElement (Dom.h_el card)); cbn [andb negb orb].
  { intros [= <-]. left. auto. }
  case_bool_decide as Hproc; cbn [andb negb orb].
  { intros [= <-]. left. auto. }
  destruct (bool_decide (is_Some (Dom.querySelector Dom.sel_heading card)));
    cbn [andb negb orb]; [|intros [= <-]; left; auto].
  destruct (bool_decide (is_Some (Dom.querySelector Dom.sel_text card)));
    cbn [andb negb orb]; [|intros [= <-]; left; auto].
  destruct multi; cbn [andb negb orb]; [|intros [= <-]; left; auto].
  destruct words; cbn [andb negb orb]; [|intros [= <-]; left; auto].
  destruct (getXPath root body (Dom.h_path card)) as [xpath|]; simpl; [|done].
  intros [= <-]. right. split; [done|]. split; [done|].
  eexists. unfold promotes. simpl. repeat split; reflexivity.
Qed.

Lemma extends_refl st : extends st st.
Proof. split; auto. Qed.

Lemma extends_trans st1 st2 st3 : extends st1 st2 -> extends st2 st3 -> extends st1 st3.
Proof.
  intros [H1 H1'] [H2 H2']. split; [auto|].
  intros c Hc. destruct (H2' c Hc) as [Hc2|]; auto.
Qed.

(** The card loop over the matched elements still to be handled. *)
Lemma card_pass root body cards : forall st st',
  StronglySorted not_above cards ->
  Forall (fun card => Dom.sel_card (Dom.h_el card) = true) cards ->
  consistent st ->
  (forall c, c ∈ elements st -> Cand.isCard c = true) ->
  (forall c card, c ∈ elements st -> card ∈ cards -> not_above (Cand.element c) card) ->
  for_each (card_step root body) cards st = Ok st' ->
  consistent st'
  ∧ (forall c, c ∈ elements st' -> Cand.isCard c = true)
  ∧ (forall c, c ∈ elements st -> c ∈ elements st')
  ∧ (forall card, card ∈ cards -> card_conditions card = true ->
       promoted (elements st') card ∨ consumed_by_another (elements st') card).
Proof.
  induction cards as [|card cards IH]; intros st st' Hsorted Hsel Hcons Hcards Hord; simpl.
  - intros [= <-]. split; [done|]. split; [done|]. split; [done|].
    intros card Hc. by apply elem_of_nil in Hc.
  - apply StronglySorted_cons in Hsorted as [Hhd Hsorted].
    rewrite Forall_forall in Hhd.
    apply Forall_cons in Hsel as [Hsel1 Hsel].
    destruct (card_step root body st card) as [st1|] eqn:Hstep; simpl; [|done].
    intros Hrest.
    destruct (card_step_cases _ _ _ _ _ Hsel1 Hstep)
      as [[-> Hwhy] | (Hcond & Hfresh & x & [Hxc Hxe] & Htag & Hbtn & Hel & Hpn)].
    + (* not promoted *)
      destruct (IH st st' Hsorted Hsel Hcons Hcards) as (Hc' & Hall' & Hmono & Hdone);
        [|exact Hrest|].
      { intros c h Hc Hh. apply Hord; [done|]. by right. }
      split; [exact Hc'|]. split; [exact Hall'|]. split; [exact Hmono|].
      intros h [-> | Hh]%elem_of_cons Hcondh; [|by apply Hdone].
      destruct Hwhy as [Hno | Hin]; [congruence|].
      right. apply (cover _ Hcons) in Hin as (c & Hc & Hp).
      exists c. split; [by apply Hmono|]. split; [by apply Hcards|].
      split; [|exact Hp].
      intros Heq. apply (Hord c card Hc); [by left|].
      unfold node_of in Heq. by rewrite Heq.
    + (* promoted *)
      assert (Hcons1 : consistent st1).
      { destruct st1 as [els1 pn1]. simpl in Hel, Hpn. subst els1.
        apply consistent_add; [exact Hcons| | | |].
        - unfold node_of. by rewrite Hxe.
        - intros p. rewrite Hpn, elem_of_claimed, !elem_of_union, elem_of_singleton.
          unfold node_of. rewrite Hxc, Hxe. unfold button_node.
          destruct (Btn.buttonElement (Cand.buttonInfo x)) as [q|];
            rewrite ?elem_of_singleton, ?elem_of_empty; intuition congruence.
        - intros q Hq. rewrite Hbtn in Hq. by eapply button_unprocessed.
        - intros _. split; [done|]. rewrite Hxe. split; [done|].
          intros c' Hc'. apply not_above_subtree. apply Hord; [done|by left]. }
      destruct (IH st1 st' Hsorted Hsel Hcons1) as (Hc' & Hall' & Hmono & Hdone);
        [| |exact Hrest|].
      { intros c. rewrite Hel. intros [Hc | ->%list_elem_of_singleton]%elem_of_app; auto. }
      { intros c h. rewrite Hel.
        intros [Hc | ->%list_elem_of_singleton]%elem_of_app Hh.
        - apply Hord; [done|by right].
        - rewrite Hxe. by apply Hhd. }
      split; [exact Hc'|]. split; [exact Hall'|]. split.
      * intros c Hc. apply Hmono. rewrite Hel. apply elem_of_app. by left.
      * intros h [-> | Hh]%elem_of_cons Hcondh; [|by apply Hdone].
        left. exists x. split; [|done]. apply Hmono. rewrite Hel.
        apply elem_of_app. right. by apply list_elem_of_singleton.
Qed.

(** The body of the walker loop. *)
Lemma visit_consistent root body st node st' :
  consistent st ->
  visit root body st node = Ok st' ->
  consistent st' ∧ extends st st'.
Proof.
  intros Hcons. unfold visit.
  case_bool_decide as Hproc; [intros [= <-]; split; [done|apply extends_refl]|].
  destruct (_ || _); [|intros [= <-]; split; [done|apply extends_refl]].
  destruct (getXPath root body (Dom.h_path node)) as [xpath|]; simpl; [|done].
  intros [= <-]. split.
  - apply consistent_add; simpl; [exact Hcons|exact Hproc| | |done].
    + intros p. rewrite elem_of_claimed, !elem_of_union, elem_of_singleton.
      unfold node_of, button_node. simpl.
      destruct (Btn.buttonElement (findAssociatedButton root (processedNodes st) node)) as [q|];
        rewrite ?elem_of_singleton, ?elem_of_empty; intuition congruence.
    + intros q Hq. by eapply button_unprocessed.
  - split; simpl.
    + intros c Hc. apply elem_of_app. by left.
    + intros c [Hc | ->%list_elem_of_singleton]%elem_of_app; [by left | by right].
Qed.

Lemma walk_unfold root body p e cs st :
  walk root body p (Dom.ElementNode e cs) st
  = each_child (walk_child root body p) 0 cs st.
Proof. reflexivity. Qed.

(** The walk below a node. *)
Lemma walk_consistent root body n : forall p st st',
  consistent st ->
  walk root body p n st = Ok st' ->
  consistent st' ∧ extends st st'.
Proof.
  induction n as [d|d|e cs IH] using node_induction; intros p st st' Hcons;
    [intros [= <-]; split; [done|apply extends_refl] ..|].
  rewrite walk_unfold. generalize 0%nat. revert st Hcons.
  induction IH as [|c cs Hc _ IHcs]; intros st Hcons i; simpl.
  - intros [= <-]. split; [done|apply extends_refl].
  - destruct (walk_child root body p i c st) as [st1|] eqn:Hchild; simpl; [|done].
    intros Hrest.
    assert (H1 : consistent st1 ∧ extends st st1).
    { unfold walk_child in Hchild.
      destruct c as [d|d|e' k];
        [inversion Hchild; subst; split; [done|apply extends_refl] ..|].
      destruct (acceptNode st _);
        [|inversion Hchild; subst; split; [done|apply extends_refl]].
      destruct (visit root body st _) as [st0|] eqn:Hvisit; simpl in Hchild; [|done].
      destruct (visit_consistent _ _ _ _ _ Hcons Hvisit) as [Hcons0 Hext0].
      destruct (Hc _ _ _ Hcons0 Hchild) as [Hcons1 Hext1].
      split; [done|]. by eapply extends_trans. }
    destruct H1 as [Hcons1 Hext1].
    destruct (IHcs st1 Hcons1 (S i) Hrest) as [Hcons' Hext'].
    split; [done|]. by eapply extends_trans.
Qed.

Lemma querySelectorAll_sel sel root :
  Forall (fun h => sel (Dom.h_el h) = true) (Dom.querySelectorAll sel root).
Proof.
  apply Forall_forall. intros h Hh.
  unfold Dom.querySelectorAll in Hh. by apply list_elem_of_filter in Hh as [? _].
Qed.

(** The two passes together. *)
Lemma collect_consistent root st :
  collect root = Ok st ->
  consistent st
  ∧ (forall card, card ∈ Dom.querySelectorAll Dom.sel_card root ->
       card_conditions card = true ->
       promoted (elements st) card ∨ consumed_by_another (elements st) card).
Proof.
  unfold collect.
  destruct (for_each _ _ _) as [st1|] eqn:Hcards; unfold mbind, outcome_bind; [|done].
  destruct (Dom.document_body root) as [b|]; [|done].
  intros Hwalk.
  assert (Hnone : forall c : Cand.t, c ∈ elements (mkCollector [] ∅) -> Cand.isCard c = true).
  { intros c Hc. by apply elem_of_nil in Hc. }
  assert (Hnone' : forall (c : Cand.t) card,
             c ∈ elements (mkCollector [] ∅) ->
             card ∈ Dom.querySelectorAll Dom.sel_card root ->
             not_above (Cand.element c) card).
  { intros c card Hc. by apply elem_of_nil in Hc. }
  destruct (card_pass _ _ _ _ _ (querySelectorAll_document_order _ root)
              (querySelectorAll_sel _ root) consistent_empty Hnone Hnone' Hcards)
    as (Hcons1 & _ & _ & Hdone).
  destruct (walk_consistent _ _ _ _ _ _ Hcons1 Hwalk) as [Hcons [Hmono _]].
  split; [done|].
  intros card Hcard Hcond.
  destruct (Hdone card Hcard Hcond) as [(c & Hc & Hp) | (c & Hc & H)].
  - left. exists c. auto.
  - right. exists c. auto.
Qed.

Lemma page_function_collect root rawElements :
  page_function root = Ok rawElements ->
  exists st, collect root = Ok st ∧ rawElements ≡ₚ elements st.
Proof.
  unfold page_function. destruct (collect root) as [st|]; [|done].
  intros [= <-]. exists st. split; [done|].
  apply (array_sort_settled compare_position compare_position_flip).
Qed.

(** An element other than a button or a link that has a child element
    the filter does not skip owns no text. *)
Lemma container_text_empty element child k :
  Dom.tagName (Dom.h_el element) ≠ "BUTTON" ->
  Dom.tagName (Dom.h_el element) ≠ "A" ->
  Dom.ElementNode child k ∈ Dom.h_kids element ->
  shouldSkipElement child = false ->
  getExactVisibleText element = "".
Proof.
  intros Hb Ha Hin Hskip. unfold getExactVisibleText.
  apply String.eqb_neq in Hb, Ha. rewrite Hb, Ha. cbn [orb].
  destruct (forallb _ _) eqn:Hall; [|done].
  rewrite forallb_forall in Hall.
  specialize (Hall _ (proj1 (list_elem_of_In _ _) Hin)). simpl in Hall. congruence.
Qed.

(** What the consumed-node tracking achieves: within one run no DOM node
    yields two candidates.  The candidates come from pairwise different
    nodes; no candidate lies in the subtree of a promoted card; the
    button associated with a candidate is no other candidate; and an
    element other than a button or link with a child element that is not
    skipped yields empty text itself. *)
Lemma one_candidate_per_node root rawElements :
  page_function root = Ok rawElements ->
  NoDup (node_of <$> rawElements)
  ∧ (forall c c',
        c ∈ rawElements -> c' ∈ rawElements -> Cand.isCard c = true ->
        node_of c' ∉ subtree_paths (Cand.element c))
  ∧ (forall c c' q,
        c ∈ rawElements -> c' ∈ rawElements ->
        Btn.buttonElement (Cand.buttonInfo c) = Some q ->
        node_of c' = q -> c' = c)
  ∧ (forall element child k,
        Dom.tagName (Dom.h_el element) ≠ "BUTTON" ->
        Dom.tagName (Dom.h_el element) ≠ "A" ->
        Dom.ElementNode child k ∈ Dom.h_kids element ->
        shouldSkipElement child = false ->
        getExactVisibleText element = "").
Proof.
  intros Hpf. destruct (page_function_collect _ _ Hpf) as (st & Hc & Hperm).
  destruct (collect_consistent _ _ Hc) as [[_ Hnd Hat Hbt _] _].
  split; [by rewrite Hperm|].
  split; [intros c c'; rewrite !Hperm; apply Hat|].
  split; [intros c c' q; rewrite !Hperm; apply Hbt|].
  apply container_text_empty.
Qed.

(** C2, on the code: the tracking is by node, and a link or a button
    gives its whole [textContent] (scraper.js 207-210) while the walker
    still enters it.  [page_link] renders its text once, in a [span]
    inside a link: the link and the [span] are both candidates, the run
    has two sections with the same text, and the check of the test suite
    for duplicate content (test 4) fails on its result. *)
Theorem C2_text_rendered_once_found_twice :
  Dom.textContent_node page_link = "Get your free quote today"
  ∧ map Cand.tag (elements_of page_link) = ["a"; "span"]
  ∧ map Sec.text (Res.sections (returned (run_on page_link)))
    = ["Get your free quote today"; "Get your free quote today"]
  ∧ noDuplicateContent (Res.sections (returned (run_on page_link))) = false.
Proof. repeat split; vm_compute; reflexivity. Qed.

(** C4 (as amended): an element matched by the card selector is promoted
    exactly when it is not skip-eligible, has a heading descendant, a
    [p], [span] or [div] descendant, at least two child elements and at
    least four words of text, and has not been consumed by the promotion
    of another card (it lies in no promoted card's subtree and is no
    promoted card's button).  A promoted card is tagged [card], is the
    only candidate of its node, and neither a descendant of it nor its
    button is another candidate. *)
Theorem C4_card_promotion root rawElements :
  page_function root = Ok rawElements ->
  (forall card,
      card ∈ Dom.querySelectorAll Dom.sel_card root ->
      promoted rawElements card
      <-> card_conditions card = true ∧ ¬ consumed_by_another rawElements card)
  ∧ NoDup (node_of <$> rawElements)
  ∧ (forall c,
        c ∈ rawElements -> Cand.isCard c = true ->
        Cand.tag c = "card"
        ∧ (forall c', c' ∈ rawElements -> node_of c' ∉ subtree_paths (Cand.element c))
        ∧ (forall c', c' ∈ rawElements ->
             Btn.buttonElement (Cand.buttonInfo c) = Some (node_of c') -> c' = c)).
Proof.
  intros Hpf. destruct (page_function_collect _ _ Hpf) as (st & Hc & Hperm).
  destruct (collect_consistent _ _ Hc) as [[_ Hnd Hat Hbt Hcs] Hdone].
  split; [|split; [by rewrite Hperm|]].
  - intros card Hcard. unfold promoted, consumed_by_another. split.
    + intros (c & Hin & Hcard_c & Hel). rewrite Hperm in Hin. split.
      * rewrite <- Hel. by apply Hcs.
      * intros (c2 & Hin2 & Hc2 & Hne & Hcl). rewrite Hperm in Hin2.
        apply elem_of_claimed in Hcl as [Heq | [[_ Hsub] | Hbutton]].
        -- by apply Hne.
        -- apply (Hat c2 c Hin2 Hin Hc2). unfold node_of. by rewrite Hel.
        -- apply Hne.
           assert (Heq : c = c2).
           { apply (Hbt c2 c _ Hin2 Hin Hbutton). unfold node_of. by rewrite Hel. }
           rewrite <- Heq. unfold node_of. by rewrite Hel.
    + intros [Hcond Hfree].
      destruct (Hdone card Hcard Hcond) as [(c & Hin & Hp) | (c & Hin & H)].
      * exists c. by rewrite Hperm.
      * exfalso. apply Hfree. exists c. by rewrite Hperm.
  - intros c Hin Hcard. rewrite Hperm in Hin.
    split; [by apply Hcs|]. split.
    + intros c'. rewrite Hperm. intros Hin'. by apply Hat.
    + intros c'. rewrite Hperm. intros Hin' Hq. by eapply Hbt.
Qed.

Lemma C4_card_promotion_witness :
  exists card,
    Dom.querySelectorAll Dom.sel_card page_nested !! 0%nat = Some card
    ∧ promoted (elements_of page_nested) card.
Proof.
  eexists. split; [vm_compute; reflexivity|].
  assert (H : page_function page_nested = Ok (elements_of page_nested))
    by (vm_compute; reflexivity).
  apply (proj1 (C4_card_promotion _ _ H)).
  - apply list_elem_of_lookup. exists 0%nat. vm_compute. reflexivity.
  - split; [vm_compute; reflexivity|].
    intros (c & Hin & _ & Hne & _).
    assert (Hels : exists c0, elements_of page_nested = [c0]
                             ∧ node_of c0 = [0; 1]%nat).
    { eexists. split; vm_compute; reflexivity. }
    destruct Hels as (c0 & Hels & Hnode). rewrite Hels in Hin.
    apply list_elem_of_singleton in Hin. subst c. exact (Hne Hnode).
Defined.

(** C4, as stated, fails: on [page_nested] the inner element matches the
    card selector, is not skip-eligible, has a heading, a paragraph, two
    children and six words, and it is not promoted, because the promotion
    of the card around it consumed it. *)
Lemma C4_counterexample :
  exists rawElements inner,
    page_function page_nested = Ok rawElements
    ∧ Dom.querySelectorAll Dom.sel_card page_nested !! 1%nat = Some inner
    ∧ card_conditions inner = true
    ∧ ¬ promoted rawElements inner.
Proof.
  eexists _, _. split; [vm_compute; reflexivity|].
  split; [vm_compute; reflexivity|].
  split; [vm_compute; reflexivity|].
  intros (c & Hin & _ & Hel).
  apply list_elem_of_singleton in Hin. subst c.
  apply (f_equal Dom.h_path) in Hel. vm_compute in Hel. discriminate.
Qed.

(** ** The locator *)

Lemma children_path h k :
  k ∈ Dom.children h -> exists i, Dom.h_path k = i :: Dom.h_path h.
Proof.
  unfold Dom.children. intros (j & c & _ & Hk)%flat_mapi_elem.
  destruct c as [d|d|e cs]; simpl in Hk; try by apply elem_of_nil in Hk.
  apply list_elem_of_singleton in Hk. subst. by eexists.
Qed.

Lemma document_body_path root b :
  Dom.document_body root = Some b -> Dom.h_path b ≠ [].
Proof.
  unfold Dom.document_body. destruct (Dom.as_handle [] root) as [h|]; [|done].
  intros Hhead. apply head_Some_elem_of, list_elem_of_filter in Hhead as [_ Hb].
  destruct (children_path _ _ Hb) as [i ->]. done.
Qed.

Lemma append_nonempty_r (a b : string) : b ≠ "" -> a +:+ b ≠ "".
Proof. destruct a; [done|]. by rewrite append_cons. Qed.

(** A locator is never the empty string. *)
Lemma getXPath_nonempty root body p s :
  getXPath root body p = Ok s -> s ≠ "".
Proof.
  destruct p as [|i parent]; simpl;
    destruct (Dom.handle_at root _) as [element|]; try done;
    destruct (Js.truthy _); try (intros [= <-]; done);
    case_bool_decide; try (intros [= <-]; done); try done.
  destruct (getXPath root body parent) as [up|]; simpl; [|done].
  intros [= <-]. apply append_nonempty_r. done.
Qed.

(** At the edge of the document the recursion reaches the document node,
    whose parent is [null]. *)
Lemma getXPath_root_edge root body p :
  root_edge root body p = true -> getXPath root body p = Throw null_childNodes.
Proof.
  induction p as [|i parent IH]; simpl;
    destruct (Dom.handle_at root _) as [element|]; try done;
    rewrite !andb_true_iff; intros [[Hid Hbody] Hup];
    unfold Js.truthy; rewrite Hid; cbn [negb];
    apply negb_true_iff in Hbody; rewrite Hbody; [done|].
  by rewrite (IH Hup).
Qed.

Lemma handle_at_parent root i parent h :
  Dom.handle_at root (i :: parent) = Some h ->
  exists h', Dom.handle_at root parent = Some h'.
Proof.
  unfold Dom.handle_at. simpl.
  destruct (Dom.node_at root parent) as [[d|d|e cs]|]; simpl; try done.
  by eexists.
Qed.

(** Below the body every element has a locator. *)
Lemma getXPath_below_body_ok root body k : forall h,
  Dom.handle_at root (k ++ body)%list = Some h ->
  exists s, getXPath root (Some body) (k ++ body)%list = Ok s.
Proof.
  induction k as [|i k IH]; intros h Hh.
  - simpl in *. destruct body as [|j body]; simpl; rewrite Hh;
      destruct (Js.truthy _); eauto; by rewrite bool_decide_eq_true_2; eauto.
  - destruct (handle_at_parent _ _ _ _ Hh) as [h' Hh'].
    destruct (IH h' Hh') as [up Hup].
    change ((i :: k) ++ body)%list with (i :: (k ++ body))%list in *.
    cbn [getXPath]. rewrite Hh.
    destruct (Js.truthy _); [eauto|].
    case_bool_decide; [eauto|]. rewrite Hup. simpl. eauto.
Qed.

Lemma root_edge_root e kids :
  Dom.id e = "" ->
  root_edge (Dom.ElementNode e kids)
            (Dom.h_path <$> Dom.document_body (Dom.ElementNode e kids)) [] = true.
Proof.
  intros Hid. simpl. rewrite Hid. simpl.
  rewrite bool_decide_eq_false_2; [done|].
  destruct (Dom.document_body (Dom.ElementNode e kids)) as [b|] eqn:Hb; [|done].
  intros [= Hp]. by apply document_body_path in Hb.
Qed.

Lemma card_step_throws root body st card e :
  card_conditions card = true ->
  Dom.h_path card ∉ processedNodes st ->
  getXPath root body (Dom.h_path card) = Throw e ->
  card_step root body st card = Throw e.
Proof.
  unfold card_conditions. rewrite !andb_true_iff.
  intros [[[[[Hsel Hskip] Hh] Ht] Hm] Hw] Hfresh Hx.
  unfold card_step. rewrite isCardContainer_eq, (sel_card_hasCardClass _ Hsel).
  apply negb_true_iff in Hskip. rewrite Hskip, Hh, Ht, Hm.
  fold (card_text card). rewrite Hw, Hx.
  by rewrite bool_decide_eq_false_2.
Qed.

(** C9 (as amended): locator construction never yields the empty string.
    For an element at the edge of the document (no [id] and no body on the
    way up to the document node, such as the root element without an
    [id]) it throws, while every element below the body gets a locator.
    When the root element has no [id] and is a card container that is
    promoted, the exception ends the in-page function, and
    [scrapeWebsite], on a browser in which everything else succeeds,
    returns a result without sections and with that error recorded. *)
Theorem C9_locator_at_root root body p :
  (forall s, getXPath root body p = Ok s -> s ≠ "")
  ∧ (root_edge root body p = true -> getXPath root body p = Throw null_childNodes)
  ∧ (forall k b h,
        body = Some b -> p = (k ++ b)%list -> Dom.handle_at root p = Some h ->
        exists s, getXPath root body p = Ok s)
  ∧ (forall e kids,
        root = Dom.ElementNode e kids ->
        Dom.id e = "" ->
        card_conditions (Dom.at_ [] e kids) = true ->
        page_function root = Throw null_childNodes
        ∧ forall url counter,
            exists results counter',
              scrapeWebsite (showing root) url counter = (Ok results, counter')
              ∧ Res.sections results = []
              ∧ Res.errors results = [error_record null_childNodes]).
Proof.
  split; [intros s; apply getXPath_nonempty|].
  split; [apply getXPath_root_edge|].
  split.
  { intros k b h -> -> Hh. by eapply getXPath_below_body_ok. }
  intros e kids -> Hid Hcond.
  set (root := Dom.ElementNode e kids).
  assert (Hpf : page_function root = Throw null_childNodes).
  { unfold page_function, collect, Dom.querySelectorAll, Dom.all_elements.
    cbn [root Dom.as_handle]. rewrite filter_cons.
    assert (Hsel : Dom.sel_card e = true).
    { unfold card_conditions in Hcond. rewrite !andb_true_iff in Hcond. tauto. }
    rewrite decide_True by exact Hsel. cbn [for_each].
    rewrite (card_step_throws _ _ _ _ null_childNodes Hcond);
      [reflexivity|set_solver|].
    by apply getXPath_root_edge, root_edge_root. }
  split; [exact Hpf|].
  intros url counter.
  destruct (scrapeWebsite (showing root) url counter) as [[results|x] counter'] eqn:Hrun.
  - exists results, counter'. split; [reflexivity|].
    pose proof (scrapeWebsite_returned _ _ _ _ _ Hrun) as H.
    unfold first_fault in H. cbn [showing navigate pageTitle autoScroll document] in H.
    unfold mbind at 1, outcome_bind at 1 in H. rewrite Hpf in H. tauto.
  - exfalso. unfold scrapeWebsite in Hrun. cbn [showing newPage closePage] in Hrun.
    destruct (try_block _ _ _) as [[c r] k]. done.
Qed.

Lemma C9_locator_at_root_witness :
  getXPath page_root_card (Dom.h_path <$> Dom.document_body page_root_card) []
  = Throw null_childNodes
  ∧ page_function page_root_card = Throw null_childNodes.
Proof.
  pose proof (C9_locator_at_root page_root_card
                (Dom.h_path <$> Dom.document_body page_root_card) [])
    as (_ & Hedge & _ & Hcard).
  split; [apply Hedge; vm_compute; reflexivity|].
  refine (proj1 (Hcard _ _ eq_refl eq_refl _)). vm_compute. reflexivity.
Defined.

(** C9, as stated, fails: on [page_root_card] the locator of the root
    element is not the empty string, locator construction throws, and the
    extraction pass fails: no candidate is returned. *)
Lemma C9_counterexample :
  getXPath page_root_card (Dom.h_path <$> Dom.document_body page_root_card) []
  = Throw null_childNodes
  ∧ page_function page_root_card = Throw null_childNodes
  ∧ Res.sections
      (returned (scrapeWebsite (showing page_root_card) "https://example.org"
                               fresh_counter)) = [].
Proof. repeat split; vm_compute; reflexivity. Qed.

(** ** The button associator *)

(** C10: when the button found for an element is not yet consumed and its
    normalized text is empty, [findAssociatedButton] returns [hasButton]
    true with [buttonText] null; and there is a page whose run produces a
    section with [hasButton] true and [buttonText] null. *)
Theorem C10_button_without_text :
  (forall root processedNodes element button,
      find_button root element = Some button ->
      Dom.h_path button ∉ processedNodes ->
      normalizeSpaces
        (Js.or_else (Dom.innerText (Dom.h_el button))
                    (Js.or_else (Dom.textContent button) "")) = "" ->
      findAssociatedButton root processedNodes element
      = Btn.mk true None (Some (Dom.h_path button)))
  ∧ (exists root results counter' s,
        scrapeWebsite (showing root) "https://example.org" fresh_counter
        = (Ok results, counter')
        ∧ s ∈ Res.sections results
        ∧ Sec.hasButton s = true
        ∧ Sec.buttonText s = None).
Proof.
  split.
  - intros root pn element button Hfind Hfresh Htext.
    unfold findAssociatedButton. rewrite Hfind.
    rewrite bool_decide_eq_false_2 by exact Hfresh. by rewrite Htext.
  - exists page_empty_button. eexists _, _, _.
    split; [vm_compute; reflexivity|].
    split; [apply list_elem_of_singleton; reflexivity|].
    split; reflexivity.
Qed.

Lemma C10_button_without_text_witness :
  exists element button,
    Dom.handle_at page_empty_button [0; 1]%nat = Some element
    ∧ find_button page_empty_button element = Some button
    ∧ findAssociatedButton page_empty_button ∅ element
      = Btn.mk true None (Some (Dom.h_path button)).
Proof.
  eexists _, _. split; [vm_compute; reflexivity|].
  split; [vm_compute; reflexivity|].
  apply (proj1 C10_button_without_text).
  - vm_compute. reflexivity.
  - set_solver.
  - vm_compute. reflexivity.
Defined.

Lemma C5_heading_group_witness :
  map Group.combinedText (groupRelatedContent (elements_of page_gap))
  = ["Why choose us Licensed and insured crews"; "Call us any time today"].
Proof.
  destruct (elements_of page_gap) as [|heading [|a [|b rest]]] eqn:E;
    try (vm_compute in E; discriminate).
  vm_compute in E. inversion E; subst heading a b rest.
  match goal with
  | |- context [groupRelatedContent (?h :: ?a :: ?b :: ?r)] =>
      rewrite (proj1 (proj2 (C5_heading_group h (a :: b :: r) eq_refl eq_refl)
                            a b r eq_refl eq_refl eq_refl eq_refl eq_refl))
  end.
  vm_compute. reflexivity.
Defined.




(** * Further properties *)

(** ** White space *)

Lemma is_blank_is_ws c : Js.is_blank c = true -> Js.is_ws c = true.
Proof.
  unfold Js.is_blank, Js.is_ws. intros H.
  apply orb_true_iff in H as [H|H]; apply Nat.eqb_eq in H; rewrite H; reflexivity.
Qed.

Lemma is_empty_true s : Js.is_empty s = true -> s = "".
Proof. by destruct s. Qed.

Lemma trim_end_empty s : Js.is_empty (Js.trim_end s) = negb (has_nonws s).
Proof.
  induction s as [|c s IH]; [done|]. simpl. rewrite IH.
  destruct (Js.is_ws c), (has_nonws s); reflexivity.
Qed.

Lemma trim_end_nonws s : has_nonws (Js.trim_end s) = has_nonws s.
Proof.
  induction s as [|c s IH]; [done|]. simpl. rewrite trim_end_empty.
  destruct (Js.is_ws c) eqn:Hc, (has_nonws s) eqn:Hs; simpl; rewrite ?Hc, ?IH; done.
Qed.

Lemma trim_start_nonws s : has_nonws (Js.trim_start s) = has_nonws s.
Proof.
  induction s as [|c s IH]; [done|]. simpl.
  destruct (Js.is_ws c) eqn:Hc; simpl; rewrite ?Hc; done.
Qed.

Lemma trim_nonws s : has_nonws (Js.trim s) = has_nonws s.
Proof. unfold Js.trim. by rewrite trim_end_nonws, trim_start_nonws. Qed.

Lemma trim_truthy s : Js.truthy (Js.trim s) = has_nonws s.
Proof.
  unfold Js.truthy, Js.trim.
  by rewrite trim_end_empty, trim_start_nonws, negb_involutive.
Qed.

Lemma has_nonws_truthy s : has_nonws s = true -> Js.truthy s = true.
Proof. by destruct s. Qed.

Lemma has_nonws_append a b : has_nonws (a +:+ b) = has_nonws a || has_nonws b.
Proof.
  induction a as [|c a IH]; [done|].
  rewrite append_cons. simpl. rewrite IH. by rewrite orb_assoc.
Qed.

Lemma trim_end_idempotent s : Js.trim_end (Js.trim_end s) = Js.trim_end s.
Proof.
  induction s as [|c s IH]; [done|]. simpl.
  destruct (Js.is_ws c && Js.is_empty (Js.trim_end s)) eqn:Hc; [done|].
  simpl. rewrite IH, Hc. reflexivity.
Qed.

Lemma trim_start_trim_end s :
  Js.trim_start (Js.trim_end (Js.trim_start s)) = Js.trim_end (Js.trim_start s).
Proof.
  induction s as [|c s IH]; [done|]. simpl.
  destruct (Js.is_ws c) eqn:Hc; [exact IH|].
  simpl. rewrite Hc. simpl. by rewrite Hc.
Qed.

Lemma trim_idempotent s : Js.trim (Js.trim s) = Js.trim s.
Proof. unfold Js.trim. by rewrite trim_start_trim_end, trim_end_idempotent. Qed.

Lemma tidy_weaken r s : tidy r s = true -> tidy false s = true.
Proof.
  destruct s as [|c s]; [done|]. simpl.
  destruct (Js.is_blank c); [|done]. destruct r; [done|]. done.
Qed.

Lemma collapse_tidy r s : tidy r (Js.collapse_blanks r s) = true.
Proof.
  revert r. induction s as [|c s IH]; intros r; [done|]. simpl.
  destruct (Js.is_blank c) eqn:Hc.
  - destruct r; [apply IH|]. simpl. by rewrite IH.
  - simpl. rewrite Hc. apply IH.
Qed.

Lemma tidy_collapse r s : tidy r s = true -> Js.collapse_blanks r s = s.
Proof.
  revert r. induction s as [|c s IH]; intros r; [done|]. simpl.
  destruct (Js.is_blank c) eqn:Hc.
  - rewrite !andb_true_iff. intros [[Hr Hsp] Ht].
    destruct r; [done|]. apply Ascii.eqb_eq in Hsp. subst c.
    by rewrite (IH true Ht).
  - intros Ht. by rewrite (IH false Ht).
Qed.

Lemma tidy_trim_start r s : tidy r s = true -> tidy false (Js.trim_start s) = true.
Proof.
  revert r. induction s as [|c s IH]; intros r; [done|]. simpl.
  destruct (Js.is_ws c) eqn:Hws.
  - destruct (Js.is_blank c); [|apply IH].
    rewrite !andb_true_iff. intros [_ Ht]. by apply (IH true).
  - destruct (Js.is_blank c) eqn:Hb; [by rewrite (is_blank_is_ws _ Hb) in Hws|].
    intros Ht. simpl. by rewrite Hb.
Qed.

Lemma tidy_trim_end r s : tidy r s = true -> tidy r (Js.trim_end s) = true.
Proof.
  revert r. induction s as [|c s IH]; intros r; [done|]. simpl.
  destruct (Js.is_ws c && Js.is_empty (Js.trim_end s)); [done|]. simpl.
  destruct (Js.is_blank c).
  - rewrite !andb_true_iff. intros [Hc Ht]. split; [done|]. by apply IH.
  - apply IH.
Qed.

(** White space and words: [countWords] counts the word starts. *)
Lemma is_empty_snoc cur c : Js.is_empty (cur +:+ String c "") = false.
Proof. by destruct cur. Qed.

Lemma split_ws_count s : forall cur in_ws,
  (Js.is_empty cur = false -> in_ws = false) ->
  length (filter (fun word => (0 <? String.length word)%nat = true)
                 (Js.split_ws_from cur in_ws s))
  = if Js.is_empty cur then word_starts true s else S (word_starts false s).
Proof.
  induction s as [|c s IH]; intros cur in_ws Hstate.
  - simpl. rewrite filter_cons, filter_nil.
    destruct cur; [rewrite decide_False by done|rewrite decide_True by done]; done.
  - simpl. destruct (Js.is_ws c) eqn:Hc.
    + destruct in_ws.
      * rewrite (IH cur true Hstate).
        destruct (Js.is_empty cur) eqn:Hcur; [reflexivity|by specialize (Hstate eq_refl)].
      * rewrite filter_cons.
        destruct cur as [|x cur]; [rewrite decide_False by done|rewrite decide_True by done];
          cbn [length]; by rewrite (IH "" true).
    + rewrite (IH (cur +:+ String c "") false) by done.
      rewrite is_empty_snoc. by destruct (Js.is_empty cur).
Qed.

Lemma countWords_word_starts s : countWords s = word_starts true s.
Proof. unfold countWords, Js.split_ws. by rewrite split_ws_count. Qed.

Lemma word_starts_collapse s : forall a r,
  (r = true -> a = true) ->
  word_starts a (Js.collapse_blanks r s) = word_starts a s.
Proof.
  induction s as [|c s IH]; intros a r Hra; [done|]. simpl.
  destruct (Js.is_blank c) eqn:Hb.
  - rewrite (is_blank_is_ws _ Hb).
    destruct r; [rewrite (Hra eq_refl); by apply IH|].
    simpl. by apply IH.
  - simpl. destruct (Js.is_ws c); by rewrite IH.
Qed.

Lemma word_starts_trim_start s :
  word_starts true (Js.trim_start s) = word_starts true s.
Proof.
  induction s as [|c s IH]; [done|]. simpl.
  destruct (Js.is_ws c) eqn:Hc; [exact IH|]. simpl. by rewrite Hc.
Qed.

Lemma word_starts_trim_end s : forall a,
  word_starts a (Js.trim_end s) = word_starts a s.
Proof.
  induction s as [|c s IH]; intros a; [done|]. simpl.
  destruct (Js.is_ws c) eqn:Hc; simpl.
  - destruct (Js.is_empty (Js.trim_end s)) eqn:He; simpl.
    + rewrite <- (IH true), (is_empty_true _ He). reflexivity.
    + rewrite Hc. apply IH.
  - rewrite Hc. by rewrite IH.
Qed.

Lemma word_starts_none s a : has_nonws s = false -> word_starts a s = 0%nat.
Proof.
  revert a. induction s as [|c s IH]; intros a; [done|]. simpl.
  destruct (Js.is_ws c); simpl; [apply IH|done].
Qed.

Lemma countWords_has_nonws s : (1 <= countWords s)%nat -> has_nonws s = true.
Proof.
  rewrite countWords_word_starts. intros H.
  destruct (has_nonws s) eqn:Hs; [done|].
  rewrite (word_starts_none _ _ Hs) in H. lia.
Qed.

Lemma normalizeSpaces_unfold s :
  normalizeSpaces s = Js.trim (Js.collapse_blanks false s).
Proof. by destruct s. Qed.

Lemma normalizeSpaces_truthy s :
  Js.truthy (normalizeSpaces s) = has_nonws (normalizeSpaces s).
Proof. rewrite normalizeSpaces_unfold. by rewrite trim_truthy, trim_nonws. Qed.

Lemma non_ws_none s : has_nonws s = false -> non_ws s = "".
Proof.
  induction s as [|c s IH]; [done|]. simpl.
  destruct (Js.is_ws c); simpl; [exact IH|done].
Qed.

Lemma non_ws_collapse s : forall r, non_ws (Js.collapse_blanks r s) = non_ws s.
Proof.
  induction s as [|c s IH]; intros r; [done|]. simpl.
  destruct (Js.is_blank c) eqn:Hb.
  - rewrite (is_blank_is_ws _ Hb). destruct r; [apply IH|]. simpl. apply IH.
  - simpl. destruct (Js.is_ws c); by rewrite IH.
Qed.

Lemma non_ws_trim_start s : non_ws (Js.trim_start s) = non_ws s.
Proof.
  induction s as [|c s IH]; [done|]. simpl.
  destruct (Js.is_ws c) eqn:Hc; [exact IH|]. simpl. by rewrite Hc.
Qed.

Lemma non_ws_trim_end s : non_ws (Js.trim_end s) = non_ws s.
Proof.
  induction s as [|c s IH]; [done|]. simpl.
  destruct (Js.is_ws c) eqn:Hc; simpl.
  - destruct (Js.is_empty (Js.trim_end s)) eqn:He; simpl.
    + rewrite <- IH, (is_empty_true _ He). reflexivity.
    + by rewrite Hc.
  - by rewrite Hc, IH.
Qed.

Lemma normalizeSpaces_tidy s : tidy false (normalizeSpaces s) = true.
Proof.
  rewrite normalizeSpaces_unfold. unfold Js.trim.
  apply tidy_trim_end. eapply tidy_trim_start. apply (collapse_tidy false).
Qed.

Lemma normalizeSpaces_trimmed s : Js.trim (normalizeSpaces s) = normalizeSpaces s.
Proof. rewrite normalizeSpaces_unfold. apply trim_idempotent. Qed.

Lemma normalizeSpaces_again s :
  normalizeSpaces (normalizeSpaces s) = normalizeSpaces s.
Proof.
  rewrite (normalizeSpaces_unfold (normalizeSpaces s)).
  rewrite (tidy_collapse _ _ (normalizeSpaces_tidy s)).
  apply normalizeSpaces_trimmed.
Qed.

(** X1: [normalizeSpaces] gives a normal form.  Normalizing again changes
    nothing; the result has no white space at either end, no tab, and no
    two spaces in a row. *)
Theorem X1_normalizeSpaces_normal_form s :
  normalizeSpaces (normalizeSpaces s) = normalizeSpaces s
  ∧ Js.trim (normalizeSpaces s) = normalizeSpaces s
  ∧ tidy false (normalizeSpaces s) = true.
Proof.
  split; [apply normalizeSpaces_again|].
  split; [apply normalizeSpaces_trimmed | apply normalizeSpaces_tidy].
Qed.

(** X2: [normalizeSpaces] touches white space only.  The characters that
    are not white space stay as they are and in order, and the number of
    words [countWords] finds is the same before and after. *)
Theorem X2_normalizeSpaces_keeps_words s :
  non_ws (normalizeSpaces s) = non_ws s
  ∧ countWords (normalizeSpaces s) = countWords s.
Proof.
  rewrite normalizeSpaces_unfold. unfold Js.trim. split.
  - by rewrite non_ws_trim_end, non_ws_trim_start, non_ws_collapse.
  - rewrite !countWords_word_starts.
    rewrite word_starts_trim_end, word_starts_trim_start.
    by apply word_starts_collapse.
Qed.

(** ** Groups *)

Lemma absorbed_spec prev rest :
  (absorbed prev rest ++ drop (length (absorbed prev rest)) rest)%list = rest
  ∧ Forall (fun m => Cand.isHeading m = false ∧ Cand.isCard m = false)
      (absorbed prev rest)
  ∧ within_gap prev (absorbed prev rest) = true.
Proof.
  revert prev. induction rest as [|next rest IH]; intros prev; simpl; [done|].
  destruct (Cand.isHeading next) eqn:Hh; simpl; [done|].
  destruct (Cand.isCard next) eqn:Hc; simpl; [done|].
  destruct (150 <? _)%Z eqn:Hgap; simpl; [done|].
  destruct (IH next) as (Hsplit & Hnon & Hin).
  split; [by rewrite Hsplit|]. split; [by constructor|].
  by rewrite Z.gtb_ltb, Hgap, Hin.
Qed.

(** Induction along the outer loop of [groupRelatedContent]: each turn
    takes a candidate and the run it absorbs off the front of the array. *)
Lemma groups_ind (Q : list Cand.t -> list Group.t -> Prop) :
  Q [] [] ->
  (forall h ms rest,
     (ms ≠ [] -> Cand.isHeading h = true ∧ Cand.isCard h = false) ->
     Forall (fun m => Cand.isHeading m = false ∧ Cand.isCard m = false) ms ->
     within_gap h ms = true ->
     Q rest (groupRelatedContent rest) ->
     Q (h :: ms ++ rest)%list
       (push_group (heading_group h ms) ++ groupRelatedContent rest)%list) ->
  forall els, Q els (groupRelatedContent els).
Proof.
  intros Hnil Hstep els.
  remember (length els) as n eqn:Hn. revert els Hn.
  induction n as [n IH] using lt_wf_ind. intros [|h rest] Hn; [exact Hnil|].
  rewrite groupRelatedContent_cons. simpl in Hn.
  destruct (Cand.isHeading h && negb (Cand.isCard h)) eqn:Hh.
  - destruct (absorbed_spec h rest) as (Hsplit & Hnon & Hgap).
    apply andb_true_iff in Hh as [Hh Hc]. apply negb_true_iff in Hc.
    assert (HQ : Q (h :: absorbed h rest
                      ++ drop (length (absorbed h rest)) rest)%list
                   (push_group (heading_group h (absorbed h rest))
                      ++ groupRelatedContent
                           (drop (length (absorbed h rest)) rest))%list).
    { apply Hstep; [done..|].
      eapply IH; [|reflexivity]. rewrite length_drop. lia. }
    by rewrite Hsplit in HQ.
  - apply (Hstep h [] rest); [done| constructor | done |].
    eapply IH; [|reflexivity]. lia.
Qed.

Lemma heading_group_snoc h ms m :
  heading_group h (ms ++ [m]) = add_member (heading_group h ms) m.
Proof. unfold heading_group. by rewrite fold_left_app. Qed.

Lemma heading_group_primary h ms :
  Group.primaryElement (heading_group h ms) = h.
Proof.
  induction ms as [|m ms IH] using rev_ind; [done|].
  by rewrite heading_group_snoc.
Qed.

Lemma heading_group_elements h ms :
  Group.elements (heading_group h ms) = h :: ms.
Proof.
  induction ms as [|m ms IH] using rev_ind; [done|].
  rewrite heading_group_snoc. simpl. by rewrite IH.
Qed.

Lemma heading_group_hasButton h ms :
  Group.hasButton (heading_group h ms) = existsb with_button (h :: ms).
Proof.
  induction ms as [|m ms IH] using rev_ind.
  - simpl. by rewrite orb_false_r.
  - rewrite heading_group_snoc, app_comm_cons, existsb_app, <- IH.
    simpl. unfold with_button.
    destruct (Btn.hasButton (Cand.buttonInfo m)); simpl.
    + by rewrite orb_true_r.
    + by rewrite !orb_false_r.
Qed.

Lemma heading_group_buttonText h ms :
  Group.buttonText (heading_group h ms)
  = match last (filter (fun c => with_button c = true) (h :: ms)) with
    | Some m => Btn.buttonText (Cand.buttonInfo m)
    | None => Btn.buttonText (Cand.buttonInfo h)
    end.
Proof.
  induction ms as [|m ms IH] using rev_ind.
  - rewrite filter_cons. by destruct (decide _).
  - rewrite heading_group_snoc, app_comm_cons, filter_app.
    simpl Group.buttonText. fold (with_button m).
    rewrite (filter_cons _ m), filter_nil.
    destruct (with_button m) eqn:Hm.
    + rewrite decide_True by done. by rewrite last_snoc.
    + rewrite decide_False by done. by rewrite app_nil_r.
Qed.

Lemma join_truthy sep x l :
  Js.truthy x = true -> Js.truthy (Js.join sep (x :: l)) = true.
Proof. destruct x; [done|]. by destruct l. Qed.

Lemma join_snoc sep x l y :
  Js.join sep ((x :: l) ++ [y]) = Js.join sep (x :: l) +:+ sep +:+ y.
Proof.
  revert x. induction l as [|z l IH]; intros x; [done|].
  change (Js.join sep ((x :: z :: l) ++ [y]))
    with (x +:+ sep +:+ Js.join sep ((z :: l) ++ [y])).
  rewrite IH.
  change (Js.join sep (x :: z :: l)) with (x +:+ sep +:+ Js.join sep (z :: l)).
  by rewrite !append_assoc.
Qed.

Lemma heading_group_text h ms :
  Group.combinedText (heading_group h ms)
  = if Js.truthy (Cand.text h)
    then Js.join " " (Cand.text h
                        :: filter (fun t => Js.truthy t = true) (Cand.text <$> ms))
    else "".
Proof.
  induction ms as [|m ms IH] using rev_ind.
  - simpl. by destruct (Cand.text h).
  - rewrite heading_group_snoc. simpl Group.combinedText. rewrite IH.
    rewrite fmap_app, filter_app. simpl fmap.
    rewrite (filter_cons _ (Cand.text m)), filter_nil.
    destruct (Js.truthy (Cand.text h)) eqn:Hh; [|done].
    rewrite (join_truthy _ _ _ Hh). simpl andb.
    destruct (Js.truthy (Cand.text m)) eqn:Hm.
    + rewrite decide_True by done. by rewrite app_comm_cons, join_snoc.
    + rewrite decide_False by done. by rewrite app_nil_r.
Qed.

Lemma has_content_nonws g : has_content g = has_nonws (Group.combinedText g).
Proof.
  unfold has_content. rewrite trim_truthy.
  destruct (has_nonws (Group.combinedText g)) eqn:H.
  - by rewrite (has_nonws_truthy _ H).
  - apply andb_false_r.
Qed.

Lemma push_group_elem g g' : g ∈ push_group g' -> g = g' ∧ has_content g = true.
Proof.
  unfold push_group. destruct (has_content g') eqn:H.
  - by intros ->%list_elem_of_singleton.
  - by intros ?%elem_of_nil.
Qed.

(** X3: the groups are runs of the input.  Every group of
    [groupRelatedContent] holds its primary element followed by the
    candidates that came right after it in the array; there are such
    followers only when the primary element is a heading that is not a
    card, none of them is a heading or a card, and none starts more than
    150 pixels below the bottom of its predecessor.  The group's text
    has a character that is not white space. *)
Theorem X3_groups_are_runs els g :
  g ∈ groupRelatedContent els ->
  exists before members after,
    els = (before ++ Group.primaryElement g :: members ++ after)%list
    ∧ Group.elements g = Group.primaryElement g :: members
    ∧ (members ≠ [] ->
       Cand.isHeading (Group.primaryElement g) = true
       ∧ Cand.isCard (Group.primaryElement g) = false)
    ∧ Forall (fun m => Cand.isHeading m = false ∧ Cand.isCard m = false) members
    ∧ within_gap (Group.primaryElement g) members = true
    ∧ has_nonws (Group.combinedText g) = true.
Proof.
  revert g. pattern els, (groupRelatedContent els). apply groups_ind.
  - by intros g ?%elem_of_nil.
  - intros h ms rest Hhead Hnon Hgap IH g [Hg | Hg]%elem_of_app.
    + apply push_group_elem in Hg as [-> Hc].
      rewrite has_content_nonws in Hc.
      rewrite heading_group_primary, heading_group_elements.
      by exists [], ms, rest.
    + destruct (IH g Hg) as (pre & ms' & post & -> & Hrest).
      exists (h :: ms ++ pre)%list, ms', post. split; [|exact Hrest].
      rewrite <- app_comm_cons. f_equal. by rewrite <- app_assoc.
Qed.

(** X4: what a group says about text and buttons.  For every group of
    [groupRelatedContent], the text is the non-empty texts of its
    elements joined by single spaces; [hasButton] tells whether some
    element has a button; and [buttonText] is that of the last element
    with a button (that of the primary element when none has one). *)
Theorem X4_group_summary els g :
  g ∈ groupRelatedContent els ->
  Group.combinedText g
  = Js.join " " (filter (fun t => Js.truthy t = true)
                   (Cand.text <$> Group.elements g))
  ∧ Group.hasButton g = existsb with_button (Group.elements g)
  ∧ Group.buttonText g
    = match last (filter (fun c => with_button c = true) (Group.elements g)) with
      | Some m => Btn.buttonText (Cand.buttonInfo m)
      | None => Btn.buttonText (Cand.buttonInfo (Group.primaryElement g))
      end.
Proof.
  revert g. pattern els, (groupRelatedContent els). apply groups_ind.
  - by intros g ?%elem_of_nil.
  - intros h ms rest _ _ _ IH g [Hg | Hg]%elem_of_app; [|by apply IH].
    apply push_group_elem in Hg as [-> Hc].
    rewrite heading_group_primary, heading_group_elements.
    split; [|split].
    + rewrite has_content_nonws in Hc. apply has_nonws_truthy in Hc.
      rewrite heading_group_text in *.
      destruct (Js.truthy (Cand.text h)) eqn:Hh; [|done].
      rewrite fmap_cons, filter_cons. by rewrite decide_True by done.
    + apply heading_group_hasButton.
    + apply heading_group_buttonText.
Qed.

(** X5: grouping loses no candidate whose text shows something.  When
    every candidate's text has a character that is not white space, the
    element lists of the groups, one after the other, are the input
    array: every candidate is in exactly one group and the order is
    kept. *)
Theorem X5_groups_partition els :
  Forall (fun c => has_nonws (Cand.text c) = true) els ->
  concat (Group.elements <$> groupRelatedContent els) = els.
Proof.
  pattern els, (groupRelatedContent els). apply groups_ind; [done|].
  intros h ms rest _ _ _ IH Hall.
  apply Forall_cons in Hall as [Hh Hall].
  apply Forall_app in Hall as [_ Hrest].
  unfold push_group. rewrite has_content_nonws, heading_group_text.
  rewrite (has_nonws_truthy _ Hh).
  assert (Hjoin : forall l, has_nonws (Js.join " " (Cand.text h :: l)) = true).
  { intros [|y l]; [done|].
    change (Js.join " " (Cand.text h :: y :: l))
      with (Cand.text h +:+ " " +:+ Js.join " " (y :: l)).
    by rewrite has_nonws_append, Hh. }
  rewrite Hjoin, fmap_app, concat_app, (IH Hrest).
  rewrite fmap_cons, fmap_nil, concat_cons, concat_nil, app_nil_r.
  by rewrite heading_group_elements.
Qed.

Lemma X5_groups_partition_witness :
  concat (Group.elements <$> groupRelatedContent (elements_of page_gap))
  = elements_of page_gap.
Proof.
  apply X5_groups_partition. vm_compute. repeat constructor.
Defined.

(** ** Candidates *)

Lemma descendants_handle_at root n : forall p h,
  Dom.node_at root p = Some n ->
  h ∈ Dom.descendants p n ->
  Dom.handle_at root (Dom.h_path h) = Some h.
Proof.
  induction n as [d|d|e cs IH] using node_induction; intros p h Hnode;
    [by intros ?%elem_of_nil | by intros ?%elem_of_nil |].
  rewrite descendants_unfold. intros (j & c & Hj & Hh)%flat_mapi_elem.
  simpl in Hh.
  assert (Hc : Dom.node_at root (j :: p) = Some c).
  { simpl. by rewrite Hnode. }
  destruct c as [d|d|e' k]; unfold Dom.block in Hh;
    [by apply elem_of_nil in Hh | by apply elem_of_nil in Hh |].
  apply elem_of_cons in Hh as [-> | Hh].
  - unfold Dom.handle_at. cbn [Dom.h_path]. by rewrite Hc.
  - rewrite Forall_forall in IH.
    exact (IH _ (list_elem_of_lookup_2 _ _ _ Hj) _ _ Hc Hh).
Qed.

Lemma all_elements_handle_at root h :
  h ∈ Dom.all_elements root -> Dom.handle_at root (Dom.h_path h) = Some h.
Proof.
  unfold Dom.all_elements.
  destruct root as [d|d|e cs]; cbn [Dom.as_handle];
    [by intros ?%elem_of_nil | by intros ?%elem_of_nil |].
  intros [-> | Hh]%elem_of_cons; [done|].
  by apply (descendants_handle_at _ (Dom.ElementNode e cs) []).
Qed.

Lemma querySelectorAll_handle_at sel root h :
  h ∈ Dom.querySelectorAll sel root ->
  Dom.handle_at root (Dom.h_path h) = Some h.
Proof.
  unfold Dom.querySelectorAll. intros [_ Hh]%list_elem_of_filter.
  by apply all_elements_handle_at.
Qed.

Lemma document_body_node root b :
  Dom.document_body root = Some b ->
  Dom.node_at root (Dom.h_path b)
  = Some (Dom.ElementNode (Dom.h_el b) (Dom.h_kids b)).
Proof.
  unfold Dom.document_body.
  destruct root as [d|d|e cs]; simpl; [done..|].
  intros Hhead. apply head_Some_elem_of, list_elem_of_filter in Hhead as [_ Hb].
  unfold Dom.children in Hb. apply flat_mapi_elem in Hb as (j & c & Hj & Hb).
  simpl in *.
  destruct c as [d|d|e' k]; simpl in Hb; try by apply elem_of_nil in Hb.
  apply list_elem_of_singleton in Hb. subst b. simpl. exact Hj.
Qed.

Lemma walkable_below root b p :
  walkable root b p = true -> exists k, p = (k ++ b)%list.
Proof.
  induction p as [|i p IH]; simpl.
  - rewrite orb_false_r. intros ->%bool_decide_eq_true. by exists [].
  - intros [->%bool_decide_eq_true | H]%orb_true_iff; [by exists []|].
    destruct (Dom.handle_at root (i :: p)); [|done].
    apply andb_true_iff in H as [_ H]. destruct (IH H) as [k ->].
    by exists (i :: k).
Qed.

Lemma for_each_invariant {A St} (I : St -> Prop) (f : St -> A -> outcome St) l :
  (forall st x st', x ∈ l -> I st -> f st x = Ok st' -> I st') ->
  forall st st', I st -> for_each f l st = Ok st' -> I st'.
Proof.
  induction l as [|x l IH]; intros Hf st st' HI; simpl.
  - by intros [= <-].
  - destruct (f st x) as [st1|] eqn:Hx; simpl; [|done].
    apply IH.
    + intros st0 y st0' Hy. apply Hf. by apply elem_of_cons; right.
    + eapply Hf; [|exact HI|exact Hx]. by apply elem_of_cons; left.
Qed.

Lemma each_child_invariant {St} (I : St -> Prop)
    (f : nat -> Dom.node -> St -> outcome St) cs : forall i st,
  (forall j c st, cs !! j = Some c -> I st ->
     exists st', f (i + j)%nat c st = Ok st' ∧ I st') ->
  I st -> exists st', each_child f i cs st = Ok st' ∧ I st'.
Proof.
  induction cs as [|c cs IH]; intros i st Hf HI; simpl; [eauto|].
  destruct (Hf 0%nat c st eq_refl HI) as (st1 & H1 & HI1).
  rewrite Nat.add_0_r in H1. rewrite H1. simpl.
  apply IH; [|done]. intros j c' st0 Hj HI0.
  replace (S i + j)%nat with (i + S j)%nat by lia. by apply Hf.
Qed.

(** The walk below a node the walker got to: what every visit keeps,
    the walk keeps, and the walk completes when every visit does. *)
Lemma walk_invariant (I : collector -> Prop) root b :
  (forall st node,
     I st ->
     Dom.handle_at root (Dom.h_path node) = Some node ->
     walkable root b (Dom.h_path node) = true ->
     acceptNode st node = true ->
     exists st', visit root (Some b) st node = Ok st' ∧ I st') ->
  forall n p st,
    Dom.node_at root p = Some n ->
    walkable root b p = true ->
    I st ->
    exists st', walk root (Some b) p n st = Ok st' ∧ I st'.
Proof.
  intros Hvisit.
  induction n as [d|d|e cs IH] using node_induction; intros p st Hnode Hp HI;
    [simpl; eauto..|].
  rewrite walk_unfold. apply each_child_invariant; [|done].
  intros j c st0 Hj HI0. rewrite Nat.add_0_l.
  assert (Hc : Dom.node_at root (j :: p) = Some c).
  { simpl. by rewrite Hnode. }
  unfold walk_child. destruct c as [d|d|e' k]; [eauto..|].
  destruct (acceptNode st0 _) eqn:Hacc; [|eauto].
  assert (Hh : Dom.handle_at root (j :: p) = Some (Dom.at_ (j :: p) e' k)).
  { unfold Dom.handle_at. by rewrite Hc. }
  assert (Hw : walkable root b (j :: p) = true).
  { cbn [walkable]. rewrite Hh. cbn [Dom.h_el].
    unfold acceptNode in Hacc.
    apply negb_true_iff, orb_false_iff in Hacc as [Hskip _].
    cbn [Dom.h_el] in Hskip. rewrite Hskip, Hp. apply orb_true_r. }
  destruct (Hvisit st0 (Dom.at_ (j :: p) e' k) HI0 Hh Hw Hacc)
    as (st1 & -> & HI1). simpl.
  rewrite Forall_forall in IH.
  exact (IH _ (list_elem_of_lookup_2 _ _ _ Hj) _ _ Hc Hw HI1).
Qed.

Lemma button_node_elem b q : q ∈ button_node b <-> Btn.buttonElement b = Some q.
Proof.
  unfold button_node. destruct (Btn.buttonElement b) as [q'|].
  - rewrite elem_of_singleton. split; congruence.
  - rewrite elem_of_empty. split; [done | congruence].
Qed.

Lemma sound_empty root b : sound root b (mkCollector [] ∅).
Proof.
  constructor; simpl; [constructor| |constructor].
  intros c q Hc. by apply elem_of_nil in Hc.
Qed.

Lemma sound_add root b st x pn :
  sound root b st ->
  described root b x ->
  (forall q, q ∈ processedNodes st -> q ∈ pn) ->
  (forall q, button_of x = Some q -> (q ∉ processedNodes st) ∧ q ∈ pn) ->
  sound root b (mkCollector (elements st ++ [x]) pn).
Proof.
  intros [Hd Hm Ho] Hx Hsub Hq. constructor; simpl.
  - apply Forall_app. split; [done|]. by constructor.
  - intros c q [Hc | ->%list_elem_of_singleton]%elem_of_app Hb.
    + apply Hsub. by eapply Hm.
    + by apply Hq.
  - rewrite omap_app. apply NoDup_app. split; [done|]. split.
    + intros q (c & Hc & Hb)%list_elem_of_omap Hin.
      simpl in Hin. destruct (button_of x) as [q'|] eqn:Hbx; simpl in Hin.
      * apply list_elem_of_singleton in Hin. subst q'.
        destruct (Hq q eq_refl) as [Hnot _]. apply Hnot. by eapply Hm.
      * by apply elem_of_nil in Hin.
    + simpl. destruct (button_of x); simpl; [apply NoDup_singleton | constructor].
Qed.

Lemma card_step_sound root b st card st' :
  sound root b st ->
  Dom.handle_at root (Dom.h_path card) = Some card ->
  card_step root (Some b) st card = Ok st' ->
  sound root b st'.
Proof.
  intros Hs Hh. unfold card_step.
  destruct (shouldSkipElement (Dom.h_el card)) eqn:Hskip; cbn [orb];
    [by intros [= <-]|].
  case_bool_decide as Hproc; [by intros [= <-]|].
  destruct (isCardContainer card); [|by intros [= <-]].
  fold (card_text card).
  destruct (4 <=? countWords (card_text card))%nat eqn:Hwords; [|by intros [= <-]].
  destruct (getXPath root (Some b) (Dom.h_path card)) as [xpath|] eqn:Hx;
    simpl; [|done].
  intros [= <-]. apply sound_add; [done| | |].
  - constructor; simpl; try done.
    + by eexists.
    + intros _. split; [done|]. split; [done|]. split; [done|].
      by apply Nat.leb_le.
  - intros q Hq. rewrite !elem_of_union. auto.
  - intros q Hq. unfold button_of in Hq. simpl in Hq. split.
    + by eapply button_unprocessed.
    + rewrite !elem_of_union. right. by apply button_node_elem.
Qed.

Lemma visit_sound root b st node :
  sound root b st ->
  Dom.handle_at root (Dom.h_path node) = Some node ->
  walkable root b (Dom.h_path node) = true ->
  acceptNode st node = true ->
  exists st', visit root (Some b) st node = Ok st' ∧ sound root b st'.
Proof.
  intros Hs Hh Hw Hacc. unfold visit.
  unfold acceptNode in Hacc.
  apply negb_true_iff, orb_false_iff in Hacc as [Hskip Hproc].
  rewrite Hproc.
  destruct (_ || _) eqn:Hcond; [|eauto].
  destruct (walkable_below _ _ _ Hw) as [k Hk].
  assert (Hx : exists xpath,
             getXPath root (Some b) (Dom.h_path node) = Ok xpath).
  { rewrite Hk. apply (getXPath_below_body_ok root b k node). by rewrite <- Hk. }
  destruct Hx as [xpath Hx]. rewrite Hx. simpl.
  eexists. split; [reflexivity|].
  apply sound_add; [done| | |].
  - constructor; simpl; try done. by eexists.
  - intros q Hq. rewrite !elem_of_union. auto.
  - intros q Hq. unfold button_of in Hq. simpl in Hq. split.
    + by eapply button_unprocessed.
    + rewrite !elem_of_union. right. by apply button_node_elem.
Qed.

(** The two passes end in a sound state. *)
Lemma collect_sound root st :
  collect root = Ok st ->
  exists b, Dom.document_body root = Some b ∧ sound root (Dom.h_path b) st.
Proof.
  unfold collect.
  destruct (Dom.document_body root) as [b|] eqn:Hb;
    [|by destruct (for_each _ _ _)].
  cbn [fmap option_fmap option_map].
  destruct (for_each _ _ _) as [st1|] eqn:Hcards; unfold mbind, outcome_bind;
    [|done].
  intros Hwalk. exists b. split; [done|].
  assert (H1 : sound root (Dom.h_path b) st1).
  { eapply for_each_invariant; [|apply sound_empty|exact Hcards].
    intros st0 card st0' Hcard Hs0. apply card_step_sound; [done|].
    by eapply querySelectorAll_handle_at. }
  destruct (walk_invariant (sound root (Dom.h_path b)) root (Dom.h_path b))
    with (n := Dom.ElementNode (Dom.h_el b) (Dom.h_kids b))
         (p := Dom.h_path b) (st := st1) as (st2 & Hwalk2 & H2).
  - intros st0 node. apply visit_sound.
  - by apply document_body_node.
  - destruct (Dom.h_path b); cbn [walkable];
      by rewrite bool_decide_eq_true_2 by done.
  - done.
  - rewrite Hwalk2 in Hwalk. by injection Hwalk as <-.
Qed.

Lemma has_nonws_word_starts s : has_nonws s = true -> 1 <= word_starts true s.
Proof.
  induction s as [|c s IH]; [done|]. simpl.
  destruct (Js.is_ws c); simpl; [exact IH | lia].
Qed.

Lemma getExactVisibleText_trimmed h :
  Js.trim (getExactVisibleText h) = getExactVisibleText h
  ∧ normalizeSpaces (getExactVisibleText h) = getExactVisibleText h.
Proof.
  unfold getExactVisibleText.
  destruct (_ || _); [split; [apply normalizeSpaces_trimmed|apply normalizeSpaces_again]|].
  destruct (forallb _ _);
    [split; [apply normalizeSpaces_trimmed|apply normalizeSpaces_again]|done].
Qed.

(** What the text of a described candidate is like. *)
Lemma described_content root b c :
  described root b c ->
  has_nonws (Cand.text c) = true
  ∧ normalizeSpaces (Cand.text c) = Cand.text c
  ∧ Cand.isHeading c = Js.is_heading_tag (Cand.tag c)
  ∧ (Cand.isHeading c = false -> 4 <= countWords (Cand.text c)).
Proof.
  intros [_ _ Hcount _ _ _ Hcard Hwalked].
  destruct (Cand.isCard c).
  - destruct (Hcard eq_refl) as (Htag & Hhead & Htext & Hwords).
    rewrite Hcount in Hwords.
    split; [apply countWords_has_nonws; lia|].
    split; [rewrite Htext; apply normalizeSpaces_again|].
    split; [by rewrite Htag, Hhead | done].
  - destruct (Hwalked eq_refl) as (_ & Hhead & Htext & Hcond & _).
    rewrite Hcount in Hcond.
    destruct (getExactVisibleText_trimmed (Cand.element c)) as [Htrim Hnorm].
    rewrite <- Htext in Htrim, Hnorm.
    split; [|split; [done|split; [done|]]].
    + apply orb_true_iff in Hcond as [[_ Ht]%andb_true_iff | Hw%Nat.leb_le].
      * by rewrite <- trim_truthy, Htrim.
      * apply countWords_has_nonws. lia.
    + intros Hno. rewrite Hno in Hcond. by apply Nat.leb_le in Hcond.
Qed.

Lemma findAssociatedButton_fields root pn element :
  let b := findAssociatedButton root pn element in
  (Btn.hasButton b = true <-> is_Some (Btn.buttonElement b))
  ∧ (forall s, Btn.buttonText b = Some s ->
       Btn.hasButton b = true ∧ s ≠ "" ∧ normalizeSpaces s = s)
  ∧ (forall q, Btn.buttonElement b = Some q ->
       exists button, find_button root element = Some button
                      ∧ Dom.h_path button = q).
Proof.
  unfold findAssociatedButton.
  destruct (find_button root element) as [button|]; simpl.
  - case_bool_decide; simpl.
    + split; [split; [done | by intros [? ?]]|]. by split.
    + split; [split; [by eexists | done]|]. split.
      * intros s. destruct (Js.truthy _) eqn:Ht; [|done].
        intros [= <-]. split; [done|]. split; [by intros Hs; rewrite Hs in Ht|].
        apply normalizeSpaces_again.
      * intros q [= <-]. by exists button.
  - split; [split; [done | by intros [? ?]]|]. by split.
Qed.

(** The button searches only return elements that pass the button
    selector or the sibling test. *)
Lemma find_button_is_button root element button :
  find_button root element = Some button ->
  Dom.sel_button (Dom.h_el button) = true ∨ is_button_sibling button = true.
Proof.
  unfold find_button, Dom.querySelector.
  destruct (head (filter _ (Dom.descendants_of element))) as [b1|] eqn:H1.
  { intros [= <-]. left.
    by apply head_Some_elem_of, list_elem_of_filter in H1 as [? _]. }
  destruct (Dom.parentElement root element) as [parent|].
  - destruct (head (filter _ (Dom.descendants_of parent))) as [b2|] eqn:H2.
    { intros [= <-]. left.
      by apply head_Some_elem_of, list_elem_of_filter in H2 as [? _]. }
    intros H3. right.
    by apply head_Some_elem_of, list_elem_of_filter in H3 as [? _].
  - intros H3. right.
    by apply head_Some_elem_of, list_elem_of_filter in H3 as [? _].
Qed.

(** What a completed run of the in-page function rests on. *)
Lemma page_function_sound root rawElements :
  page_function root = Ok rawElements ->
  exists b st,
    Dom.document_body root = Some b
    ∧ rawElements ≡ₚ elements st
    ∧ sound root (Dom.h_path b) st
    ∧ consistent st.
Proof.
  intros (st & Hcollect & Hperm)%page_function_collect.
  destruct (collect_sound _ _ Hcollect) as (b & Hb & Hsound).
  destruct (collect_consistent _ _ Hcollect) as [Hcons _].
  by exists b, st.
Qed.

(** X6: every candidate has something to show.  In the array the in-page
    function returns, the text of every candidate has a character that is
    not white space and is in the normal form of [normalizeSpaces];
    [wordCount] is the number of words of that text and is at least one;
    [isHeading] says whether [tag] is one of h1 to h6; and a candidate
    that is not a heading has at least four words. *)
Theorem X6_candidates_have_content root rawElements :
  page_function root = Ok rawElements ->
  Forall (fun c =>
            has_nonws (Cand.text c) = true
            ∧ normalizeSpaces (Cand.text c) = Cand.text c
            ∧ Cand.wordCount c = countWords (Cand.text c)
            ∧ 1 <= Cand.wordCount c
            ∧ Cand.isHeading c = Js.is_heading_tag (Cand.tag c)
            ∧ (Cand.isHeading c = false -> 4 <= Cand.wordCount c))
         rawElements.
Proof.
  intros (b & st & _ & Hperm & [Hd _ _] & _)%page_function_sound.
  apply Forall_forall. intros c Hc. rewrite Hperm in Hc.
  rewrite Forall_forall in Hd. specialize (Hd c Hc).
  destruct (described_content _ _ _ Hd) as (Hnonws & Hnorm & Hhead & Hwords).
  destruct Hd as [_ _ Hcount _ _ _ _ _]. rewrite Hcount.
  split; [done|]. split; [done|]. split; [done|].
  split; [|by split].
  rewrite countWords_word_starts. by apply has_nonws_word_starts.
Qed.

Lemma X6_candidates_have_content_witness :
  Forall (fun c =>
            has_nonws (Cand.text c) = true
            ∧ normalizeSpaces (Cand.text c) = Cand.text c
            ∧ Cand.wordCount c = countWords (Cand.text c)
            ∧ 1 <= Cand.wordCount c
            ∧ Cand.isHeading c = Js.is_heading_tag (Cand.tag c)
            ∧ (Cand.isHeading c = false -> 4 <= Cand.wordCount c))
         (elements_of page_gap).
Proof. apply (X6_candidates_have_content page_gap). vm_compute. reflexivity. Defined.

(** X7: where the candidates come from.  When the in-page function
    returns, the document has a body, and every candidate was taken from
    an element of the document that the filter [shouldSkipElement] does
    not skip, with the position of that element.  A candidate that is not
    a card lies below the body, and no element between it and the body
    is one the filter skips. *)
Theorem X7_candidates_pass_filter root rawElements :
  page_function root = Ok rawElements ->
  exists body,
    Dom.document_body root = Some body
    ∧ Forall (fun c =>
                Dom.handle_at root (node_of c) = Some (Cand.element c)
                ∧ shouldSkipElement (Dom.h_el (Cand.element c)) = false
                ∧ Cand.position c = getElementPosition (Cand.element c)
                ∧ (Cand.isCard c = false ->
                   walkable root (Dom.h_path body) (node_of c) = true))
             rawElements.
Proof.
  intros (b & st & Hb & Hperm & [Hd _ _] & _)%page_function_sound.
  exists b. split; [done|].
  apply Forall_forall. intros c Hc. rewrite Hperm in Hc.
  rewrite Forall_forall in Hd.
  destruct (Hd c Hc) as [Hdoc Hfilter _ _ Hpos _ _ Hwalked].
  split; [done|]. split; [done|]. split; [done|].
  intros Hcard. by destruct (Hwalked Hcard) as (_ & _ & _ & _ & ?).
Qed.

Lemma X7_candidates_pass_filter_witness :
  exists body,
    Dom.document_body page_nested = Some body
    ∧ Forall (fun c =>
                Dom.handle_at page_nested (node_of c) = Some (Cand.element c)
                ∧ shouldSkipElement (Dom.h_el (Cand.element c)) = false
                ∧ Cand.position c = getElementPosition (Cand.element c)
                ∧ (Cand.isCard c = false ->
                   walkable page_nested (Dom.h_path body) (node_of c) = true))
             (elements_of page_nested).
Proof.
  apply (X7_candidates_pass_filter page_nested). vm_compute. reflexivity.
Defined.

(** X8: buttons.  In the array the in-page function returns, no element
    is the button of two candidates.  For every candidate, [hasButton]
    holds exactly when a button element is recorded; a button text that
    is recorded is not empty and is in normal form; and the button is an
    element that passes the button selector or the sibling test. *)
Theorem X8_buttons root rawElements :
  page_function root = Ok rawElements ->
  NoDup (omap button_of rawElements)
  ∧ Forall (fun c =>
              (Btn.hasButton (Cand.buttonInfo c) = true <-> is_Some (button_of c))
              ∧ (forall s, Btn.buttonText (Cand.buttonInfo c) = Some s ->
                   Btn.hasButton (Cand.buttonInfo c) = true
                   ∧ s ≠ "" ∧ normalizeSpaces s = s)
              ∧ (forall q, button_of c = Some q ->
                   exists button,
                     find_button root (Cand.element c) = Some button
                     ∧ Dom.h_path button = q
                     ∧ (Dom.sel_button (Dom.h_el button) = true
                        ∨ is_button_sibling button = true)))
           rawElements.
Proof.
  intros (b & st & _ & Hperm & [Hd _ Honce] & _)%page_function_sound.
  split; [by rewrite Hperm|].
  apply Forall_forall. intros c Hc. rewrite Hperm in Hc.
  rewrite Forall_forall in Hd.
  destruct (Hd c Hc) as [_ _ _ _ _ [pn Hbutton] _ _].
  unfold button_of. rewrite Hbutton.
  destruct (findAssociatedButton_fields root pn (Cand.element c))
    as (Hhas & Htext & Hel).
  split; [done|]. split; [done|].
  intros q Hq. destruct (Hel q Hq) as (button & Hfind & Hpath).
  exists button. split; [done|]. split; [done|].
  by eapply find_button_is_button.
Qed.

(** ** Locators *)

Lemma starts_with_append p a b :
  Js.starts_with p a = true -> Js.starts_with p (a +:+ b) = true.
Proof.
  intros [c ->]%starts_with_spec. apply starts_with_spec.
  exists (c +:+ b). by rewrite append_assoc.
Qed.

Lemma getXPath_anchored root body p : forall s,
  getXPath root body p = Ok s -> anchored s = true.
Proof.
  induction p as [|i parent IH]; intros s; simpl;
    destruct (Dom.handle_at root _) as [element|]; try done;
    destruct (Js.truthy _); try (by intros [= <-]);
    case_bool_decide; try (by intros [= <-]); try done.
  destruct (getXPath root body parent) as [up|]; simpl; [|done].
  intros [= <-]. specialize (IH up eq_refl). unfold anchored in *.
  apply orb_true_iff in IH as [Hup | Hup];
    apply (starts_with_append _ _ ("/" +:+ Js.toLowerCase (Dom.tagName (Dom.h_el element))
             +:+ "[" +:+ Js.decimal
                   (same_tag_before (Dom.tagName (Dom.h_el element))
                      (take i (from_option Dom.childNodes []
                                 (Dom.node_at root parent))) + 1) +:+ "]")) in Hup;
    rewrite Hup; [done | apply orb_true_r].
Qed.

(** ** Sections *)

(** Where a group comes from. *)
Lemma groups_origin els g :
  g ∈ groupRelatedContent els ->
  exists before members after,
    els = (before ++ Group.primaryElement g :: members ++ after)%list
    ∧ g = heading_group (Group.primaryElement g) members
    ∧ has_content g = true.
Proof.
  revert g. pattern els, (groupRelatedContent els). apply groups_ind.
  - by intros g ?%elem_of_nil.
  - intros h ms rest _ _ _ IH g [Hg | Hg]%elem_of_app.
    + apply push_group_elem in Hg as [-> Hc].
      rewrite heading_group_primary. by exists [], ms, rest.
    + destruct (IH g Hg) as (pre & ms' & post & -> & Hrest).
      exists (h :: ms ++ pre)%list, ms', post. split; [|exact Hrest].
      rewrite <- app_comm_cons. f_equal. by rewrite <- app_assoc.
Qed.

(** Every candidate is in a group when all texts show something. *)
Lemma groups_cover els :
  Forall (fun c => has_nonws (Cand.text c) = true) els ->
  forall c, c ∈ els ->
    exists g, g ∈ groupRelatedContent els ∧ c ∈ Group.elements g.
Proof.
  pattern els, (groupRelatedContent els). apply groups_ind.
  - by intros _ c ?%elem_of_nil.
  - intros h ms rest _ _ _ IH Hall c Hc.
    apply Forall_cons in Hall as [Hh Hall].
    apply Forall_app in Hall as [_ Hrest].
    rewrite app_comm_cons in Hc. apply elem_of_app in Hc as [Hc | Hc].
    + exists (heading_group h ms). split; [|by rewrite heading_group_elements].
      apply elem_of_app. left. unfold push_group.
      rewrite has_content_nonws, heading_group_text, (has_nonws_truthy _ Hh).
      assert (Hjoin : forall l, has_nonws (Js.join " " (Cand.text h :: l)) = true).
      { intros [|y l]; [done|].
        change (Js.join " " (Cand.text h :: y :: l))
          with (Cand.text h +:+ " " +:+ Js.join " " (y :: l)).
        by rewrite has_nonws_append, Hh. }
      rewrite Hjoin. by apply list_elem_of_singleton.
    + destruct (IH Hrest c Hc) as (g & Hg & Hin).
      exists g. split; [|done]. apply elem_of_app. by right.
Qed.

(** The text of a group holds the text of each of its elements. *)
Lemma group_text_includes els g c :
  g ∈ groupRelatedContent els ->
  c ∈ Group.elements g ->
  Js.includes (Group.combinedText g) (Cand.text c) = true.
Proof.
  intros (pre & ms & post & _ & Hg & Hc)%groups_origin Hin.
  rewrite has_content_nonws in Hc. apply has_nonws_truthy in Hc.
  rewrite Hg in Hin, Hc |- *.
  rewrite heading_group_elements in Hin. rewrite heading_group_text in *.
  destruct (Js.truthy (Cand.text (Group.primaryElement g))) eqn:Hh; [|done].
  destruct (Js.truthy (Cand.text c)) eqn:Ht.
  - apply includes_join.
    apply elem_of_cons in Hin as [-> | Hin]; [by left|]. right.
    apply list_elem_of_filter. split; [done|].
    apply list_elem_of_fmap. by exists c.
  - destruct (Cand.text c); [|done]. apply includes_spec.
    exists "". eexists. reflexivity.
Qed.

Lemma assemble_made groups : forall index counter,
  Forall2 (fun g s => exists i c, s = (make_section g i c).1)
          groups (assemble groups index counter).1.
Proof.
  induction groups as [|g groups IH]; intros index counter; simpl; [constructor|].
  specialize (IH (S index) (counter_incr counter (determineSectionType g))).
  destruct (assemble groups (S index) _) as [ss c2]. simpl in *.
  constructor; [by eexists _, _ | exact IH].
Qed.

Lemma assemble_order groups : forall index counter,
  map Sec.order (assemble groups index counter).1
  = seq (index + 1) (length groups).
Proof.
  induction groups as [|g groups IH]; intros index counter; simpl; [done|].
  specialize (IH (S index) (counter_incr counter (determineSectionType g))).
  destruct (assemble groups (S index) _) as [ss c2]. simpl in *.
  rewrite IH. repeat (f_equal; try lia).
Qed.

Lemma decimal_inj n m : Js.decimal n = Js.decimal m -> n = m.
Proof.
  unfold Js.decimal. intros H.
  apply DecimalNat.Unsigned.to_uint_inj.
  assert (Hs : Some (Nat.to_uint n) = Some (Nat.to_uint m)).
  { rewrite <- !NilEmpty.usu. by rewrite H. }
  by injection Hs.
Qed.

Lemma append_inj_l (a b c : string) : a +:+ b = a +:+ c -> b = c.
Proof.
  induction a as [|x a IH]; [done|].
  rewrite !append_cons. intros [= H]. by apply IH.
Qed.

(** An identifier tells its category and its number. *)
Lemma section_id_inj t1 k1 t2 k2 :
  section_id t1 k1 = section_id t2 k2 -> t1 = t2 ∧ k1 = k2.
Proof.
  unfold section_id. intros H.
  assert (Ht : t1 = t2).
  { destruct t1, t2; try done; cbv [type_name String.append] in H; congruence. }
  subst t2. split; [done|].
  apply append_inj_l, (append_inj_l "-") in H. by apply decimal_inj.
Qed.

Lemma NoDup_by_class {A B C} (f : A -> B) (g : A -> C) `{EqDecision C} l :
  (forall t, NoDup (f <$> filter (fun x => g x = t) l)) ->
  (forall x y, x ∈ l -> y ∈ l -> f x = f y -> g x = g y) ->
  NoDup (f <$> l).
Proof.
  induction l as [|x l IH]; intros Hclass Hsame; [constructor|].
  rewrite fmap_cons. constructor.
  - intros (y & Hxy & Hy)%list_elem_of_fmap.
    specialize (Hclass (g x)). rewrite filter_cons_True in Hclass by done.
    rewrite fmap_cons in Hclass. apply NoDup_cons in Hclass as [Hnot _].
    apply Hnot. apply list_elem_of_fmap. exists y. split; [done|].
    apply list_elem_of_filter. split; [|done].
    symmetry. apply Hsame; [by left | by right | done].
  - apply IH.
    + intros t. specialize (Hclass t). rewrite filter_cons in Hclass.
      destruct (decide (g x = t)); [|done].
      rewrite fmap_cons in Hclass. by apply NoDup_cons in Hclass as [_ ?].
    + intros y z Hy Hz. apply Hsame; by right.
Qed.

Lemma assemble_ids_distinct groups index counter :
  NoDup (map Sec.sectionId (assemble groups index counter).1).
Proof.
  change (NoDup (Sec.sectionId <$> (assemble groups index counter).1)).
  apply (NoDup_by_class Sec.sectionId Sec.sectionType).
  - intros t. pose proof (assemble_ids t groups index counter) as Hids.
    destruct (assemble groups index counter) as [ss c2]. simpl.
    destruct Hids as [Hids _]. unfold of_type in Hids.
    change (Sec.sectionId <$> filter (fun s => Sec.sectionType s = t) ss)
      with (map Sec.sectionId (filter (fun s => Sec.sectionType s = t) ss)).
    rewrite Hids.
    assert (Hinj : Inj eq eq (section_id t)).
    { intros k1 k2 Hk. by apply section_id_inj in Hk as [_ ?]. }
    apply (NoDup_fmap_2 (section_id t)), NoDup_seq.
  - intros x y Hx Hy Hid.
    pose proof (assemble_made groups index counter) as Hmade.
    apply list_elem_of_lookup in Hx as [i Hi], Hy as [j Hj].
    destruct (Forall2_lookup_r _ _ _ _ _ Hmade Hi) as (gx & _ & ix & cx & ->).
    destruct (Forall2_lookup_r _ _ _ _ _ Hmade Hj) as (gy & _ & iy & cy & ->).
    simpl in *. fold (section_id (determineSectionType gx)
                        (counter_get (counter_incr cx (determineSectionType gx))
                           (determineSectionType gx))) in Hid.
    by apply section_id_inj in Hid as [? _].
Qed.

(** What the sections of a returned result are. *)
Lemma run_sections browser url counter results counter' :
  scrapeWebsite browser url counter = (Ok results, counter') ->
  (Res.sections results = [] ∧ Res.errors results ≠ [])
  ∨ (exists root rawElements,
       document browser = Ok root
       ∧ page_function root = Ok rawElements
       ∧ Res.sections results = sections_of rawElements
       ∧ Res.errors results = []).
Proof.
  intros H%scrapeWebsite_returned.
  destruct (first_fault browser) as [e|].
  - left. destruct H as (-> & -> & _). done.
  - right. destruct H as (raw & Hraw & Hs & He & _).
    destruct (document browser) as [root|]; [|done].
    by exists root, raw.
Qed.

(** X10: order numbers and identifiers.  In every result that
    [scrapeWebsite] returns, the sections carry the order numbers 1, 2,
    ..., N in output order, and no two sections have the same
    [sectionId]. *)
Theorem X10_order_and_ids browser url counter results counter' :
  scrapeWebsite browser url counter = (Ok results, counter') ->
  map Sec.order (Res.sections results) = seq 1 (length (Res.sections results))
  ∧ NoDup (map Sec.sectionId (Res.sections results)).
Proof.
  intros [[-> _] | (root & raw & _ & _ & -> & _)]%run_sections.
  - split; [done | constructor].
  - unfold sections_of. split; [|apply assemble_ids_distinct].
    by rewrite assemble_order, assemble_length.
Qed.

Lemma sections_of_group rawElements s :
  s ∈ sections_of rawElements ->
  exists g i c, g ∈ groupRelatedContent rawElements ∧ s = (make_section g i c).1.
Proof.
  unfold sections_of. intros [k Hk]%list_elem_of_lookup.
  pose proof (assemble_made (groupRelatedContent rawElements) 0 fresh_counter) as Hmade.
  destruct (Forall2_lookup_r _ _ _ _ _ Hmade Hk) as (g & Hg & i & c & ->).
  exists g, i, c. split; [|done]. by eapply list_elem_of_lookup_2.
Qed.

Lemma group_of_sections rawElements g :
  g ∈ groupRelatedContent rawElements ->
  exists s i c, s ∈ sections_of rawElements ∧ s = (make_section g i c).1.
Proof.
  unfold sections_of. intros [k Hk]%list_elem_of_lookup.
  pose proof (assemble_made (groupRelatedContent rawElements) 0 fresh_counter) as Hmade.
  destruct (Forall2_lookup_l _ _ _ _ _ Hmade Hk) as (s & Hs & i & c & ->).
  eexists _, i, c. split; [|done]. by eapply list_elem_of_lookup_2.
Qed.

Lemma group_elements_in els g :
  g ∈ groupRelatedContent els ->
  forall c, c ∈ Group.elements g -> c ∈ els.
Proof.
  intros (pre & ms & post & Hels & Hg & _)%groups_origin c Hc.
  rewrite Hg, heading_group_elements in Hc. rewrite Hels.
  apply elem_of_app. right. rewrite app_comm_cons. apply elem_of_app. by left.
Qed.

Lemma group_primary_in els g :
  g ∈ groupRelatedContent els -> Group.primaryElement g ∈ els.
Proof.
  intros Hg. apply (group_elements_in _ _ Hg).
  apply groups_origin in Hg as (pre & ms & post & _ & Hg & _).
  rewrite Hg, heading_group_elements, heading_group_primary. by left.
Qed.

(** Where the button text of a group comes from. *)
Lemma group_button els g t :
  g ∈ groupRelatedContent els ->
  Group.buttonText g = Some t ->
  exists m, m ∈ Group.elements g
            ∧ Btn.buttonText (Cand.buttonInfo m) = Some t
            ∧ (with_button m = true -> Group.hasButton g = true).
Proof.
  intros (pre & ms & post & _ & Hg & _)%groups_origin.
  rewrite Hg. rewrite heading_group_buttonText, heading_group_hasButton,
    heading_group_elements.
  set (h := Group.primaryElement g).
  destruct (last (filter _ (h :: ms))) as [m|] eqn:Hlast; intros Ht.
  - apply last_Some_elem_of, list_elem_of_filter in Hlast as [Hm Hin].
    exists m. split; [done|]. split; [done|]. intros _.
    apply existsb_exists. exists m. split; [|done]. by apply list_elem_of_In.
  - exists h. split; [by left|]. split; [done|]. intros Hh.
    simpl. by rewrite Hh.
Qed.

Lemma page_function_described root rawElements c :
  page_function root = Ok rawElements ->
  c ∈ rawElements ->
  exists b, Dom.document_body root = Some b ∧ described root (Dom.h_path b) c.
Proof.
  intros (b & st & Hb & Hperm & [Hd _ _] & _)%page_function_sound Hc.
  exists b. split; [done|]. rewrite Hperm in Hc.
  rewrite Forall_forall in Hd. by apply Hd.
Qed.

(** What the sections made of the candidates of a page show. *)
Lemma sections_of_show root rawElements s :
  page_function root = Ok rawElements ->
  s ∈ sections_of rawElements ->
  has_nonws (Sec.text s) = true
  ∧ anchored (Sec.xpath s) = true
  ∧ Sec.charCount s = String.length (Sec.text s).
Proof.
  intros Hraw (g & i & c & Hg & ->)%sections_of_group. simpl.
  split; [|split; [|done]].
  - apply groups_origin in Hg as (_ & _ & _ & _ & _ & Hc).
    by rewrite has_content_nonws in Hc.
  - apply group_primary_in in Hg.
    destruct (page_function_described _ _ _ Hraw Hg) as (b & _ & Hd).
    eapply getXPath_anchored. exact (d_xpath _ _ _ Hd).
Qed.

(** X11: no empty section, and a locator for every section.  In every
    result that [scrapeWebsite] returns, the text of every section has a
    character that is not white space, and the [xpath] of every section
    starts at the body or at an element with an [id]. *)
Theorem X11_sections_show_text browser url counter results counter' :
  scrapeWebsite browser url counter = (Ok results, counter') ->
  Forall (fun s => has_nonws (Sec.text s) = true ∧ anchored (Sec.xpath s) = true)
         (Res.sections results).
Proof.
  intros [[-> _] | (root & raw & _ & Hraw & -> & _)]%run_sections; [constructor|].
  apply Forall_forall. intros s Hs.
  destruct (sections_of_show _ _ _ Hraw Hs) as (Htext & Hxpath & _). by split.
Qed.

(** X12: the button of a section.  In every result that [scrapeWebsite]
    returns, a section that has a [buttonText] has [hasButton] set, and
    the text is not empty and is in the normal form of
    [normalizeSpaces]. *)
Theorem X12_sections_button browser url counter results counter' :
  scrapeWebsite browser url counter = (Ok results, counter') ->
  Forall (fun s =>
            forall t, Sec.buttonText s = Some t ->
              Sec.hasButton s = true ∧ t ≠ "" ∧ normalizeSpaces t = t)
         (Res.sections results).
Proof.
  intros [[-> _] | (root & raw & _ & Hraw & -> & _)]%run_sections; [constructor|].
  apply Forall_forall. intros s (g & i & c & Hg & ->)%sections_of_group t. simpl.
  intros Ht. destruct (group_button _ _ _ Hg Ht) as (m & Hm & Hmt & Hhas).
  apply (group_elements_in _ _ Hg) in Hm.
  destruct (page_function_described _ _ _ Hraw Hm) as (b & _ & Hd).
  destruct (d_button _ _ _ Hd) as [pn Hbutton].
  destruct (findAssociatedButton_fields root pn (Cand.element m))
    as (_ & Htext & _).
  rewrite <- Hbutton in Htext. destruct (Htext t Hmt) as (Hb & Hne & Hnorm).
  split; [by apply Hhas|]. by split.
Qed.

(** X13: nothing collected is left out.  When [scrapeWebsite] returns a
    result without errors, the text of every candidate the in-page
    function returned is contained in the text of some section, and the
    text of every section contains the text of the candidate that gave
    the section its [xpath] and [element]. *)
Theorem X13_candidates_reach_sections browser url counter results counter'
    root rawElements :
  scrapeWebsite browser url counter = (Ok results, counter') ->
  Res.errors results = [] ->
  document browser = Ok root ->
  page_function root = Ok rawElements ->
  (forall c, c ∈ rawElements ->
     exists s, s ∈ Res.sections results
               ∧ Js.includes (Sec.text s) (Cand.text c) = true)
  ∧ (forall s, s ∈ Res.sections results ->
       exists c, c ∈ rawElements
                 ∧ Sec.xpath s = Cand.xpath c ∧ Sec.element s = Cand.tag c
                 ∧ Js.includes (Sec.text s) (Cand.text c) = true).
Proof.
  intros [[_ He] | (root' & raw & Hdoc & Hraw & -> & _)]%run_sections Herr Hroot Hpage;
    [done|].
  assert (root' = root) as -> by congruence.
  assert (raw = rawElements) as -> by congruence.
  split.
  - intros c Hc.
    assert (Hall : Forall (fun c => has_nonws (Cand.text c) = true) rawElements).
    { apply Forall_forall. intros c' Hc'.
      destruct (page_function_described _ _ _ Hraw Hc') as (b & _ & Hd).
      by destruct (described_content _ _ _ Hd) as [? _]. }
    destruct (groups_cover _ Hall c Hc) as (g & Hg & Hin).
    destruct (group_of_sections _ _ Hg) as (s & i & k & Hs & ->).
    eexists. split; [exact Hs|]. simpl. by eapply group_text_includes.
  - intros s (g & i & k & Hg & ->)%sections_of_group.
    exists (Group.primaryElement g). split; [by apply group_primary_in|].
    simpl. split; [done|]. split; [done|].
    eapply group_text_includes; [exact Hg|].
    apply groups_origin in Hg as (pre & ms & post & _ & Hg & _).
    rewrite Hg, heading_group_elements, heading_group_primary. by left.
Qed.

(** ** Categories and containers *)

Lemma includes_trans s t p :
  Js.includes s t = true -> Js.includes t p = true -> Js.includes s p = true.
Proof.
  intros (a & b & ->)%includes_spec (c & d & ->)%includes_spec.
  apply includes_spec. exists (a +:+ c), (d +:+ b). by rewrite !append_assoc.
Qed.

(** A class token that contains a lower-case pattern makes the
    lower-cased class attribute contain it. *)
Lemma class_token_includes pat l :
  Js.toLowerCase pat = pat ->
  existsb (fun c => Js.includes c pat) l = true ->
  Js.includes (Js.toLowerCase (Js.join " " l)) pat = true.
Proof.
  intros Hp (c & Hc & Hinc)%existsb_exists.
  apply includes_toLowerCase; [done|].
  eapply includes_trans; [|exact Hinc].
  apply includes_join. by apply list_elem_of_In.
Qed.

(** X14: cards are hero, cta or service.  A group whose primary element
    is a promoted card is never classified testimonial, faq, benefit,
    process, about, footer or other. *)
Theorem X14_card_categories g :
  Cand.isCard (Group.primaryElement g) = true ->
  determineSectionType g = Hero
  ∨ determineSectionType g = Cta
  ∨ determineSectionType g = Service.
Proof.
  intros Hcard. rewrite determineSectionType_first_match. simpl.
  destruct (Rules.hero g); [by left|].
  destruct (Rules.cta g); [by right; left|].
  unfold Rules.service. rewrite Hcard, orb_true_r. by right; right.
Qed.

(** X15: the container label and the category agree.  The label
    [getParentContainer] gives the primary element of a group limits the
    category [determineSectionType] gives the group: hero-section goes
    with hero only, services-section with hero, cta or service,
    testimonials-section with hero, cta, service or testimonial, and a
    group labelled footer is never other. *)
Theorem X15_container_and_category g :
  (getParentContainer (Group.primaryElement g) = "hero-section" ->
   determineSectionType g = Hero)
  ∧ (getParentContainer (Group.primaryElement g) = "services-section" ->
     determineSectionType g = Hero ∨ determineSectionType g = Cta
     ∨ determineSectionType g = Service)
  ∧ (getParentContainer (Group.primaryElement g) = "testimonials-section" ->
     determineSectionType g = Hero ∨ determineSectionType g = Cta
     ∨ determineSectionType g = Service ∨ determineSectionType g = Testimonial)
  ∧ (getParentContainer (Group.primaryElement g) = "footer" ->
     determineSectionType g ≠ Other).
Proof.
  rewrite determineSectionType_first_match.
  unfold getParentContainer. cbv zeta.
  set (classes := Cand.classList (Group.primaryElement g)).
  pose proof (class_token_includes "hero" classes eq_refl) as Hhero.
  pose proof (class_token_includes "service" classes eq_refl) as Hservice.
  pose proof (class_token_includes "testimonial" classes eq_refl) as Htest.
  pose proof (class_token_includes "footer" classes eq_refl) as Hfooter.
  change (Js.toLowerCase (Js.join " " classes)) with (Rules.class g)
    in Hhero, Hservice, Htest, Hfooter.
  assert (Hno : forall (a : string) (P Q R S : Prop),
             a ≠ "hero-section" -> a ≠ "services-section" ->
             a ≠ "testimonials-section" -> a ≠ "footer" ->
             (a = "hero-section" -> P) ∧ (a = "services-section" -> Q)
             ∧ (a = "testimonials-section" -> R) ∧ (a = "footer" -> S)).
  { intros a P Q R S H1 H2 H3 H4. repeat split; intros; done. }
  destruct (existsb (fun c => Js.includes c "header") classes);
    [by apply Hno|].
  destruct (existsb (fun c => Js.includes c "hero") classes).
  { split; [|repeat split; intros; done]. intros _. simpl.
    unfold Rules.hero, Rules.mentions. simpl.
    by rewrite (Hhero eq_refl), !orb_true_r. }
  destruct (existsb (fun c => Js.includes c "service") classes).
  { split; [done|]. split; [|repeat split; intros; done]. intros _. simpl.
    destruct (Rules.hero g); [by left|].
    destruct (Rules.cta g); [by right; left|].
    unfold Rules.service, Rules.mentions. simpl.
    rewrite (Hservice eq_refl), !orb_true_r. by right; right. }
  destruct (existsb (fun c => Js.includes c "testimonial") classes).
  { split; [done|]. split; [done|]. split; [|done]. intros _. simpl.
    destruct (Rules.hero g); [by left|].
    destruct (Rules.cta g); [by right; left|].
    destruct (Rules.service g); [by right; right; left|].
    unfold Rules.testimonial, Rules.mentions. simpl.
    rewrite (Htest eq_refl), !orb_true_r. by right; right; right. }
  destruct (existsb (fun c => Js.includes c "footer") classes).
  { split; [done|]. split; [done|]. split; [done|]. intros _. simpl.
    destruct (Rules.hero g); [done|]. destruct (Rules.cta g); [done|].
    destruct (Rules.service g); [done|]. destruct (Rules.testimonial g); [done|].
    destruct (Rules.faq g); [done|]. destruct (Rules.benefit g); [done|].
    destruct (Rules.process g); [done|]. destruct (Rules.about g); [done|].
    unfold Rules.footer, Rules.mentions. simpl.
    by rewrite (Hfooter eq_refl), !orb_true_r. }
  repeat destruct (existsb _ classes); by apply Hno.
Qed.

(** ** Tallies *)

Lemma in_list_elem x l : in_list x l = true <-> x ∈ l.
Proof.
  unfold in_list. rewrite existsb_exists. split.
  - intros (y & Hy & ->%String.eqb_eq). by apply list_elem_of_In.
  - intros Hx. exists x. split; [by apply list_elem_of_In | apply String.eqb_refl].
Qed.

Lemma set_add_elem x y set : y ∈ set_add x set <-> y = x ∨ y ∈ set.
Proof.
  unfold set_add. destruct (in_list x set) eqn:Hx.
  - apply in_list_elem in Hx. split; [by right | by intros [-> | ?]].
  - rewrite elem_of_app, list_elem_of_singleton. tauto.
Qed.

Lemma set_add_NoDup x set : NoDup set -> NoDup (set_add x set).
Proof.
  intros Hset. unfold set_add. destruct (in_list x set) eqn:Hx; [done|].
  apply NoDup_app. split; [done|]. split; [|apply NoDup_singleton].
  intros y Hy ->%list_elem_of_singleton.
  apply in_list_elem in Hy. congruence.
Qed.

Lemma sectionTypes_snoc l s :
  sectionTypes (l ++ [s])
  = set_add (type_name (Sec.sectionType s)) (sectionTypes l).
Proof. unfold sectionTypes. by rewrite map_app, fold_left_app. Qed.

Lemma sectionCounts_snoc l s :
  sectionCounts (l ++ [s])
  = tally_incr (type_name (Sec.sectionType s)) (sectionCounts l).
Proof. unfold sectionCounts. by rewrite fold_left_app. Qed.

Lemma sectionTypes_NoDup l : NoDup (sectionTypes l).
Proof.
  induction l as [|s l IH] using rev_ind; [constructor|].
  rewrite sectionTypes_snoc. by apply set_add_NoDup.
Qed.

Lemma sectionTypes_elem k l :
  k ∈ sectionTypes l <-> exists s, s ∈ l ∧ type_name (Sec.sectionType s) = k.
Proof.
  induction l as [|s l IH] using rev_ind.
  - split; [by intros ?%elem_of_nil | by intros (s & ?%elem_of_nil & _)].
  - rewrite sectionTypes_snoc, set_add_elem, IH. split.
    + intros [-> | (s' & Hs' & Hk)].
      * exists s. split; [|done]. apply elem_of_app. right. by left.
      * exists s'. split; [|done]. apply elem_of_app. by left.
    + intros (s' & [Hs' | ->%list_elem_of_singleton]%elem_of_app & Hk); eauto.
Qed.

Lemma sections_named_none k l :
  k ∉ sectionTypes l -> sections_named k l = 0.
Proof.
  intros Hk. unfold sections_named.
  destruct (filter _ l) as [|s f] eqn:Hf; [done|]. exfalso. apply Hk.
  assert (Hs : s ∈ filter (fun s => type_name (Sec.sectionType s) = k) l).
  { rewrite Hf. by left. }
  apply list_elem_of_filter in Hs as [Hname Hs].
  apply sectionTypes_elem. by exists s.
Qed.

(** The tally over keys that are listed once. *)
Lemma tally_incr_keys key (f : string -> nat) keys :
  NoDup keys ->
  (key ∉ keys -> f key = 0) ->
  tally_incr key ((fun k => (k, f k)) <$> keys)
  = (fun k => (k, if String.eqb k key then f k + 1 else f k)) <$> set_add key keys.
Proof.
  induction keys as [|k keys IH]; intros Hdup Hzero.
  - unfold set_add. simpl. rewrite String.eqb_refl, Hzero; [done|].
    by intros ?%elem_of_nil.
  - apply NoDup_cons in Hdup as [Hk Hdup].
    rewrite fmap_cons. cbn [tally_incr].
    destruct (String.eqb k key) eqn:Hkey.
    + apply String.eqb_eq in Hkey. subst k.
      unfold set_add. rewrite (proj2 (in_list_elem key (key :: keys))) by by left.
      rewrite fmap_cons, String.eqb_refl. f_equal.
      apply list_fmap_ext. intros i k Hi.
      destruct (String.eqb k key) eqn:Hkk; [|done].
      apply String.eqb_eq in Hkk. subst k.
      exfalso. apply Hk. by eapply list_elem_of_lookup_2.
    + assert (Hne : k ≠ key) by by apply String.eqb_neq.
      rewrite IH; [|done|].
      * unfold set_add.
        assert (Hin : in_list key (k :: keys) = in_list key keys).
        { unfold in_list. simpl.
          rewrite (proj2 (String.eqb_neq key k)); [done | congruence]. }
        rewrite Hin. destruct (in_list key keys);
          by rewrite <- ?app_comm_cons, fmap_cons, Hkey.
      * intros Hnot. apply Hzero. intros [?|?]%elem_of_cons; [congruence|done].
Qed.

(** X16: the tally of the command line.  The per-category counts that
    [runCLI] prints list every category that occurs among the sections
    once, in the order of first occurrence (the order of the
    [sectionTypes] of the server's metadata), each with the number of
    sections of that category; no count is zero and the counts add up to
    the number of sections. *)
Theorem X16_section_tally sections :
  sectionCounts sections
  = (fun k => (k, sections_named k sections)) <$> sectionTypes sections
  ∧ NoDup (sectionTypes sections)
  ∧ (forall k, k ∈ sectionTypes sections
       <-> exists s, s ∈ sections ∧ type_name (Sec.sectionType s) = k)
  ∧ (forall k n, (k, n) ∈ sectionCounts sections -> 1 <= n)
  ∧ sum_list (snd <$> sectionCounts sections) = length sections.
Proof.
  assert (Hform : forall l,
             sectionCounts l
             = (fun k => (k, sections_named k l)) <$> sectionTypes l).
  { induction l as [|s l IH] using rev_ind; [done|].
    rewrite sectionCounts_snoc, sectionTypes_snoc, IH.
    rewrite tally_incr_keys;
      [|apply sectionTypes_NoDup|apply sections_named_none].
    apply list_fmap_ext. intros i k _. f_equal.
    unfold sections_named. rewrite filter_app, length_app, filter_cons, filter_nil.
    destruct (String.eqb k _) eqn:Hk.
    - apply String.eqb_eq in Hk. by rewrite decide_True by done.
    - apply String.eqb_neq in Hk. rewrite decide_False by done. simpl. lia. }
  split; [apply Hform|]. split; [apply sectionTypes_NoDup|].
  split; [intros k; apply sectionTypes_elem|]. split.
  - intros k n. rewrite Hform.
    intros (k' & [= -> ->] & Hk)%list_elem_of_fmap.
    apply sectionTypes_elem in Hk as (s & Hs & Hname).
    unfold sections_named.
    assert (Hin : s ∈ filter (fun s => type_name (Sec.sectionType s) = k') sections).
    { apply list_elem_of_filter. by split. }
    destruct (filter _ sections); [by apply elem_of_nil in Hin | simpl; lia].
  - assert (Hsum : forall key counts,
               sum_list (snd <$> tally_incr key counts)
               = S (sum_list (snd <$> counts))).
    { intros key counts. induction counts as [|[k n] counts IHc]; [done|].
      cbn [tally_incr]. destruct (String.eqb k key).
      - rewrite !fmap_cons. simpl. lia.
      - rewrite !fmap_cons. cbn [sum_list_with snd id]. rewrite IHc. lia. }
    induction sections as [|s l IH] using rev_ind; [done|].
    rewrite sectionCounts_snoc, length_app, Hsum, IH. simpl. lia.
Qed.

(** ** The HTTP handlers *)

(** A call whose page opens and closes returns, whatever fails in
    between. *)
Lemma scrapeWebsite_page_fault browser url counter e :
  newPage browser = Ok tt ->
  closePage browser = Ok tt ->
  first_fault browser = Some e ->
  exists t,
    scrapeWebsite browser url counter
    = (Ok (Res.mk url t (now browser) [] [error_record e]), fresh_counter).
Proof.
  intros Hnew Hclose Hfault. unfold scrapeWebsite. rewrite Hnew.
  destruct (try_block_fault browser (Res.mk url "" (now browser) [] [])
              (resetCounters counter) e Hfault) as [t Ht].
  rewrite Ht. simpl. rewrite Hclose. by exists t.
Qed.

(** X17: a page that fails is answered with status 200.  When the url
    passes the checks, the scraper is launched and the page opens and
    closes, a failure of the navigation or of the extraction does not
    reach the [catch] block of either handler: the reply is the result
    with no sections and the error in [errors]; the metadata of
    server.js counts no section and lists no category. *)
Theorem X17_page_failure_is_answered_200 valid_url parses_url launch browser url s e :
  Js.truthy url = true ->
  valid_url url = true ->
  parses_url url = true ->
  launched s = true ->
  newPage browser = Ok tt ->
  closePage browser = Ok tt ->
  first_fault browser = Some e ->
  exists result,
    Res.url result = url
    ∧ Res.sections result = []
    ∧ Res.errors result = [error_record e]
    ∧ post_api_scrape valid_url launch browser url (Some s)
      = (Reply.Scraped result (Some (Reply.mkMeta 0 [])),
         Some (mkScraper true fresh_counter))
    ∧ post_scrape parses_url browser url s
      = (Reply.Scraped result None, mkScraper true fresh_counter).
Proof.
  intros Hurl Hvalid Hparses Hs Hnew Hclose Hfault.
  destruct (scrapeWebsite_page_fault browser url (sectionCounter s) e
              Hnew Hclose Hfault) as [t Hrun].
  eexists. split; [|split; [|split; [|split]]]; cycle 3.
  - unfold post_api_scrape, initScraper, scrape.
    rewrite Hurl, Hvalid, Hs, Hrun. reflexivity.
  - unfold post_scrape, scrape. rewrite Hurl, Hparses, Hs, Hrun. reflexivity.
  - reflexivity.
  - reflexivity.
  - reflexivity.
Qed.

(** X18: a failed launch is not retried.  When the browser cannot be
    launched on the first request to server.js, the reply is that of the
    [catch] block and the module keeps the instance without a browser;
    from then on every request with a good url is answered 500 with the
    message of reading [newPage] of [null], and no launch is tried
    again, whatever the launch would give. *)
Theorem X18_failed_launch_is_not_retried valid_url url :
  Js.truthy url = true ->
  valid_url url = true ->
  (forall e browser,
     post_api_scrape valid_url (Throw e) browser url None
     = (Reply.Failed (failure_status (message_of e)) "Scraping Failed"
          (message_of e) url,
        Some new_scraper))
  ∧ (forall s launch browser,
       launched s = false ->
       post_api_scrape valid_url launch browser url (Some s)
       = (Reply.Failed 500 "Scraping Failed"
            "Cannot read properties of null (reading 'newPage')" url,
          Some s)).
Proof.
  intros Hurl Hvalid. split.
  - intros e browser. unfold post_api_scrape. by rewrite Hurl, Hvalid.
  - intros s launch browser Hs. unfold post_api_scrape, initScraper, scrape.
    by rewrite Hurl, Hvalid, Hs.
Qed.

(** ** The further properties on the examples *)

Lemma X3_groups_are_runs_witness :
  exists before members after,
    elements_of page_gap
    = (before ++ Group.primaryElement (first_group page_gap)
         :: members ++ after)%list
    ∧ Group.elements (first_group page_gap)
      = Group.primaryElement (first_group page_gap) :: members
    ∧ (members ≠ [] ->
       Cand.isHeading (Group.primaryElement (first_group page_gap)) = true
       ∧ Cand.isCard (Group.primaryElement (first_group page_gap)) = false)
    ∧ Forall (fun m => Cand.isHeading m = false ∧ Cand.isCard m = false) members
    ∧ within_gap (Group.primaryElement (first_group page_gap)) members = true
    ∧ has_nonws (Group.combinedText (first_group page_gap)) = true.
Proof.
  apply X3_groups_are_runs. apply list_elem_of_In. vm_compute. left. reflexivity.
Defined.

Lemma X4_group_summary_witness :
  Group.combinedText (first_group page_gap)
  = "Why choose us Licensed and insured crews"
  ∧ Group.hasButton (first_group page_h1_phone) = true
  ∧ Group.buttonText (first_group page_h1_phone) = Some "Call".
Proof.
  assert (H1 : first_group page_gap ∈ groupRelatedContent (elements_of page_gap)).
  { apply list_elem_of_In. vm_compute. left. reflexivity. }
  assert (H2 : first_group page_h1_phone
               ∈ groupRelatedContent (elements_of page_h1_phone)).
  { apply list_elem_of_In. vm_compute. left. reflexivity. }
  destruct (X4_group_summary _ _ H1) as (-> & _ & _).
  destruct (X4_group_summary _ _ H2) as (_ & -> & ->).
  repeat split; vm_compute; reflexivity.
Defined.

Lemma X8_buttons_witness :
  NoDup (omap button_of (elements_of page_h1_phone))
  ∧ Forall (fun c =>
              forall s, Btn.buttonText (Cand.buttonInfo c) = Some s ->
                Btn.hasButton (Cand.buttonInfo c) = true
                ∧ s ≠ "" ∧ normalizeSpaces s = s)
           (elements_of page_h1_phone).
Proof.
  destruct (X8_buttons page_h1_phone (elements_of page_h1_phone))
    as (Honce & Hall); [vm_compute; reflexivity|].
  split; [exact Honce|].
  eapply Forall_impl; [exact Hall|]. intros c (_ & Htext & _). exact Htext.
Defined.

Lemma X10_order_and_ids_witness :
  map Sec.order (Res.sections (returned (run_on page_services)))
  = seq 1 (length (Res.sections (returned (run_on page_services))))
  ∧ NoDup (map Sec.sectionId (Res.sections (returned (run_on page_services)))).
Proof.
  apply (X10_order_and_ids (showing page_services) "https://example.org"
           fresh_counter _ (run_on page_services).2).
  vm_compute. reflexivity.
Defined.

Lemma X11_sections_show_text_witness :
  Forall (fun s => has_nonws (Sec.text s) = true ∧ anchored (Sec.xpath s) = true)
         (Res.sections (returned (run_on page_gap))).
Proof.
  apply (X11_sections_show_text (showing page_gap) "https://example.org"
           fresh_counter _ (run_on page_gap).2).
  vm_compute. reflexivity.
Defined.

Lemma X12_sections_button_witness :
  Forall (fun s =>
            forall t, Sec.buttonText s = Some t ->
              Sec.hasButton s = true ∧ t ≠ "" ∧ normalizeSpaces t = t)
         (Res.sections (returned (run_on page_h1_phone))).
Proof.
  apply (X12_sections_button (showing page_h1_phone) "https://example.org"
           fresh_counter _ (run_on page_h1_phone).2).
  vm_compute. reflexivity.
Defined.

Lemma X13_candidates_reach_sections_witness :
  (forall c, c ∈ elements_of page_gap ->
     exists s, s ∈ Res.sections (returned (run_on page_gap))
               ∧ Js.includes (Sec.text s) (Cand.text c) = true)
  ∧ (forall s, s ∈ Res.sections (returned (run_on page_gap)) ->
       exists c, c ∈ elements_of page_gap
                 ∧ Sec.xpath s = Cand.xpath c ∧ Sec.element s = Cand.tag c
                 ∧ Js.includes (Sec.text s) (Cand.text c) = true).
Proof.
  apply (X13_candidates_reach_sections (showing page_gap) "https://example.org"
           fresh_counter _ (run_on page_gap).2 page_gap);
    vm_compute; reflexivity.
Defined.

Lemma X14_card_categories_witness :
  determineSectionType (first_group page_nested) = Hero
  ∨ determineSectionType (first_group page_nested) = Cta
  ∨ determineSectionType (first_group page_nested) = Service.
Proof. apply X14_card_categories. vm_compute. reflexivity. Defined.

Lemma X15_container_and_category_witness :
  determineSectionType (first_group page_hero) = Hero.
Proof.
  apply (proj1 (X15_container_and_category (first_group page_hero))).
  vm_compute. reflexivity.
Defined.

Lemma X17_page_failure_is_answered_200_witness :
  exists result,
    Res.url result = "https://example.invalid"
    ∧ Res.sections result = []
    ∧ Res.errors result
      = [mkError "net::ERR_NAME_NOT_RESOLVED at https://example.invalid" ""]
    ∧ post_api_scrape (fun _ => true) (Ok tt) failing_to_navigate
        "https://example.invalid" (Some (mkScraper true fresh_counter))
      = (Reply.Scraped result (Some (Reply.mkMeta 0 [])),
         Some (mkScraper true fresh_counter))
    ∧ post_scrape (fun _ => true) failing_to_navigate
        "https://example.invalid" (mkScraper true fresh_counter)
      = (Reply.Scraped result None, mkScraper true fresh_counter).
Proof.
  apply (X17_page_failure_is_answered_200 (fun _ => true) (fun _ => true) (Ok tt)
           failing_to_navigate "https://example.invalid"
           (mkScraper true fresh_counter)
           (External "net::ERR_NAME_NOT_RESOLVED at https://example.invalid" ""));
    reflexivity.
Defined.

Lemma X18_failed_launch_is_not_retried_witness :
  post_api_scrape (fun _ => true) (Ok tt) (showing page_gap)
    "https://example.org" (Some new_scraper)
  = (Reply.Failed 500 "Scraping Failed"
       "Cannot read properties of null (reading 'newPage')" "https://example.org",
     Some new_scraper).
Proof.
  apply (proj2 (X18_failed_launch_is_not_retried (fun _ => true)
                  "https://example.org" eq_refl eq_refl)).
  reflexivity.
Defined.

(** ** Nesting *)

(** A walkable element strictly below an element at or below the body
    goes through a child of that element that the filter does not skip. *)
Lemma walkable_through root b p k : forall above,
  p = (above ++ b)%list ->
  k ≠ [] ->
  walkable root b (k ++ p)%list = true ->
  exists i h, Dom.handle_at root (i :: p) = Some h
              ∧ shouldSkipElement (Dom.h_el h) = false.
Proof.
  intros above Hp. induction k as [|j k IH]; [done|]. intros _ Hw.
  change ((j :: k) ++ p)%list with (j :: (k ++ p))%list in Hw.
  cbn [walkable] in Hw.
  rewrite bool_decide_eq_false_2 in Hw.
  2:{ intros Heq. apply (f_equal length) in Heq. subst p.
      simpl in Heq. rewrite !length_app in Heq. lia. }
  cbn [orb] in Hw.
  destruct (Dom.handle_at root (j :: k ++ p)%list) as [h|] eqn:Hh; [|done].
  apply andb_true_iff in Hw as [Hskip Hw]. apply negb_true_iff in Hskip.
  destruct k as [|j' k]; [by exists j, h|].
  by apply IH.
Qed.

Lemma handle_at_child root i p parent h :
  Dom.handle_at root p = Some parent ->
  Dom.handle_at root (i :: p) = Some h ->
  Dom.ElementNode (Dom.h_el h) (Dom.h_kids h) ∈ Dom.h_kids parent.
Proof.
  unfold Dom.handle_at. simpl.
  destruct (Dom.node_at root p) as [[d|d|e cs]|]; simpl; try done.
  intros [= <-]. simpl.
  destruct (cs !! i) as [[d|d|e' k]|] eqn:Hi; simpl; try done.
  intros [= <-]. simpl. by eapply list_elem_of_lookup_2.
Qed.

(** X19: candidates from the walk do not nest, except inside links and
    buttons.  When a candidate that is not a card lies inside another
    candidate that is not a card, the outer one is a link or a button:
    any other element yields a candidate only when the walker enters
    none of its children. *)
Theorem X19_walked_candidates_do_not_nest root rawElements outer inner k :
  page_function root = Ok rawElements ->
  outer ∈ rawElements ->
  inner ∈ rawElements ->
  Cand.isCard outer = false ->
  Cand.isCard inner = false ->
  k ≠ [] ->
  node_of inner = (k ++ node_of outer)%list ->
  Dom.tagName (Dom.h_el (Cand.element outer)) = "BUTTON"
  ∨ Dom.tagName (Dom.h_el (Cand.element outer)) = "A".
Proof.
  intros Hraw Houter Hinner Hco Hci Hk Hpath.
  destruct (page_function_described _ _ _ Hraw Houter) as (b & Hb & Hdo).
  destruct (page_function_described _ _ _ Hraw Hinner) as (b' & Hb' & Hdi).
  assert (b' = b) as -> by congruence.
  destruct (d_walked _ _ _ Hdo Hco) as (_ & _ & Htext & _ & Hwo).
  destruct (d_walked _ _ _ Hdi Hci) as (_ & _ & _ & _ & Hwi).
  destruct (described_content _ _ _ Hdo) as (Hnonws & _).
  destruct (walkable_below _ _ _ Hwo) as [above Habove].
  rewrite Hpath in Hwi.
  destruct (walkable_through _ _ _ _ above Habove Hk Hwi) as (i & h & Hh & Hskip).
  pose proof (handle_at_child _ _ _ _ _ (d_document _ _ _ Hdo) Hh) as Hchild.
  destruct (String.eqb (Dom.tagName (Dom.h_el (Cand.element outer))) "BUTTON")
    eqn:Hbutton; [left; by apply String.eqb_eq|].
  destruct (String.eqb (Dom.tagName (Dom.h_el (Cand.element outer))) "A")
    eqn:Hlink; [right; by apply String.eqb_eq|].
  apply String.eqb_neq in Hbutton, Hlink.
  rewrite Htext, (container_text_empty _ _ _ Hbutton Hlink Hchild Hskip) in Hnonws.
  done.
Qed.

Lemma X19_walked_candidates_do_not_nest_witness :
  Dom.tagName (Dom.h_el (Cand.element (nth_candidate page_link 0))) = "BUTTON"
  ∨ Dom.tagName (Dom.h_el (Cand.element (nth_candidate page_link 0))) = "A".
Proof.
  apply (X19_walked_candidates_do_not_nest page_link (elements_of page_link)
           (nth_candidate page_link 0) (nth_candidate page_link 1) [0%nat]).
  - vm_compute. reflexivity.
  - apply list_elem_of_In. vm_compute. left. reflexivity.
  - apply list_elem_of_In. vm_compute. right. left. reflexivity.
  - vm_compute. reflexivity.
  - vm_compute. reflexivity.
  - done.
  - vm_compute. reflexivity.
Defined.

(** ** The test suite *)

Lemma orderingValid_from_seq l : forall i,
  map Sec.order l = seq (i + 1) (length l) -> orderingValid_from i l = true.
Proof.
  induction l as [|s l IH]; intros i; [done|].
  cbn [map length seq orderingValid_from]. intros [= Hs Hl].
  rewrite Hs, (Nat.eqb_refl (i + 1)). cbn [negb].
  apply IH. exact Hl.
Qed.

(** X20: four checks of the general test suite hold of every result.
    Whatever [scrapeWebsite] returns passes the checks that the character
    counts match the texts (test 3), that the sections are numbered in
    order (test 5), that every section has an XPath (test 7) and that no
    section has an empty text (test 9). *)
Theorem X20_general_checks browser url counter results counter' :
  scrapeWebsite browser url counter = (Ok results, counter') ->
  charCountsValid (Res.sections results) = true
  ∧ orderingValid (Res.sections results) = true
  ∧ xpathForAll (Res.sections results) = true
  ∧ noEmptyText (Res.sections results) = true.
Proof.
  intros [[-> _] | (root & raw & _ & Hraw & -> & _)]%run_sections; [done|].
  assert (Hall : Forall (fun s => has_nonws (Sec.text s) = true
                                  ∧ anchored (Sec.xpath s) = true
                                  ∧ Sec.charCount s = String.length (Sec.text s))
                        (sections_of raw)).
  { apply Forall_forall. intros s Hs. by eapply sections_of_show. }
  assert (Horder : map Sec.order (sections_of raw)
                   = seq (0 + 1) (length (sections_of raw))).
  { unfold sections_of. by rewrite assemble_order, assemble_length. }
  split; [|split; [|split]].
  - unfold charCountsValid. clear Horder.
    induction Hall as [|s l (_ & _ & Hs) _ IH]; [done|].
    cbn [fold_left]. rewrite Hs, (Nat.eqb_refl (String.length (Sec.text s))).
    exact IH.
  - by apply orderingValid_from_seq.
  - unfold xpathForAll. cbv zeta. clear Horder.
    replace (filter _ (sections_of raw)) with (sections_of raw);
      [apply Nat.eqb_refl|].
    induction Hall as [|s l (_ & Hs & _) _ IH]; [done|].
    rewrite filter_cons_True; [by f_equal|].
    unfold anchored in Hs. by destruct (Sec.xpath s).
  - unfold noEmptyText. cbv zeta. clear Horder.
    replace (filter _ (sections_of raw)) with (@nil Sec.t); [done|].
    induction Hall as [|s l (Hs & _) _ IH]; [done|].
    rewrite filter_cons_False; [done|].
    rewrite (has_nonws_truthy _ Hs). simpl.
    pose proof (trim_truthy (Sec.text s)) as Ht. rewrite Hs in Ht.
    by destruct (Js.trim (Sec.text s)).
Qed.

Lemma X20_general_checks_witness :
  charCountsValid (Res.sections (returned (run_on page_services))) = true
  ∧ orderingValid (Res.sections (returned (run_on page_services))) = true
  ∧ xpathForAll (Res.sections (returned (run_on page_services))) = true
  ∧ noEmptyText (Res.sections (returned (run_on page_services))) = true.
Proof.
  apply (X20_general_checks (showing page_services) "https://example.org"
           fresh_counter _ (run_on page_services).2).
  vm_compute. reflexivity.
Defined.
